(** * A serialisable memory arena: allocator and growable array

    Shallow embedding of [allocator.ts] (class [Allocator], class
    [MemoryBlockRef]) and of [structures/resazible-array/resizable-array.ts]
    (class [ResizableArray]).

    Modelling conventions.
    - A JavaScript [number] is modelled by [Z]: every number the code
      computes with is an integer, and the embedding is exact as long as
      they stay in the safe-integer range of a double.
    - [new ArrayBuffer(n)] is modelled for every length [n >= 0]: the
      failure of the allocation for lack of memory is not modelled, and
      the properties of the constructor are stated for lengths below
      [2^31].
    - An [ArrayBuffer] is a [list byte].  [DataView.getUint32] and
      [DataView.setUint32] are called without the [littleEndian] flag, so
      they are big-endian; [setUint32] stores [ToUint32 value], that is
      [value mod 2^32]; both throw a [RangeError] when the four bytes do
      not lie inside the view.
    - The field [_view] is always a [DataView] over the whole of
      [_buffer] (both are assigned together), so only [_buffer] is kept.
    - Methods mutate objects and may throw after having mutated: they
      are functions in a state monad whose result is either a value or a
      thrown exception, the state being kept in both cases.
    - Objects that are shared by reference (the arrays registered in the
      allocator's [_structures] map) live in a heap and are named by
      their address. *)

From Stdlib Require Import ZArith Lia List Permutation Sorted.
From Stdlib Require Import Strings.Byte.
From stdpp Require Import base option list gmap strings.

Local Open Scope Z_scope.

(** ** Exceptions and the method monad *)

Inductive Exn : Type :=
| RangeError
| TypeError
| Error (msg : string)
| ErrorNotFound (id : Z).  (* [new Error(`Structure with ID ${id} not found`)] *)

Inductive Result (A : Type) : Type :=
| Ok (a : A)
| Throw (e : Exn).

Arguments Ok {A} a.
Arguments Throw {A} e.

(** ** Byte buffers and [DataView] accessors *)

Definition Z_of_byte (b : byte) : Z := Z.of_N (Byte.to_N b).

Definition byte_of_Z (z : Z) : byte :=
  default x00 (Byte.of_N (Z.to_N (z mod 256))).

Definition byteAt (buf : list byte) (n : nat) : Z :=
  Z_of_byte (default x00 (buf !! n)).

(** [new ArrayBuffer(n)]: [n] zero bytes. *)
Definition ArrayBuffer (n : Z) : list byte := repeat x00 (Z.to_nat n).

Definition byteLength (buf : list byte) : Z := Z.of_nat (length buf).

Definition in_view (buf : list byte) (o : Z) : bool :=
  (0 <=? o) && (o + 4 <=? byteLength buf).

Definition getUint32 (buf : list byte) (o : Z) : option Z :=
  if in_view buf o then
    let n := Z.to_nat o in
    Some (byteAt buf n * 2 ^ 24 + byteAt buf (n + 1) * 2 ^ 16
          + byteAt buf (n + 2) * 2 ^ 8 + byteAt buf (n + 3))
  else None.

Definition ToUint32 (v : Z) : Z := v mod 2 ^ 32.

Definition setUint32 (buf : list byte) (o v : Z) : option (list byte) :=
  if in_view buf o then
    let n := Z.to_nat o in
    let u := ToUint32 v in
    Some (<[(n + 3)%nat := byte_of_Z u]>
          (<[(n + 2)%nat := byte_of_Z (u / 2 ^ 8)]>
           (<[(n + 1)%nat := byte_of_Z (u / 2 ^ 16)]>
            (<[n := byte_of_Z (u / 2 ^ 24)]> buf))))
  else None.

(** ** Objects *)

Record MemoryBlockRef : Type := mkBlock { offset : Z; size : Z }.

(** The structures a program of this repository registers: a
    [ResizableArray] (named by its heap address), or the stub of the
    allocator's tests, [{ restore: (offset) => {} }]. *)
Inductive Struct : Type :=
| ArrayStruct (ref : nat)
| StubStruct.

Record StructEntry : Type := mkEntry { entry_offset : Z; entry_struct : Struct }.

Record Allocator : Type := mkAllocator {
  _buffer : list byte;
  _structures : gmap Z StructEntry;
  _nextId : Z;
  _initialBufferSize : Z;
  maxFreeBlocks : Z
}.

Record ResizableArray : Type := mkArray {
  _length : Z;
  _capacity : Z;
  _block : MemoryBlockRef;
  __ID : option Z;
  _initialCapacity : Z
}.

Record World : Type := mkWorld {
  allocator : Allocator;
  heap : list ResizableArray
}.

Definition M (A : Type) : Type := World -> Result A * World.

Definition ret {A} (a : A) : M A := fun w => (Ok a, w).

Definition throw {A} (e : Exn) : M A := fun w => (Throw e, w).

Definition bind {A B} (m : M A) (k : A -> M B) : M B :=
  fun w =>
    match m w with
    | (Ok a, w') => k a w'
    | (Throw e, w') => (Throw e, w')
    end.

Notation "'let*' x ':=' m 'in' k" := (bind m (fun x => k))
  (at level 10, x name, m at level 100, k at level 200).

Notation "m ';;;' k" := (bind m (fun _ => k))
  (at level 100, k at level 200, right associativity).

(** [for (let i = i0; i < i0 + n; i++) body] where the body may [return]:
    [Some a] stands for [return a], [None] for falling through. *)
Fixpoint for_loop {A} (n : nat) (i : Z) (body : Z -> M (option A)) : M (option A) :=
  match n with
  | O => ret None
  | S n' =>
      let* r := body i in
      match r with
      | Some a => ret (Some a)
      | None => for_loop n' (i + 1) body
      end
  end.

(** The same loop for a body that updates a local variable. *)
Fixpoint fold_loop {S} (n : nat) (i : Z) (body : Z -> S -> M S) (s : S) : M S :=
  match n with
  | O => ret s
  | S n' => let* s' := body i s in fold_loop n' (i + 1) body s'
  end.

(** *** Access to the allocator's fields *)

Definition set_buffer (buf : list byte) (a : Allocator) : Allocator :=
  mkAllocator buf (_structures a) (_nextId a) (_initialBufferSize a) (maxFreeBlocks a).

Definition set_structures (m : gmap Z StructEntry) (a : Allocator) : Allocator :=
  mkAllocator (_buffer a) m (_nextId a) (_initialBufferSize a) (maxFreeBlocks a).

Definition set_nextId (n : Z) (a : Allocator) : Allocator :=
  mkAllocator (_buffer a) (_structures a) n (_initialBufferSize a) (maxFreeBlocks a).

Definition buffer (w : World) : list byte := _buffer (allocator w).

Definition with_buffer (buf : list byte) (w : World) : World :=
  mkWorld (set_buffer buf (allocator w)) (heap w).

Definition gets {A} (f : World -> A) : M A := fun w => (Ok (f w), w).

Definition modify (f : World -> World) : M unit := fun w => (Ok tt, f w).

(** [this._view.getUint32(o)] *)
Definition view_getUint32 (o : Z) : M Z :=
  fun w =>
    match getUint32 (buffer w) o with
    | Some v => (Ok v, w)
    | None => (Throw RangeError, w)
    end.

(** [this._view.setUint32(o, v)] *)
Definition view_setUint32 (o v : Z) : M unit :=
  fun w =>
    match setUint32 (buffer w) o v with
    | Some buf => (Ok tt, with_buffer buf w)
    | None => (Throw RangeError, w)
    end.

(** ** class Allocator *)

(** [new Allocator(_initialBufferSize, maxFreeBlocks)] *)
Definition Allocator_new (initialBufferSize maxFree : Z) : Result Allocator :=
  if initialBufferSize <? 0 then Throw RangeError
  else
    let a := mkAllocator (ArrayBuffer initialBufferSize) ∅ 0 initialBufferSize maxFree in
    let initialOffset := 12 + maxFree * 8 in
    match (view_setUint32 0 initialOffset ;;;
           view_setUint32 4 0 ;;;
           view_setUint32 8 0) (mkWorld a []) with
    | (Ok _, w) => Ok (allocator w)
    | (Throw e, _) => Throw e
    end.

Definition removeFreeBlock (index : Z) : M unit :=
  let* c := view_getUint32 4 in
  let freeBlockCount := c - 1 in
  view_setUint32 4 freeBlockCount ;;;
  if index <? freeBlockCount then
    let lastOffset := 12 + freeBlockCount * 8 in
    let offset := 12 + index * 8 in
    let* lo := view_getUint32 lastOffset in
    view_setUint32 offset lo ;;;
    let* ls := view_getUint32 (lastOffset + 4) in
    view_setUint32 (offset + 4) ls
  else ret tt.

(** [freeBlocks.sort((a, b) => a.offset - b.offset)]: the sort of an array
    is stable, and the result of a stable sort by a key is unique; it is
    computed here by insertion. *)
Fixpoint insert_by_offset (b : MemoryBlockRef) (l : list MemoryBlockRef) : list MemoryBlockRef :=
  match l with
  | [] => [b]
  | c :: l' =>
      if offset c - offset b <=? 0 then c :: insert_by_offset b l'
      else b :: l
  end.

Definition sort_by_offset (l : list MemoryBlockRef) : list MemoryBlockRef :=
  foldr insert_by_offset [] (rev l).

(** [mergedBlocks[mergedBlocks.length - 1].size += b.size] *)
Definition grow_last (merged : list MemoryBlockRef) (b : MemoryBlockRef) : list MemoryBlockRef :=
  match last merged with
  | Some l => removelast merged ++ [mkBlock (offset l) (size l + size b)]
  | None => merged
  end.

(** The merging loop of [coalesceFreeBlocks].  The object pushed onto
    [mergedBlocks] is the very object [freeBlocks[i]], and later
    iterations update its [size] in place; [freeBlocks[i]] is never read
    again once it has been pushed, so the alias is not observable. *)
Fixpoint merge_loop (mergedBlocks freeBlocks : list MemoryBlockRef) : list MemoryBlockRef :=
  match freeBlocks with
  | [] => mergedBlocks
  | b :: rest =>
      match last mergedBlocks with
      | None => merge_loop (mergedBlocks ++ [b]) rest
      | Some l =>
          if offset l + size l <? offset b
          then merge_loop (mergedBlocks ++ [b]) rest
          else merge_loop (grow_last mergedBlocks b) rest
      end
  end.

(** The loop that saves [mergedBlocks[i]], [i = i0, i0 + 1, ...]. *)
Fixpoint save_blocks (i : Z) (blocks : list MemoryBlockRef) : M unit :=
  match blocks with
  | [] => ret tt
  | b :: rest =>
      let off := 12 + i * 8 in
      view_setUint32 off (offset b) ;;;
      view_setUint32 (off + 4) (size b) ;;;
      save_blocks (i + 1) rest
  end.

Definition coalesceFreeBlocks : M unit :=
  let* freeBlockCount := view_getUint32 4 in
  let* freeBlocks :=
    fold_loop (Z.to_nat freeBlockCount) 0
      (fun i acc =>
         let off := 12 + i * 8 in
         let* blockOffset := view_getUint32 off in
         let* blockSize := view_getUint32 (off + 4) in
         ret (acc ++ [mkBlock blockOffset blockSize])) [] in
  let sorted := sort_by_offset freeBlocks in
  let mergedBlocks := merge_loop [] sorted in
  save_blocks 0 mergedBlocks ;;;
  view_setUint32 4 (Z.of_nat (length mergedBlocks)).

Definition free (block : MemoryBlockRef) : M unit :=
  let* freeBlockCount := view_getUint32 4 in
  let* maxFree := gets (fun w => maxFreeBlocks (allocator w)) in
  if maxFree <=? freeBlockCount then throw (Error "Free block list is full")
  else
    let off := 12 + freeBlockCount * 8 in
    view_setUint32 off (offset block) ;;;
    view_setUint32 (off + 4) (size block) ;;;
    view_setUint32 4 (freeBlockCount + 1) ;;;
    coalesceFreeBlocks.

(** *** Access to the heap of arrays *)

(** [this]: the array object at address [ref].  Every address the
    program holds is the address of an object, so the error branch is
    never taken. *)
Definition this (ref : nat) : M ResizableArray :=
  fun w =>
    match heap w !! ref with
    | Some t => (Ok t, w)
    | None => (Throw TypeError, w)
    end.

Definition update_this (ref : nat) (f : ResizableArray -> ResizableArray) : M unit :=
  modify (fun w => mkWorld (allocator w) (alter f ref (heap w))).

Definition set_length (n : Z) (t : ResizableArray) : ResizableArray :=
  mkArray n (_capacity t) (_block t) (__ID t) (_initialCapacity t).

Definition set_capacity (n : Z) (t : ResizableArray) : ResizableArray :=
  mkArray (_length t) n (_block t) (__ID t) (_initialCapacity t).

Definition set_block (b : MemoryBlockRef) (t : ResizableArray) : ResizableArray :=
  mkArray (_length t) (_capacity t) b (__ID t) (_initialCapacity t).

Definition set_ID (id : Z) (t : ResizableArray) : ResizableArray :=
  mkArray (_length t) (_capacity t) (_block t) (Some id) (_initialCapacity t).

(** ** class ResizableArray: the metadata methods *)

Definition saveMetadata (ref : nat) : M unit :=
  let* t := this ref in
  view_setUint32 (offset (_block t)) (_length t) ;;;
  view_setUint32 (offset (_block t) + 4) (_capacity t).

Definition loadMetadata (ref : nat) : M unit :=
  let* t := this ref in
  let* len := view_getUint32 (offset (_block t)) in
  update_this ref (set_length len) ;;;
  let* cap := view_getUint32 (offset (_block t) + 4) in
  update_this ref (set_capacity cap).

(** [restore(offset)] *)
Definition restore (ref : nat) (off : Z) : M unit :=
  let* t := this ref in
  update_this ref (set_block (mkBlock off (_capacity t * 4 + 8))) ;;;
  loadMetadata ref.

(** [struct.restore(offset)], by the class of [struct]. *)
Definition Struct_restore (s : Struct) (off : Z) : M unit :=
  match s with
  | ArrayStruct ref => restore ref off
  | StubStruct => ret tt
  end.

(** ** class Allocator, continued *)

Definition restoreStructures : M unit :=
  let* structuresCount := view_getUint32 8 in
  let* maxFree := gets (fun w => maxFreeBlocks (allocator w)) in
  let* _ :=
    for_loop (A := unit) (Z.to_nat structuresCount) 0
      (fun i =>
         let structOffset := 12 + maxFree * 8 + i * 8 in
         let* id := view_getUint32 structOffset in
         let* off := view_getUint32 (structOffset + 4) in
         let* entry := gets (fun w => _structures (allocator w) !! id) in
         match entry with
         | None => throw TypeError  (* [undefined.struct] *)
         | Some e => Struct_restore (entry_struct e) off ;;; ret None
         end) in
  ret tt.

Definition expandBuffer : M unit :=
  let* old := gets buffer in
  let newBufferSize := byteLength old * 2 in
  let newBuffer := ArrayBuffer newBufferSize in
  (* [newUint8Array.set(oldUint8Array)] *)
  let newBuffer := old ++ drop (length old) newBuffer in
  modify (with_buffer newBuffer) ;;;
  restoreStructures.

(** The body of the first-fit loop of [allocate], at index [i]. *)
Definition allocate_loop_body (sz : Z) (i : Z) : M (option MemoryBlockRef) :=
  let off := 12 + i * 8 in
  let* blockOffset := view_getUint32 off in
  let* blockSize := view_getUint32 (off + 4) in
  if sz <=? blockSize then
    let remainingSize := blockSize - sz in
    (if 0 <? remainingSize then
       view_setUint32 off (blockOffset + sz) ;;;
       view_setUint32 (off + 4) remainingSize
     else removeFreeBlock i) ;;;
    ret (Some (mkBlock blockOffset sz))
  else ret None.

Definition allocate (sz : Z) : M MemoryBlockRef :=
  let* freeBlockCount := view_getUint32 4 in
  let* found := for_loop (Z.to_nat freeBlockCount) 0 (allocate_loop_body sz) in
  match found with
  | Some b => ret b
  | None =>
      let* off := view_getUint32 0 in
      let* len := gets (fun w => byteLength (buffer w)) in
      let* off :=
        (if len <? off + sz
         then expandBuffer ;;; view_getUint32 0
         else ret off) in
      view_setUint32 0 (off + sz) ;;;
      ret (mkBlock off sz)
  end.

Definition registerStructure (structure : Struct) : M Z :=
  let* id := gets (fun w => _nextId (allocator w)) in
  modify (fun w => mkWorld (set_nextId (id + 1) (allocator w)) (heap w)) ;;;
  let* off := view_getUint32 0 in
  modify (fun w =>
            mkWorld (set_structures (<[id := mkEntry off structure]> (_structures (allocator w)))
                                    (allocator w))
                    (heap w)) ;;;
  let* structuresCount := view_getUint32 8 in
  let* maxFree := gets (fun w => maxFreeBlocks (allocator w)) in
  let structOffset := 12 + maxFree * 8 + structuresCount * 8 in
  view_setUint32 structOffset id ;;;
  view_setUint32 (structOffset + 4) off ;;;
  view_setUint32 8 (structuresCount + 1) ;;;
  ret id.

Definition getStructureOffset (id : Z) : M Z :=
  let* entry := gets (fun w => _structures (allocator w) !! id) in
  match entry with
  | None => throw (ErrorNotFound id)
  | Some e => ret (entry_offset e)
  end.

(** [Allocator.fromBuffer(buffer)]; the objects of the program are in
    [objs], and stay there. *)
Definition fromBuffer (buf : list byte) (objs : list ResizableArray)
  : Result Allocator * list ResizableArray :=
  match Allocator_new (byteLength buf) 100 with
  | Throw e => (Throw e, objs)
  | Ok a =>
      (* [buffer.slice(0)] is a copy of [buffer] *)
      match restoreStructures (mkWorld (set_buffer buf a) objs) with
      | (Ok _, w) => (Ok (allocator w), heap w)
      | (Throw e, w) => (Throw e, heap w)
      end
  end.

(** ** class ResizableArray *)

(** [new Uint8Array(this._allocator.buffer, byteOffset, length)]: the
    view is its pair of bounds, once checked against the buffer. *)
Definition Uint8Array (byteOffset len : Z) : M (Z * Z) :=
  let* n := gets (fun w => byteLength (buffer w)) in
  if (byteOffset <? 0) || (len <? 0) || (n <? byteOffset + len)
  then throw RangeError
  else ret (byteOffset, len).

(** [target.set(source)] for two views of the allocator's buffer: the
    source bytes are read first, then written from the start of the
    target; a source longer than the target is a [RangeError]. *)
Definition Uint8Array_set (target source : Z * Z) : M unit :=
  if snd target <? snd source then throw RangeError
  else
    modify (fun w =>
      let buf := buffer w in
      let src := take (Z.to_nat (snd source)) (drop (Z.to_nat (fst source)) buf) in
      let at_ := Z.to_nat (fst target) in
      with_buffer (take at_ buf ++ src ++ drop (at_ + length src) buf) w).

Definition resize (ref : nat) : M unit :=
  let* t := this ref in
  let newCapacity := _capacity t * 2 in
  let* newBlock := allocate (8 + newCapacity * 4) in
  (* [allocate] may have grown the buffer and restored [this] *)
  let* t := this ref in
  let* oldView := Uint8Array (offset (_block t) + 8) (_capacity t * 4) in
  let* newView := Uint8Array (offset newBlock + 8) (newCapacity * 4) in
  Uint8Array_set newView oldView ;;;
  let* t := this ref in
  free (_block t) ;;;
  update_this ref (set_capacity newCapacity) ;;;
  update_this ref (set_block newBlock) ;;;
  saveMetadata ref.

(** [new ResizableArray(allocator, initialCapacity)]; the result is the
    address of the new object.  [this] exists from the start of the
    constructor, but nothing can reach it before [registerStructure]
    receives it, so it enters the heap just before that call. *)
Definition ResizableArray_new (initialCapacity : Z) : M nat :=
  let* block := allocate (8 + initialCapacity * 4) in
  let* ref := gets (fun w => length (heap w)) in
  modify (fun w => mkWorld (allocator w)
                     (heap w ++ [mkArray 0 initialCapacity block None initialCapacity])) ;;;
  let* id := registerStructure (ArrayStruct ref) in
  update_this ref (set_ID id) ;;;
  saveMetadata ref ;;;
  ret ref.

Definition push (ref : nat) (value : Z) : M unit :=
  let* t := this ref in
  (if _capacity t <=? _length t then resize ref else ret tt) ;;;
  let* t := this ref in
  view_setUint32 (offset (_block t) + 8 + _length t * 4) value ;;;
  update_this ref (fun t => set_length (_length t + 1) t) ;;;
  saveMetadata ref.

Definition get (ref : nat) (index : Z) : M Z :=
  let* t := this ref in
  if _length t <=? index then throw (Error "Index out of bounds")
  else view_getUint32 (offset (_block t) + 8 + index * 4).

(** ** Vocabulary of the properties *)

(** [new Allocator(1024)] *)
Definition arena1024 : World :=
  match Allocator_new 1024 100 with
  | Ok a => mkWorld a []
  | Throw _ => mkWorld (mkAllocator [] ∅ 0 0 0) []
  end.

Definition header (w : World) : option Z * option Z * option Z :=
  (getUint32 (buffer w) 0, getUint32 (buffer w) 4, getUint32 (buffer w) 8).

(** [preserves R m]: a run of [m] takes a state to an [R]-related state,
    whether it returns or throws. *)
Definition preserves (R : World -> World -> Prop) {A} (m : M A) : Prop :=
  forall w, R w (snd (m w)).

(** The methods of an array that read the arena leave the allocator as
    it is: they only update the array. *)
Definition same_allocator (w w' : World) : Prop := allocator w' = allocator w.

(** The arena never shrinks. *)
Definition not_shorter (w w' : World) : Prop :=
  byteLength (buffer w) <= byteLength (buffer w').

(** An arena with room for one free block, after [allocate(10)],
    [allocate(10)] and the release of the first block. *)
Definition arena_full : World :=
  match Allocator_new 1024 1 with
  | Ok a =>
      snd ((let* block1 := allocate 10 in
            let* block2 := allocate 10 in
            free block1) (mkWorld a []))
  | Throw _ => mkWorld (mkAllocator [] ∅ 0 0 0) []
  end.

(** The free table, decoded: entry [i] is the pair of words at
    [12 + i * 8], and the table is made of the first [count] entries. *)
Definition read_entry (buf : list byte) (i : Z) : option MemoryBlockRef :=
  match getUint32 buf (12 + i * 8), getUint32 buf (12 + i * 8 + 4) with
  | Some o, Some s => Some (mkBlock o s)
  | _, _ => None
  end.

Fixpoint read_entries (buf : list byte) (i : Z) (n : nat) : option (list MemoryBlockRef) :=
  match n with
  | O => Some []
  | S n' =>
      match read_entry buf i, read_entries buf (i + 1) n' with
      | Some b, Some l => Some (b :: l)
      | _, _ => None
      end
  end.

Definition free_table (buf : list byte) : option (list MemoryBlockRef) :=
  match getUint32 buf 4 with
  | Some c => read_entries buf 0 (Z.to_nat c)
  | None => None
  end.

(** What [setUint32] keeps of the two fields of a block. *)
Definition wrap (b : MemoryBlockRef) : MemoryBlockRef :=
  mkBlock (ToUint32 (offset b)) (ToUint32 (size b)).

Definition uint32 (v : Z) : Prop := 0 <= v < 2 ^ 32.

(** The merging loop once [mergedBlocks] is not empty, as a function of
    its last element [a] and of the blocks still to come. *)
Fixpoint merge_from (a : MemoryBlockRef) (l : list MemoryBlockRef) : list MemoryBlockRef :=
  match l with
  | [] => [a]
  | b :: rest =>
      if offset a + size a <? offset b
      then a :: merge_from b rest
      else merge_from (mkBlock (offset a) (size a + size b)) rest
  end.

(** The result of [coalesceFreeBlocks] on a table that reads as [l]. *)
Definition coalesced (l : list MemoryBlockRef) : list MemoryBlockRef :=
  map wrap (merge_loop [] (sort_by_offset l)).

(** [a] ends strictly before [b] starts: neither overlapping nor adjacent. *)
Definition separated (a b : MemoryBlockRef) : Prop := offset a + size a < offset b.

(** The table that [free(block)] leaves when it found the table [fl]: the
    block is appended and the table coalesced.  The count is a 32-bit
    word, so that an entry number [2^32] would wrap it to zero. *)
Definition table_after_free (fl : list MemoryBlockRef) (block : MemoryBlockRef)
  : list MemoryBlockRef :=
  coalesced (take (Z.to_nat (ToUint32 (Z.of_nat (length fl) + 1))) (fl ++ [wrap block])).

(** A block as the coalescing pass meets it: read from 32-bit words, or
    grown from such blocks. *)
Definition good_block (b : MemoryBlockRef) : Prop := uint32 (offset b) /\ 0 <= size b.

Definition uint32_block (b : MemoryBlockRef) : Prop := uint32 (offset b) /\ uint32 (size b).

(** [removeFreeBlock(k)] on the decoded table: the last entry takes the
    place of entry [k] and the table loses its last entry. *)
Definition swap_remove (k : nat) (fl : list MemoryBlockRef) : list MemoryBlockRef :=
  match last fl with
  | Some lst => take (length fl - 1) (<[k := lst]> fl)
  | None => fl
  end.

(** The table after [allocate(sz)] took entry [k], which reads [e]. *)
Definition table_after_fit (sz : Z) (k : nat) (e : MemoryBlockRef)
           (fl : list MemoryBlockRef) : list MemoryBlockRef :=
  if 0 <? size e - sz
  then <[k := wrap (mkBlock (offset e + sz) (size e - sz))]> fl
  else swap_remove k fl.

(** The first entry of the table that can hold [sz] bytes. *)
Definition first_fit (sz : Z) (fl : list MemoryBlockRef) : option (nat * MemoryBlockRef) :=
  list_find (fun b => sz <= size b) fl.

(** The state in which [expandBuffer] starts its registry walk. *)
Definition grown (w : World) : World :=
  with_buffer (buffer w ++ repeat x00 (length (buffer w))) w.

(** An arena with one free block, next to a block in use. *)
Definition arena_one_free : World :=
  snd ((let* block1 := allocate 100 in
        let* block2 := allocate 100 in
        free block1) arena1024).

(** [new Allocator(1024)], one array of capacity 2 and one [push(42)]. *)
Definition arena_with_array : World :=
  snd ((let* arr := ResizableArray_new 2 in push arr 42) arena1024).

(** ** Scenarios *)

(** [try { m } catch (e) { }], the outcome being kept as a value. *)
Definition attempt {A} (m : M A) : M (Result A) :=
  fun w => let (r, w') := m w in (Ok r, w').

Fixpoint push_all (arr : nat) (values : list Z) : M unit :=
  match values with
  | [] => ret tt
  | v :: rest => push arr v ;;; push_all arr rest
  end.

(** [arr.get(i)] for [i = i0 .. i0 + n - 1], each outcome kept. *)
Fixpoint get_all (arr : nat) (i : Z) (n : nat) : M (list (Result Z)) :=
  match n with
  | O => ret []
  | S n' =>
      let* x := attempt (get arr i) in
      let* xs := get_all arr (i + 1) n' in
      ret (x :: xs)
  end.

(** What a client sees of an array: [length], [capacity] and the
    outcomes of [get(0)], ..., [get(n - 1)]. *)
Definition observe (arr : nat) (n : nat) : M (Z * Z * list (Result Z)) :=
  let* t := this arr in
  let* xs := get_all arr 0 n in
  ret (_length t, _capacity t, xs).

(** The scenario of the round trip: [new ResizableArray(allocator,
    initialCapacity)], one [push] per value, then
    [arr.restore(allocator.getStructureOffset(arr.__ID))]; the array is
    observed before and after [restore]. *)
Definition round_trip (initialCapacity : Z) (values : list Z)
  : M ((Z * Z * list (Result Z)) * Z * (Z * Z * list (Result Z))) :=
  let* arr := ResizableArray_new initialCapacity in
  push_all arr values ;;;
  let* before := observe arr (length values) in
  let* t := this arr in
  let* off :=
    match __ID t with
    | Some id => getStructureOffset id
    | None => throw TypeError
    end in
  restore arr off ;;;
  let* after := observe arr (length values) in
  ret (before, off, after).

(** [new Allocator(16)]: an arena shorter than its own free table. *)
Definition arena16 : World :=
  match Allocator_new 16 100 with
  | Ok a => mkWorld a []
  | Throw _ => mkWorld (mkAllocator [] ∅ 0 0 0) []
  end.

(** [new Allocator(1024)] after [allocate(100)] twice. *)
Definition arena_two_blocks : World :=
  snd ((allocate 100 ;;; allocate 100) arena1024).

(** ** Clients of [allocate] and [free] *)

(** A client that respects the API: it asks for blocks, and releases
    blocks that it holds, named by their rank among the blocks it holds;
    so it never releases a block twice, nor one that it was not given. *)
Inductive Op : Type :=
| OpAllocate (sz : Z)
| OpFree (k : nat).

(** The run of a client from the state [w], holding the blocks [live].
    A block is held from the [allocate] that returned it up to the
    [free] that accepted it; a [free] that throws leaves the block with
    the client. *)
Fixpoint run (ops : list Op) (w : World) (live : list MemoryBlockRef)
  : World * list MemoryBlockRef :=
  match ops with
  | [] => (w, live)
  | OpAllocate sz :: rest =>
      match allocate sz w with
      | (Ok b, w') => run rest w' (live ++ [b])
      | (Throw _, w') => run rest w' live
      end
  | OpFree k :: rest =>
      match live !! k with
      | None => run rest w live
      | Some b =>
          match free b w with
          | (Ok _, w') => run rest w' (delete k live)
          | (Throw _, w') => run rest w' live
          end
      end
  end.




(** The byte ranges of [a] and [b] have no byte in common. *)
Definition disjoint (a b : MemoryBlockRef) : Prop :=
  offset a + size a <= offset b \/ offset b + size b <= offset a.



Definition le_offset (a b : MemoryBlockRef) : Prop := offset a <= offset b.






(** A client of [new Allocator(1024)]: two blocks, the first one
    released, and a smaller block that takes its place. *)
Definition client_reuse : list Op :=
  [OpAllocate 100; OpAllocate 100; OpFree 0; OpAllocate 50].


(** The state in which [registerStructure] starts to write: the id is
    taken and the structure is in the map, at the bump offset [bump]. *)
Definition registered (s : Struct) (bump : Z) (w : World) : World :=
  let a := allocator w in
  mkWorld
    (mkAllocator (_buffer a)
                 (<[_nextId a := mkEntry bump s]> (_structures a))
                 (_nextId a + 1) (_initialBufferSize a) (maxFreeBlocks a))
    (heap w).

(** The free table is readable and holds at most [maxFreeBlocks]
    entries. *)
Definition table_ok (w : World) : Prop :=
  12 <= byteLength (buffer w)
  /\ exists fl,
       free_table (buffer w) = Some fl
       /\ Z.of_nat (length fl) <= maxFreeBlocks (allocator w).

(** [new Allocator(1024)] and one array of capacity 2, still empty. *)
Definition arena_empty_array : World := snd (ResizableArray_new 2 arena1024).

(** The bytes of a buffer after [n] bytes from [s] were copied to [a],
    as [Uint8Array_set] writes them. *)
Definition copied (buf : list byte) (a s n : nat) : list byte :=
  take a buf ++ take n (drop s buf) ++ drop (a + length (take n (drop s buf))) buf.

(** [new Allocator(1024)] and one array of capacity 2, full. *)
Definition arena_full_array : World :=
  snd ((let* arr := ResizableArray_new 2 in push arr 42 ;;; push arr 84) arena1024).

(** [new Allocator(1024)] and one array of capacity 0. *)
Definition arena_capacity_zero : World := snd (ResizableArray_new 0 arena1024).

(** [new Allocator(1024)], a block of 100 bytes, where the registry
    starts, then one array of capacity 2 and one [push(42)]. *)
Definition arena_padded_array : World :=
  snd ((allocate 100 ;;;
        let* arr := ResizableArray_new 2 in
        push arr 42) arena1024).

(** [new Allocator(1024)] after five blocks of 10 bytes, of which the
    first, the third and the fifth were released: three free entries
    with a block in use between each and the next. *)
Definition arena_three_free : World :=
  snd ((let* block1 := allocate 10 in
        let* block2 := allocate 10 in
        let* block3 := allocate 10 in
        let* block4 := allocate 10 in
        let* block5 := allocate 10 in
        free block1 ;;; free block3 ;;; free block5) arena1024).


(** * Properties *)

(** ** Bytes and 32-bit words *)

Lemma Z_of_byte_range (b : byte) : 0 <= Z_of_byte b < 256.
Proof.
  unfold Z_of_byte. pose proof (Byte.to_N_bounded b) as H.
  apply N2Z.inj_le in H. simpl in H. lia.
Qed.

Lemma Z_of_byte_of_Z (z : Z) : Z_of_byte (byte_of_Z z) = z mod 256.
Proof.
  unfold Z_of_byte, byte_of_Z.
  assert (Hr : 0 <= z mod 256 < 256) by (apply Z.mod_pos_bound; lia).
  destruct (Byte.of_N (Z.to_N (z mod 256))) as [b|] eqn:E.
  - apply Byte.to_of_N in E. simpl. rewrite E. rewrite Z2N.id; lia.
  - apply Byte.of_N_None_iff in E. lia.
Qed.

Lemma in_view_true (buf : list byte) (o : Z) :
  in_view buf o = true <-> 0 <= o /\ o + 4 <= byteLength buf.
Proof. unfold in_view. rewrite andb_true_iff, Z.leb_le, Z.leb_le. tauto. Qed.

Lemma in_view_false (buf : list byte) (o : Z) :
  in_view buf o = false <-> o < 0 \/ byteLength buf < o + 4.
Proof.
  unfold in_view. rewrite andb_false_iff, Z.leb_gt, Z.leb_gt. tauto.
Qed.

Lemma getUint32_Some (buf : list byte) (o v : Z) :
  getUint32 buf o = Some v -> 0 <= o /\ o + 4 <= byteLength buf.
Proof.
  unfold getUint32. destruct (in_view buf o) eqn:E; [|discriminate].
  intros _. now apply in_view_true.
Qed.

Lemma getUint32_is_Some (buf : list byte) (o : Z) :
  0 <= o -> o + 4 <= byteLength buf -> exists v, getUint32 buf o = Some v.
Proof.
  intros H1 H2. unfold getUint32.
  rewrite (proj2 (in_view_true buf o)) by tauto. eauto.
Qed.

Lemma getUint32_range (buf : list byte) (o v : Z) :
  getUint32 buf o = Some v -> 0 <= v < 2 ^ 32.
Proof.
  unfold getUint32. destruct (in_view buf o); [|discriminate].
  intros [= <-]. unfold byteAt.
  pose proof (Z_of_byte_range (default x00 (buf !! Z.to_nat o))).
  pose proof (Z_of_byte_range (default x00 (buf !! (Z.to_nat o + 1)%nat))).
  pose proof (Z_of_byte_range (default x00 (buf !! (Z.to_nat o + 2)%nat))).
  pose proof (Z_of_byte_range (default x00 (buf !! (Z.to_nat o + 3)%nat))).
  lia.
Qed.

Lemma setUint32_Some (buf : list byte) (o v : Z) (buf' : list byte) :
  setUint32 buf o v = Some buf' -> 0 <= o /\ o + 4 <= byteLength buf.
Proof.
  unfold setUint32. destruct (in_view buf o) eqn:E; [|discriminate].
  intros _. now apply in_view_true.
Qed.

Lemma setUint32_is_Some (buf : list byte) (o v : Z) :
  0 <= o -> o + 4 <= byteLength buf -> exists buf', setUint32 buf o v = Some buf'.
Proof.
  intros H1 H2. unfold setUint32.
  rewrite (proj2 (in_view_true buf o)) by tauto. eauto.
Qed.

Lemma setUint32_length (buf : list byte) (o v : Z) (buf' : list byte) :
  setUint32 buf o v = Some buf' -> length buf' = length buf.
Proof.
  unfold setUint32. destruct (in_view buf o); [|discriminate].
  intros [= <-]. now rewrite !length_insert.
Qed.

Lemma setUint32_byteLength (buf : list byte) (o v : Z) (buf' : list byte) :
  setUint32 buf o v = Some buf' -> byteLength buf' = byteLength buf.
Proof. intros H. unfold byteLength. now rewrite (setUint32_length _ _ _ _ H). Qed.

Lemma word_of_bytes (u : Z) :
  0 <= u < 2 ^ 32 ->
  (u / 2 ^ 24) mod 256 * 2 ^ 24 + (u / 2 ^ 16) mod 256 * 2 ^ 16
  + (u / 2 ^ 8) mod 256 * 2 ^ 8 + u mod 256 = u.
Proof.
  intros H.
  change (2 ^ 24) with 16777216. change (2 ^ 16) with 65536.
  change (2 ^ 8) with 256. change (2 ^ 32) with 4294967296 in H.
  Z.div_mod_to_equations. lia.
Qed.

Lemma getUint32_setUint32_eq (buf : list byte) (o v : Z) (buf' : list byte) :
  setUint32 buf o v = Some buf' -> getUint32 buf' o = Some (ToUint32 v).
Proof.
  intros H. pose proof (setUint32_Some _ _ _ _ H) as [H0 H4].
  pose proof (setUint32_byteLength _ _ _ _ H) as HL.
  unfold getUint32. rewrite (proj2 (in_view_true buf' o)) by lia.
  unfold setUint32 in H. rewrite (proj2 (in_view_true buf o)) in H by lia.
  injection H as <-. f_equal.
  unfold byteLength in H4.
  set (n := Z.to_nat o). assert (Hn : (n + 4 <= length buf)%nat) by lia.
  unfold byteAt.
  repeat first
    [ rewrite list_lookup_insert_eq by (rewrite ?length_insert; lia)
    | rewrite list_lookup_insert_ne by lia ].
  simpl. rewrite !Z_of_byte_of_Z.
  apply word_of_bytes. unfold ToUint32. apply Z.mod_pos_bound. lia.
Qed.

Lemma getUint32_setUint32_ne (buf : list byte) (o v : Z) (buf' : list byte) (o' : Z) :
  setUint32 buf o v = Some buf' ->
  o' + 4 <= o \/ o + 4 <= o' ->
  getUint32 buf' o' = getUint32 buf o'.
Proof.
  intros H Hd. pose proof (setUint32_Some _ _ _ _ H) as [H0 H4].
  pose proof (setUint32_byteLength _ _ _ _ H) as HL.
  unfold getUint32, in_view. rewrite HL.
  destruct ((0 <=? o') && (o' + 4 <=? byteLength buf)) eqn:E; [|reflexivity].
  apply andb_true_iff in E as [E1 E2]. apply Z.leb_le in E1, E2.
  unfold setUint32 in H. rewrite (proj2 (in_view_true buf o)) in H by lia.
  injection H as <-. f_equal. unfold byteAt.
  rewrite !list_lookup_insert_ne by lia. reflexivity.
Qed.

(** A buffer that is extended keeps its words. *)
Lemma getUint32_app (buf ext : list byte) (o v : Z) :
  getUint32 buf o = Some v -> getUint32 (buf ++ ext) o = Some v.
Proof.
  intros H. pose proof (getUint32_Some _ _ _ H) as [H0 H4].
  unfold getUint32 in *. rewrite (proj2 (in_view_true buf o)) in H by lia.
  assert (Hv : in_view (buf ++ ext) o = true).
  { apply in_view_true. unfold byteLength in *. rewrite length_app. lia. }
  rewrite Hv. injection H as <-. f_equal. unfold byteAt, byteLength in *.
  rewrite !lookup_app_l by lia. reflexivity.
Qed.

(** ** Running a method: one step at a time *)

Section Steps.
Context {A B : Type}.
Implicit Types (m : M A) (k : A -> M B) (w : World).

Lemma bind_Ok m k w a w' : m w = (Ok a, w') -> bind m k w = k a w'.
Proof. unfold bind. now intros ->. Qed.

Lemma bind_Throw m k w e w' : m w = (Throw e, w') -> bind m k w = (Throw e, w').
Proof. unfold bind. now intros ->. Qed.

Lemma bind_inv_Ok m k w b w2 :
  bind m k w = (Ok b, w2) ->
  exists a w1, m w = (Ok a, w1) /\ k a w1 = (Ok b, w2).
Proof.
  unfold bind. destruct (m w) as [[a|e] w1]; [eauto | discriminate].
Qed.
End Steps.

Lemma view_getUint32_Ok (w : World) (o v : Z) :
  getUint32 (buffer w) o = Some v -> view_getUint32 o w = (Ok v, w).
Proof. unfold view_getUint32. now intros ->. Qed.

Lemma view_getUint32_None (w : World) (o : Z) :
  getUint32 (buffer w) o = None -> view_getUint32 o w = (Throw RangeError, w).
Proof. unfold view_getUint32. now intros ->. Qed.

Lemma view_getUint32_inv (w : World) (o v : Z) (w' : World) :
  view_getUint32 o w = (Ok v, w') -> getUint32 (buffer w) o = Some v /\ w' = w.
Proof.
  unfold view_getUint32. destruct (getUint32 (buffer w) o); [|discriminate].
  now intros [= -> ->].
Qed.

Lemma view_setUint32_Ok (w : World) (o v : Z) (buf : list byte) :
  setUint32 (buffer w) o v = Some buf ->
  view_setUint32 o v w = (Ok tt, with_buffer buf w).
Proof. unfold view_setUint32. now intros ->. Qed.

Lemma view_setUint32_None (w : World) (o v : Z) :
  setUint32 (buffer w) o v = None -> view_setUint32 o v w = (Throw RangeError, w).
Proof. unfold view_setUint32. now intros ->. Qed.

Lemma view_setUint32_inv (w : World) (o v : Z) (u : unit) (w' : World) :
  view_setUint32 o v w = (Ok u, w') ->
  exists buf, setUint32 (buffer w) o v = Some buf /\ w' = with_buffer buf w.
Proof.
  unfold view_setUint32. destruct (setUint32 (buffer w) o v) as [buf|]; [|discriminate].
  intros [= _ <-]. eauto.
Qed.

Lemma gets_inv {A} (f : World -> A) (w : World) (a : A) (w' : World) :
  gets f w = (Ok a, w') -> a = f w /\ w' = w.
Proof. unfold gets. intros E. injection E as E1 E2. now subst. Qed.

Lemma modify_inv (f : World -> World) (w : World) (u : unit) (w' : World) :
  modify f w = (Ok u, w') -> w' = f w.
Proof. unfold modify. intros E. injection E as E1 E2. now subst. Qed.

Lemma ret_inv {A} (a : A) (w : World) (b : A) (w' : World) :
  ret a w = (Ok b, w') -> b = a /\ w' = w.
Proof. unfold ret. intros E. injection E as E1 E2. now subst. Qed.

Lemma buffer_with_buffer (buf : list byte) (w : World) : buffer (with_buffer buf w) = buf.
Proof. reflexivity. Qed.

Lemma with_buffer_with_buffer (b1 b2 : list byte) (w : World) :
  with_buffer b2 (with_buffer b1 w) = with_buffer b2 w.
Proof. reflexivity. Qed.

Lemma with_buffer_id (w : World) : with_buffer (buffer w) w = w.
Proof. destruct w as [[? ? ? ? ?] ?]. reflexivity. Qed.

Lemma maxFreeBlocks_with_buffer (buf : list byte) (w : World) :
  maxFreeBlocks (allocator (with_buffer buf w)) = maxFreeBlocks (allocator w).
Proof. reflexivity. Qed.

(** [step_with H]: run the first command of a sequence, whose outcome is
    given by [H]. *)
Ltac step_with H := rewrite (bind_Ok _ _ _ _ _ H); cbv beta.
Ltac get_step H :=
  match goal with
  | |- context [bind (view_getUint32 ?o) ?k ?w] =>
      rewrite (bind_Ok (view_getUint32 o) k w _ _ (view_getUint32_Ok w o _ H));
      cbv beta
  end.
Ltac set_step H :=
  match goal with
  | |- context [bind (view_setUint32 ?o ?v) ?k ?w] =>
      rewrite (bind_Ok (view_setUint32 o v) k w tt _ (view_setUint32_Ok w o v _ H));
      cbv beta; rewrite ?with_buffer_with_buffer
  end.

(** ** The test suite of the allocator, replayed *)


Example initial_metadata : header arena1024 = (Some 812, Some 0, Some 0).
Proof. vm_compute. reflexivity. Qed.

Example expands_when_needed :
  fst ((let* block1 := allocate 900 in
        let* block2 := allocate 200 in
        ret (block1, block2)) arena1024)
  = Ok (mkBlock 812 900, mkBlock 1712 200).
Proof. vm_compute. reflexivity. Qed.

Example reuses_freed_block :
  fst ((let* block := allocate 100 in
        free block ;;;
        allocate 50) arena1024)
  = Ok (mkBlock 812 50).
Proof. vm_compute. reflexivity. Qed.

Example array_resizes :
  fst ((let* arr := ResizableArray_new 2 in
        push arr 1 ;;; push arr 2 ;;; push arr 3 ;;;
        let* t := this arr in
        let* x := get arr 2 in
        ret (_capacity t, _length t, x)) arena1024)
  = Ok (4, 3, 3).
Proof. vm_compute. reflexivity. Qed.

(** ** Relations that every step of a method preserves *)

Section Preserves.
Variable R : World -> World -> Prop.
Hypothesis R_refl : forall w, R w w.
Hypothesis R_trans : forall w1 w2 w3, R w1 w2 -> R w2 w3 -> R w1 w3.


Local Abbreviation preserves := (preserves R).

Lemma preserves_ret {A} (a : A) : preserves (ret a).
Proof. intros w. apply R_refl. Qed.

Lemma preserves_throw {A} (e : Exn) : preserves (throw (A := A) e).
Proof. intros w. apply R_refl. Qed.

Lemma preserves_gets {A} (f : World -> A) : preserves (gets f).
Proof. intros w. apply R_refl. Qed.

Lemma preserves_bind {A B} (m : M A) (k : A -> M B) :
  preserves m -> (forall a, preserves (k a)) -> preserves (bind m k).
Proof.
  intros Hm Hk w. unfold bind. specialize (Hm w).
  destruct (m w) as [[a|e] w1]; simpl in *; [|assumption].
  eapply R_trans; [eassumption | apply Hk].
Qed.

Lemma preserves_view_getUint32 (o : Z) : preserves (view_getUint32 o).
Proof.
  intros w. unfold view_getUint32.
  destruct (getUint32 (buffer w) o); apply R_refl.
Qed.

Lemma preserves_this (ref : nat) : preserves (this ref).
Proof. intros w. unfold this. destruct (heap w !! ref); apply R_refl. Qed.

Lemma preserves_for_loop {A} (n : nat) (body : Z -> M (option A)) :
  (forall i, preserves (body i)) -> forall i, preserves (for_loop n i body).
Proof.
  intros Hb. induction n as [|n IH]; intros i; simpl.
  - apply preserves_ret.
  - apply preserves_bind; [apply Hb|].
    intros [a|]; [apply preserves_ret | apply IH].
Qed.

Lemma preserves_fold_loop {S} (n : nat) (body : Z -> S -> M S) :
  (forall i s, preserves (body i s)) -> forall i s, preserves (fold_loop n i body s).
Proof.
  intros Hb. induction n as [|n IH]; intros i s; simpl.
  - apply preserves_ret.
  - apply preserves_bind; [apply Hb|]. intros s'. apply IH.
Qed.
End Preserves.


Lemma same_allocator_refl (w : World) : same_allocator w w.
Proof. reflexivity. Qed.

Lemma same_allocator_trans (w1 w2 w3 : World) :
  same_allocator w1 w2 -> same_allocator w2 w3 -> same_allocator w1 w3.
Proof. unfold same_allocator. congruence. Qed.

Ltac next_binder :=
  lazymatch goal with
  | |- preserves _ _ => fail
  | |- _ => intro
  end.

Ltac heap_only :=
  repeat first
    [ apply (preserves_ret _ same_allocator_refl)
    | apply (preserves_throw _ same_allocator_refl)
    | apply (preserves_gets _ same_allocator_refl)
    | apply (preserves_view_getUint32 _ same_allocator_refl)
    | apply (preserves_this _ same_allocator_refl)
    | apply (preserves_bind _ same_allocator_trans)
    | apply (preserves_for_loop _ same_allocator_refl same_allocator_trans)
    | next_binder ].

Lemma update_this_same_allocator (ref : nat) (f : ResizableArray -> ResizableArray) :
  preserves same_allocator (update_this ref f).
Proof. intros w. reflexivity. Qed.

Lemma restore_same_allocator (ref : nat) (off : Z) :
  preserves same_allocator (restore ref off).
Proof.
  unfold restore, loadMetadata.
  repeat first [apply update_this_same_allocator | progress heap_only].
Qed.

Lemma restoreStructures_same_allocator : preserves same_allocator restoreStructures.
Proof.
  unfold restoreStructures. heap_only.
  match goal with |- preserves _ (match ?e with _ => _ end) => destruct e as [e'|] end.
  - heap_only. destruct (entry_struct e'); simpl; [apply restore_same_allocator | heap_only].
  - heap_only.
Qed.


Lemma not_shorter_refl (w : World) : not_shorter w w.
Proof. unfold not_shorter. lia. Qed.

Lemma not_shorter_trans (w1 w2 w3 : World) :
  not_shorter w1 w2 -> not_shorter w2 w3 -> not_shorter w1 w3.
Proof. unfold not_shorter. lia. Qed.

Lemma same_allocator_not_shorter {A} (m : M A) :
  preserves same_allocator m -> preserves not_shorter m.
Proof. intros H w. unfold not_shorter, buffer. rewrite (H w). lia. Qed.

Lemma view_setUint32_not_shorter (o v : Z) : preserves not_shorter (view_setUint32 o v).
Proof.
  intros w. unfold view_setUint32, not_shorter.
  destruct (setUint32 (buffer w) o v) as [buf|] eqn:E; simpl; [|lia].
  rewrite buffer_with_buffer, (setUint32_byteLength _ _ _ _ E). lia.
Qed.

Lemma expandBuffer_buffer (w : World) :
  buffer (snd (expandBuffer w)) = buffer w ++ repeat x00 (length (buffer w)).
Proof.
  unfold expandBuffer, bind, gets, modify.
  pose proof (restoreStructures_same_allocator
                (with_buffer (buffer w ++ drop (length (buffer w))
                                (ArrayBuffer (byteLength (buffer w) * 2))) w)) as H.
  destruct (restoreStructures _) as [[u|e] w1]; simpl in *;
    unfold buffer at 1; rewrite H; simpl; f_equal;
    unfold ArrayBuffer, byteLength;
    replace (Z.to_nat (Z.of_nat (length (buffer w)) * 2))
      with (length (buffer w) + length (buffer w))%nat by lia;
    rewrite repeat_app, drop_app_length'; auto using repeat_length.
Qed.

Lemma expandBuffer_not_shorter : preserves not_shorter expandBuffer.
Proof.
  intros w. unfold not_shorter. rewrite expandBuffer_buffer.
  unfold byteLength. rewrite length_app. lia.
Qed.

Ltac not_shorter :=
  repeat first
    [ apply (preserves_ret _ not_shorter_refl)
    | apply (preserves_throw _ not_shorter_refl)
    | apply (preserves_gets _ not_shorter_refl)
    | apply (preserves_view_getUint32 _ not_shorter_refl)
    | apply view_setUint32_not_shorter
    | apply expandBuffer_not_shorter
    | apply (preserves_bind _ not_shorter_trans)
    | apply (preserves_for_loop _ not_shorter_refl not_shorter_trans)
    | apply (preserves_fold_loop _ not_shorter_refl not_shorter_trans)
    | next_binder
    | match goal with
      | |- preserves _ (if ?b then _ else _) => destruct b
      | |- preserves _ (match ?o with Some _ => _ | None => _ end) => destruct o
      end ].

Lemma save_blocks_not_shorter (l : list MemoryBlockRef) :
  forall i, preserves not_shorter (save_blocks i l).
Proof. induction l as [|b l IH]; intros i; simpl; not_shorter. apply IH. Qed.

Lemma free_not_shorter (block : MemoryBlockRef) : preserves not_shorter (free block).
Proof.
  unfold free, coalesceFreeBlocks. not_shorter. apply save_blocks_not_shorter.
Qed.

Lemma allocate_not_shorter (sz : Z) : preserves not_shorter (allocate sz).
Proof. unfold allocate, allocate_loop_body, removeFreeBlock. not_shorter. Qed.

Lemma registerStructure_not_shorter (s : Struct) : preserves not_shorter (registerStructure s).
Proof.
  unfold registerStructure. not_shorter;
    intros w; unfold not_shorter, modify, buffer; simpl; lia.
Qed.

(** ** Growth of the arena *)

(** C9: [expandBuffer] doubles the byte length of the arena exactly and
    keeps every byte that was inside the old extent at its offset: the
    new store is the old one followed by as many zero bytes, whether the
    registry walk that ends the method succeeds or throws.  No public
    method of the allocator ever makes the arena shorter. *)
Theorem expandBuffer_doubles_and_keeps_bytes (w : World) :
  let old := buffer w in
  let new := buffer (snd (expandBuffer w)) in
  byteLength new = 2 * byteLength old
  /\ new = old ++ repeat x00 (length old)
  /\ (forall i b, old !! i = Some b -> new !! i = Some b)
  /\ (forall o v, getUint32 old o = Some v -> getUint32 new o = Some v)
  /\ (forall sz, preserves not_shorter (allocate sz))
  /\ (forall block, preserves not_shorter (free block))
  /\ (forall s, preserves not_shorter (registerStructure s)).
Proof.
  cbv zeta. rewrite expandBuffer_buffer. repeat split.
  - unfold byteLength. rewrite length_app, repeat_length. lia.
  - intros i b H. now apply lookup_app_l_Some.
  - intros o v H. now apply getUint32_app.
  - apply allocate_not_shorter.
  - apply free_not_shorter.
  - apply registerStructure_not_shorter.
Qed.

(** ** Releasing a block into a full free list *)

(** C5: when the free-block count has reached the configured maximum,
    [free] throws "Free block list is full" and the state it leaves is
    the state it found: header, free table and every other byte are
    unchanged, so the block is not recorded. *)
Theorem free_full_rejected (w : World) (block : MemoryBlockRef) (c : Z) :
  getUint32 (buffer w) 4 = Some c ->
  maxFreeBlocks (allocator w) <= c ->
  free block w = (Throw (Error "Free block list is full"), w).
Proof.
  intros Hc Hfull. unfold free. get_step Hc.
  unfold bind, gets, throw.
  now rewrite (proj2 (Z.leb_le _ _) Hfull).
Qed.


Lemma free_full_rejected_witness :
  getUint32 (buffer arena_full) 4 = Some 1
  /\ free (mkBlock 30 10) arena_full
     = (Throw (Error "Free block list is full"), arena_full).
Proof.
  assert (H : getUint32 (buffer arena_full) 4 = Some 1) by (vm_compute; reflexivity).
  split; [exact H|].
  apply (free_full_rejected arena_full (mkBlock 30 10) 1 H).
  vm_compute. discriminate.
Defined.

(** ** Construction *)

Lemma ArrayBuffer_byteLength (n : Z) : 0 <= n -> byteLength (ArrayBuffer n) = n.
Proof. intros H. unfold byteLength, ArrayBuffer. rewrite repeat_length. lia. Qed.

Lemma Allocator_new_Ok (n maxFree : Z) :
  12 <= n ->
  exists buf,
    Allocator_new n maxFree = Ok (mkAllocator buf ∅ 0 n maxFree)
    /\ byteLength buf = n
    /\ getUint32 buf 0 = Some (ToUint32 (12 + maxFree * 8))
    /\ getUint32 buf 4 = Some 0
    /\ getUint32 buf 8 = Some 0.
Proof.
  intros Hn. unfold Allocator_new.
  destruct (n <? 0) eqn:E; [apply Z.ltb_lt in E; lia|].
  pose proof (ArrayBuffer_byteLength n ltac:(lia)) as HL.
  set (a := mkAllocator (ArrayBuffer n) ∅ 0 n maxFree).
  destruct (setUint32_is_Some (ArrayBuffer n) 0 (12 + maxFree * 8)) as [b1 H1]; [lia..|].
  pose proof (setUint32_byteLength _ _ _ _ H1) as L1.
  destruct (setUint32_is_Some b1 4 0) as [b2 H2]; [lia..|].
  pose proof (setUint32_byteLength _ _ _ _ H2) as L2.
  destruct (setUint32_is_Some b2 8 0) as [b3 H3]; [lia..|].
  pose proof (setUint32_byteLength _ _ _ _ H3) as L3.
  exists b3.
  set_step H1. set_step H2.
  rewrite (view_setUint32_Ok (with_buffer b2 (mkWorld a [])) 8 0 b3 H3).
  repeat split.
  - lia.
  - rewrite (getUint32_setUint32_ne _ _ _ _ 0 H3) by lia.
    rewrite (getUint32_setUint32_ne _ _ _ _ 0 H2) by lia.
    apply (getUint32_setUint32_eq _ _ _ _ H1).
  - rewrite (getUint32_setUint32_ne _ _ _ _ 4 H3) by lia.
    apply (getUint32_setUint32_eq _ _ _ _ H2).
  - apply (getUint32_setUint32_eq _ _ _ _ H3).
Qed.

Lemma Allocator_new_inv (n maxFree : Z) (a : Allocator) :
  Allocator_new n maxFree = Ok a -> 12 <= n.
Proof.
  unfold Allocator_new. destruct (n <? 0) eqn:E0; [discriminate|].
  apply Z.ltb_ge in E0.
  match goal with
  | |- match ?run with _ => _ end = _ -> _ => destruct run as [[u|e] w] eqn:E
  end; [|discriminate].
  intros _.
  apply bind_inv_Ok in E as (u1 & w1 & Hs1 & E).
  apply view_setUint32_inv in Hs1 as (b1 & H1 & ->).
  apply bind_inv_Ok in E as (u2 & w2 & Hs2 & E).
  apply view_setUint32_inv in Hs2 as (b2 & H2 & ->).
  apply view_setUint32_inv in E as (b3 & H3 & _).
  rewrite !buffer_with_buffer in *.
  pose proof (setUint32_byteLength _ _ _ _ H1) as L1.
  pose proof (setUint32_byteLength _ _ _ _ H2) as L2.
  apply setUint32_Some in H3.
  change (buffer _) with (ArrayBuffer n) in L1.
  rewrite ArrayBuffer_byteLength in L1 by lia. lia.
Qed.

(** ** Loading an arena from bytes *)

Lemma restoreStructures_none (w : World) :
  getUint32 (buffer w) 8 = Some 0 -> restoreStructures w = (Ok tt, w).
Proof.
  intros H. unfold restoreStructures. get_step H. reflexivity.
Qed.





(** ** The free table as a list of blocks *)

Lemma ToUint32_range (v : Z) : uint32 (ToUint32 v).
Proof. unfold uint32, ToUint32. apply Z.mod_pos_bound. lia. Qed.

Lemma ToUint32_id (v : Z) : uint32 v -> ToUint32 v = v.
Proof. unfold uint32, ToUint32. intros H. apply Z.mod_small. lia. Qed.

Lemma ToUint32_le (v : Z) : 0 <= v -> ToUint32 v <= v.
Proof. unfold ToUint32. intros H. apply Z.mod_le; lia. Qed.

Lemma read_entry_Some (buf : list byte) (i : Z) (b : MemoryBlockRef) :
  read_entry buf i = Some b ->
  getUint32 buf (12 + i * 8) = Some (offset b)
  /\ getUint32 buf (12 + i * 8 + 4) = Some (size b).
Proof.
  unfold read_entry.
  destruct (getUint32 buf (12 + i * 8)); [|discriminate].
  destruct (getUint32 buf (12 + i * 8 + 4)); [|discriminate].
  now intros [= <-].
Qed.

Lemma read_entry_words (buf : list byte) (i o s : Z) :
  getUint32 buf (12 + i * 8) = Some o ->
  getUint32 buf (12 + i * 8 + 4) = Some s ->
  read_entry buf i = Some (mkBlock o s).
Proof. unfold read_entry. now intros -> ->. Qed.

Lemma read_entry_is_Some (buf : list byte) (i : Z) :
  0 <= i -> 12 + (i + 1) * 8 <= byteLength buf ->
  exists b, read_entry buf i = Some b.
Proof.
  intros H0 HL.
  destruct (getUint32_is_Some buf (12 + i * 8)) as [o Ho]; [lia..|].
  destruct (getUint32_is_Some buf (12 + i * 8 + 4)) as [s Hs]; [lia..|].
  exists (mkBlock o s). now apply read_entry_words.
Qed.

Lemma read_entry_range (buf : list byte) (i : Z) (b : MemoryBlockRef) :
  read_entry buf i = Some b -> uint32 (offset b) /\ uint32 (size b).
Proof.
  intros H. apply read_entry_Some in H as [Ho Hs].
  split; eapply getUint32_range; eassumption.
Qed.

Lemma read_entry_set_ne (buf : list byte) (o v : Z) (buf' : list byte) (i : Z) :
  setUint32 buf o v = Some buf' ->
  o + 4 <= 12 + i * 8 \/ 12 + (i + 1) * 8 <= o ->
  read_entry buf' i = read_entry buf i.
Proof.
  intros H Hd. unfold read_entry.
  rewrite (getUint32_setUint32_ne _ _ _ _ (12 + i * 8) H) by lia.
  rewrite (getUint32_setUint32_ne _ _ _ _ (12 + i * 8 + 4) H) by lia.
  reflexivity.
Qed.

Lemma read_entry_set_entry (buf : list byte) (i x y : Z) (b1 b2 : list byte) :
  setUint32 buf (12 + i * 8) x = Some b1 ->
  setUint32 b1 (12 + i * 8 + 4) y = Some b2 ->
  read_entry b2 i = Some (wrap (mkBlock x y)).
Proof.
  intros H1 H2. apply read_entry_words.
  - rewrite (getUint32_setUint32_ne _ _ _ _ (12 + i * 8) H2) by lia.
    apply (getUint32_setUint32_eq _ _ _ _ H1).
  - apply (getUint32_setUint32_eq _ _ _ _ H2).
Qed.

Lemma read_entries_ext (buf buf' : list byte) (n : nat) :
  forall i,
    (forall j, i <= j < i + Z.of_nat n -> read_entry buf' j = read_entry buf j) ->
    read_entries buf' i n = read_entries buf i n.
Proof.
  induction n as [|n IH]; intros i H; simpl; [reflexivity|].
  rewrite H by lia. rewrite IH; [reflexivity|].
  intros j Hj. apply H. lia.
Qed.

Lemma read_entries_length (buf : list byte) (n : nat) :
  forall i l, read_entries buf i n = Some l -> length l = n.
Proof.
  induction n as [|n IH]; intros i l; simpl.
  - now intros [= <-].
  - destruct (read_entry buf i); [|discriminate].
    destruct (read_entries buf (i + 1) n) eqn:E; [|discriminate].
    intros [= <-]. simpl. f_equal. eapply IH; eassumption.
Qed.

Lemma read_entries_is_Some (buf : list byte) (n : nat) :
  forall i, 0 <= i -> 12 + (i + Z.of_nat n) * 8 <= byteLength buf ->
            exists l, read_entries buf i n = Some l.
Proof.
  induction n as [|n IH]; intros i H0 HL; simpl; [eauto|].
  destruct (read_entry_is_Some buf i) as [b ->]; [lia..|].
  destruct (IH (i + 1)) as [l ->]; [lia..|]. eauto.
Qed.

Lemma read_entries_lookup (buf : list byte) (n : nat) :
  forall i l k,
    read_entries buf i n = Some l -> (k < n)%nat ->
    l !! k = read_entry buf (i + Z.of_nat k) /\ is_Some (l !! k).
Proof.
  induction n as [|n IH]; intros i l k; simpl; [lia|].
  destruct (read_entry buf i) as [b|] eqn:Eb; [|discriminate].
  destruct (read_entries buf (i + 1) n) as [l'|] eqn:E; [|discriminate].
  intros [= <-] Hk. destruct k as [|k]; simpl.
  - replace (i + Z.of_nat 0) with i by lia. rewrite Eb. eauto.
  - replace (i + Z.of_nat (S k)) with (i + 1 + Z.of_nat k) by lia.
    apply (IH _ _ _ E). lia.
Qed.

Lemma read_entries_Forall (buf : list byte) (n : nat) :
  forall i l, read_entries buf i n = Some l ->
              Forall (fun b => uint32 (offset b) /\ uint32 (size b)) l.
Proof.
  induction n as [|n IH]; intros i l; simpl.
  - intros [= <-]. constructor.
  - destruct (read_entry buf i) as [b|] eqn:Eb; [|discriminate].
    destruct (read_entries buf (i + 1) n) as [l'|] eqn:E; [|discriminate].
    intros [= <-]. constructor; [eapply read_entry_range | eapply IH]; eassumption.
Qed.

Lemma read_entries_snoc (buf : list byte) (n : nat) :
  forall i l b,
    read_entries buf i n = Some l ->
    read_entry buf (i + Z.of_nat n) = Some b ->
    read_entries buf i (S n) = Some (l ++ [b]).
Proof.
  induction n as [|n IH]; intros i l b.
  - simpl. intros [= <-]. replace (i + Z.of_nat 0) with i by lia. now intros ->.
  - intros H Hb. simpl in H.
    destruct (read_entry buf i) as [b0|] eqn:Eb; [|discriminate].
    destruct (read_entries buf (i + 1) n) as [l'|] eqn:E; [|discriminate].
    injection H as <-.
    change (read_entries buf i (S (S n)))
      with (match read_entry buf i, read_entries buf (i + 1) (S n) with
            | Some b, Some l => Some (b :: l)
            | _, _ => None
            end).
    rewrite Eb, (IH (i + 1) l' b E); [reflexivity|].
    rewrite <- Hb. f_equal. lia.
Qed.

Lemma read_entries_take (buf : list byte) (n : nat) :
  forall i l m,
    read_entries buf i n = Some l -> (m <= n)%nat ->
    read_entries buf i m = Some (take m l).
Proof.
  induction n as [|n IH]; intros i l m; simpl.
  - intros [= <-] Hm. replace m with O by lia. reflexivity.
  - destruct (read_entry buf i) as [b0|] eqn:Eb; [|discriminate].
    destruct (read_entries buf (i + 1) n) as [l'|] eqn:E; [|discriminate].
    intros [= <-] Hm. destruct m as [|m]; simpl; [reflexivity|].
    rewrite Eb, (IH _ _ m E) by lia. reflexivity.
Qed.

Lemma wrap_id (b : MemoryBlockRef) :
  uint32 (offset b) -> uint32 (size b) -> wrap b = b.
Proof.
  intros Ho Hs. unfold wrap. rewrite !ToUint32_id by assumption. now destruct b.
Qed.

(** *** The loops of [coalesceFreeBlocks] *)

Lemma read_loop (n : nat) :
  forall i acc w l,
    read_entries (buffer w) i n = Some l ->
    fold_loop n i
      (fun i acc =>
         let off := 12 + i * 8 in
         let* blockOffset := view_getUint32 off in
         let* blockSize := view_getUint32 (off + 4) in
         ret (acc ++ [mkBlock blockOffset blockSize])) acc w
    = (Ok (acc ++ l), w).
Proof.
  induction n as [|n IH]; intros i acc w l; simpl.
  - intros [= <-]. now rewrite app_nil_r.
  - destruct (read_entry (buffer w) i) as [b|] eqn:Eb; [|discriminate].
    destruct (read_entries (buffer w) (i + 1) n) as [l'|] eqn:E; [|discriminate].
    intros [= <-]. apply read_entry_Some in Eb as [Ho Hs].
    unfold bind at 1. unfold bind at 1.
    rewrite (view_getUint32_Ok _ _ _ Ho).
    unfold bind at 1. rewrite (view_getUint32_Ok _ _ _ Hs).
    unfold ret at 1. rewrite (IH _ _ _ _ E).
    rewrite <- app_assoc. now destruct b.
Qed.

Lemma save_blocks_Ok (l : list MemoryBlockRef) :
  forall i w,
    0 <= i -> 12 + (i + Z.of_nat (length l)) * 8 <= byteLength (buffer w) ->
    exists buf',
      save_blocks i l w = (Ok tt, with_buffer buf' w)
      /\ byteLength buf' = byteLength (buffer w)
      /\ read_entries buf' i (length l) = Some (map wrap l)
      /\ (forall o, o + 4 <= 12 + i * 8 \/ 12 + (i + Z.of_nat (length l)) * 8 <= o ->
                    getUint32 buf' o = getUint32 (buffer w) o).
Proof.
  induction l as [|b l IH]; intros i w H0 HL.
  - exists (buffer w). simpl. rewrite with_buffer_id. repeat split.
  - simpl length in *. simpl save_blocks.
    destruct (setUint32_is_Some (buffer w) (12 + i * 8) (offset b)) as [b1 H1]; [lia..|].
    pose proof (setUint32_byteLength _ _ _ _ H1) as L1.
    destruct (setUint32_is_Some b1 (12 + i * 8 + 4) (size b)) as [b2 H2]; [lia..|].
    pose proof (setUint32_byteLength _ _ _ _ H2) as L2.
    set_step H1. set_step H2.
    destruct (IH (i + 1) (with_buffer b2 w)) as (buf' & Hs & HL' & Hr & Hf);
      [lia | rewrite buffer_with_buffer; lia |].
    rewrite buffer_with_buffer in *. rewrite with_buffer_with_buffer in Hs.
    exists buf'. split; [exact Hs|]. split; [lia|]. split.
    + simpl. rewrite Hr.
      assert (E : read_entry buf' i = Some (wrap b)).
      { unfold read_entry. rewrite !Hf by lia.
        pose proof (read_entry_set_entry _ _ _ _ _ _ H1 H2) as E.
        unfold read_entry in E. destruct b; exact E. }
      now rewrite E.
    + intros o Ho. rewrite Hf by lia.
      rewrite (getUint32_setUint32_ne _ _ _ _ o H2) by lia.
      apply (getUint32_setUint32_ne _ _ _ _ o H1). lia.
Qed.

(** *** Sorting and merging *)

Lemma insert_by_offset_length (b : MemoryBlockRef) (l : list MemoryBlockRef) :
  length (insert_by_offset b l) = S (length l).
Proof.
  induction l as [|c l IH]; simpl; [reflexivity|].
  destruct (offset c - offset b <=? 0); simpl; [now rewrite IH | reflexivity].
Qed.

Lemma foldr_insert_length (l : list MemoryBlockRef) :
  length (foldr insert_by_offset [] l) = length l.
Proof.
  induction l as [|b l IH]; simpl; [reflexivity|].
  now rewrite insert_by_offset_length, IH.
Qed.

Lemma sort_by_offset_length (l : list MemoryBlockRef) :
  length (sort_by_offset l) = length l.
Proof. unfold sort_by_offset. now rewrite foldr_insert_length, length_rev. Qed.

Lemma merge_loop_snoc (l : list MemoryBlockRef) :
  forall acc a, merge_loop (acc ++ [a]) l = acc ++ merge_from a l.
Proof.
  induction l as [|b l IH]; intros acc a; simpl; [reflexivity|].
  rewrite last_snoc.
  destruct (offset a + size a <? offset b).
  - rewrite IH, <- app_assoc. reflexivity.
  - unfold grow_last. rewrite last_snoc, removelast_last. apply IH.
Qed.

Lemma merge_loop_nil (l : list MemoryBlockRef) :
  merge_loop [] l = match l with [] => [] | b :: rest => merge_from b rest end.
Proof. destruct l as [|b l]; [reflexivity|]. simpl. apply (merge_loop_snoc l [] b). Qed.

Lemma merge_from_length (l : list MemoryBlockRef) :
  forall a, (1 <= length (merge_from a l) <= S (length l))%nat.
Proof.
  induction l as [|b l IH]; intros a; simpl; [lia|].
  destruct (offset a + size a <? offset b); simpl.
  - specialize (IH b). lia.
  - specialize (IH (mkBlock (offset a) (size a + size b))). lia.
Qed.

Lemma merge_loop_length (l : list MemoryBlockRef) :
  (length (merge_loop [] l) <= length l)%nat.
Proof.
  rewrite merge_loop_nil. destruct l as [|b l]; [simpl; lia|].
  pose proof (merge_from_length l b). simpl. lia.
Qed.

Lemma coalesced_length (l : list MemoryBlockRef) :
  (length (coalesced l) <= length l)%nat.
Proof.
  unfold coalesced. rewrite length_map.
  pose proof (merge_loop_length (sort_by_offset l)) as H.
  now rewrite sort_by_offset_length in H.
Qed.

(** *** [coalesceFreeBlocks] and [free] on the decoded table *)

Lemma coalesceFreeBlocks_Ok (w : World) (fl : list MemoryBlockRef) :
  12 <= byteLength (buffer w) ->
  free_table (buffer w) = Some fl ->
  exists buf',
    coalesceFreeBlocks w = (Ok tt, with_buffer buf' w)
    /\ byteLength buf' = byteLength (buffer w)
    /\ free_table buf' = Some (coalesced fl)
    /\ (forall o, o + 4 <= 4 \/ o = 8 \/ 12 + Z.of_nat (length fl) * 8 <= o ->
                  getUint32 buf' o = getUint32 (buffer w) o).
Proof.
  intros H12.
  unfold free_table. destruct (getUint32 (buffer w) 4) as [c|] eqn:Hc; [|discriminate].
  intros Hfl. pose proof (read_entries_length _ _ _ _ Hfl) as Hlen.
  pose proof (getUint32_range _ _ _ Hc) as Hcr.
  pose proof (coalesced_length fl) as Hml.
  assert (Hin : 12 + Z.of_nat (length fl) * 8 <= byteLength (buffer w)).
  { destruct fl as [|b0 fl0] eqn:Efl.
    - simpl. lia.
    - rewrite <- Efl in *.
      destruct (read_entries_lookup _ _ _ _ (length fl - 1) Hfl) as [Hk [b Hb]]; [subst fl; simpl in *; lia|].
      rewrite Hk in Hb. apply read_entry_Some in Hb as [_ Hs].
      apply getUint32_Some in Hs.
      assert (length fl <> 0)%nat by (subst fl; simpl; lia). lia. }
  unfold coalesceFreeBlocks. get_step Hc.
  rewrite (bind_Ok _ _ _ _ _ (read_loop _ 0 [] w fl Hfl)). cbv beta. simpl app.
  fold (coalesced fl). set (merged := merge_loop [] (sort_by_offset fl)).
  assert (Hm : (length merged <= length fl)%nat).
  { unfold coalesced in Hml. now rewrite length_map in Hml. }
  destruct (save_blocks_Ok merged 0 w) as (b1 & Hs & L1 & Hr & Hf); [lia | lia |].
  rewrite (bind_Ok _ _ _ _ _ Hs). cbv beta.
  destruct (setUint32_is_Some b1 4 (Z.of_nat (length merged))) as [b2 H2].
  { lia. } { apply getUint32_Some in Hc. lia. }
  rewrite (view_setUint32_Ok (with_buffer b1 w) 4 _ b2 H2).
  rewrite with_buffer_with_buffer.
  exists b2. split; [reflexivity|].
  split; [rewrite (setUint32_byteLength _ _ _ _ H2); exact L1|].
  split.
  - rewrite (getUint32_setUint32_eq _ _ _ _ H2).
    rewrite ToUint32_id by (unfold uint32; lia).
    rewrite Nat2Z.id. unfold coalesced. fold merged.
    rewrite <- Hr. apply read_entries_ext.
    intros j Hj. apply (read_entry_set_ne _ _ _ _ _ H2). lia.
  - intros o Ho.
    rewrite (getUint32_setUint32_ne _ _ _ _ o H2) by lia.
    apply Hf. lia.
Qed.

Lemma free_table_empty (buf : list byte) :
  getUint32 buf 4 = Some 0 -> free_table buf = Some [].
Proof. unfold free_table. now intros ->. Qed.

Lemma free_table_count (buf : list byte) (fl : list MemoryBlockRef) :
  free_table buf = Some fl -> getUint32 buf 4 = Some (Z.of_nat (length fl)).
Proof.
  unfold free_table. destruct (getUint32 buf 4) as [c|] eqn:Hc; [|discriminate].
  intros H. apply read_entries_length in H. apply getUint32_range in Hc.
  f_equal. lia.
Qed.

Lemma free_table_is_Some (buf : list byte) (c : Z) :
  getUint32 buf 4 = Some c -> 12 + c * 8 <= byteLength buf ->
  exists fl, free_table buf = Some fl /\ Z.of_nat (length fl) = c.
Proof.
  intros Hc HL. pose proof (getUint32_range _ _ _ Hc) as Hr.
  destruct (read_entries_is_Some buf (Z.to_nat c) 0) as [fl Hfl]; [lia..|].
  exists fl. unfold free_table. rewrite Hc. split; [exact Hfl|].
  apply read_entries_length in Hfl. lia.
Qed.

Lemma free_Ok (w : World) (block : MemoryBlockRef) (c : Z) :
  getUint32 (buffer w) 4 = Some c ->
  c < maxFreeBlocks (allocator w) ->
  12 + (c + 1) * 8 <= byteLength (buffer w) ->
  exists fl buf',
    free_table (buffer w) = Some fl
    /\ free block w = (Ok tt, with_buffer buf' w)
    /\ byteLength buf' = byteLength (buffer w)
    /\ free_table buf' = Some (table_after_free fl block)
    /\ (forall o, o + 4 <= 4 \/ o = 8 \/ 12 + (c + 1) * 8 <= o ->
                  getUint32 buf' o = getUint32 (buffer w) o).
Proof.
  intros Hc HM HL. pose proof (getUint32_range _ _ _ Hc) as Hr.
  destruct (free_table_is_Some _ _ Hc) as (fl & Hfl & Hlen); [lia|].
  exists fl.
  destruct (setUint32_is_Some (buffer w) (12 + c * 8) (offset block)) as [b1 H1]; [lia..|].
  pose proof (setUint32_byteLength _ _ _ _ H1) as L1.
  destruct (setUint32_is_Some b1 (12 + c * 8 + 4) (size block)) as [b2 H2]; [lia..|].
  pose proof (setUint32_byteLength _ _ _ _ H2) as L2.
  destruct (setUint32_is_Some b2 4 (c + 1)) as [b3 H3]; [lia..|].
  pose proof (setUint32_byteLength _ _ _ _ H3) as L3.
  set (n' := Z.to_nat (ToUint32 (c + 1))).
  assert (Hn' : (n' <= S (Z.to_nat c))%nat).
  { unfold n'. pose proof (ToUint32_le (c + 1)). lia. }
  assert (Ht : free_table b3 = Some (take n' (fl ++ [wrap block]))).
  { unfold free_table. rewrite (getUint32_setUint32_eq _ _ _ _ H3). fold n'.
    apply (read_entries_take _ (S (Z.to_nat c))); [|exact Hn'].
    apply read_entries_snoc.
    - unfold free_table in Hfl. rewrite Hc in Hfl. rewrite <- Hfl.
      apply read_entries_ext. intros j Hj.
      rewrite (read_entry_set_ne _ _ _ _ j H3) by lia.
      rewrite (read_entry_set_ne _ _ _ _ j H2) by lia.
      apply (read_entry_set_ne _ _ _ _ j H1). lia.
    - replace (0 + Z.of_nat (Z.to_nat c)) with c by lia.
      rewrite (read_entry_set_ne _ _ _ _ c H3) by lia.
      destruct block as [bo bs]. apply (read_entry_set_entry _ _ _ _ _ _ H1 H2). }
  destruct (coalesceFreeBlocks_Ok (with_buffer b3 w) _ ltac:(rewrite buffer_with_buffer; lia) Ht)
    as (buf' & Hco & L' & Ht' & Hf).
  rewrite buffer_with_buffer, ?with_buffer_with_buffer in *.
  exists buf'. split; [exact Hfl|]. split.
  - unfold free. get_step Hc. unfold gets at 1. unfold bind at 1.
    destruct (maxFreeBlocks (allocator w) <=? c) eqn:E; [apply Z.leb_le in E; lia|].
    set_step H1. set_step H2. set_step H3. exact Hco.
  - split; [lia|]. split; [unfold table_after_free; rewrite Hlen; exact Ht'|].
    intros o Ho. rewrite Hf.
    + rewrite (getUint32_setUint32_ne _ _ _ _ o H3) by lia.
      rewrite (getUint32_setUint32_ne _ _ _ _ o H2) by lia.
      apply (getUint32_setUint32_ne _ _ _ _ o H1). lia.
    + rewrite length_take, length_app. simpl. lia.
Qed.

Lemma table_after_free_small (fl : list MemoryBlockRef) (block : MemoryBlockRef) :
  Z.of_nat (length fl) + 1 < 2 ^ 32 ->
  table_after_free fl block = coalesced (fl ++ [wrap block]).
Proof.
  intros H. unfold table_after_free.
  rewrite ToUint32_id by (unfold uint32; lia).
  rewrite take_ge; [reflexivity|]. rewrite length_app. simpl. lia.
Qed.

Lemma free_inv (w : World) (block : MemoryBlockRef) (u : unit) (w' : World) :
  free block w = (Ok u, w') ->
  exists c, getUint32 (buffer w) 4 = Some c
            /\ c < maxFreeBlocks (allocator w)
            /\ 12 + (c + 1) * 8 <= byteLength (buffer w).
Proof.
  unfold free. intros H.
  apply bind_inv_Ok in H as (c & w1 & Hg & H).
  apply view_getUint32_inv in Hg as [Hc ->].
  apply bind_inv_Ok in H as (maxFree & w1 & Hg & H).
  unfold gets in Hg. injection Hg as <- <-.
  destruct (maxFreeBlocks (allocator w) <=? c) eqn:E; [discriminate|].
  apply Z.leb_gt in E.
  apply bind_inv_Ok in H as (u1 & w1 & Hs1 & H).
  apply view_setUint32_inv in Hs1 as (b1 & H1 & ->).
  apply bind_inv_Ok in H as (u2 & w2 & Hs2 & H).
  apply view_setUint32_inv in Hs2 as (b2 & H2 & ->).
  rewrite buffer_with_buffer in H2.
  pose proof (setUint32_byteLength _ _ _ _ H1).
  apply setUint32_Some in H2.
  exists c. repeat split; [assumption | lia | lia].
Qed.

(** ** The table after a coalescing pass *)

Lemma uint32_good (b : MemoryBlockRef) : uint32_block b -> good_block b.
Proof. unfold uint32_block, good_block, uint32. tauto. Qed.

Lemma wrap_uint32 (b : MemoryBlockRef) : uint32_block (wrap b).
Proof. split; apply ToUint32_range. Qed.

Lemma merge_from_hd (l : list MemoryBlockRef) :
  forall a, exists s rest, merge_from a l = mkBlock (offset a) s :: rest.
Proof.
  induction l as [|b l IH]; intros a; simpl.
  - exists (size a), []. now destruct a.
  - destruct (offset a + size a <? offset b).
    + exists (size a), (merge_from b l). now destruct a.
    + apply (IH (mkBlock (offset a) (size a + size b))).
Qed.

Lemma merge_from_Sorted (l : list MemoryBlockRef) :
  forall a, Sorted separated (merge_from a l).
Proof.
  induction l as [|b l IH]; intros a; simpl.
  - repeat constructor.
  - destruct (offset a + size a <? offset b) eqn:E.
    + constructor; [apply IH|].
      destruct (merge_from_hd l b) as (s & rest & ->).
      constructor. unfold separated. simpl. now apply Z.ltb_lt.
    + apply IH.
Qed.

Lemma merge_from_good (l : list MemoryBlockRef) :
  forall a, good_block a -> Forall good_block l -> Forall good_block (merge_from a l).
Proof.
  induction l as [|b l IH]; intros a Ha Hl; simpl.
  - now constructor.
  - inversion Hl as [|? ? Hb Hl']; subst.
    destruct (offset a + size a <? offset b).
    + constructor; [assumption | now apply IH].
    + apply IH; [|assumption].
      destruct Ha as [? ?], Hb as [? ?]. split; simpl; [assumption | lia].
Qed.

Lemma insert_by_offset_Forall (P : MemoryBlockRef -> Prop) (b : MemoryBlockRef)
      (l : list MemoryBlockRef) :
  P b -> Forall P l -> Forall P (insert_by_offset b l).
Proof.
  intros Hb. induction 1 as [|c l Hc Hl IH]; simpl.
  - now repeat constructor.
  - destruct (offset c - offset b <=? 0); repeat constructor; assumption.
Qed.

Lemma sort_by_offset_Forall (P : MemoryBlockRef -> Prop) (l : list MemoryBlockRef) :
  Forall P l -> Forall P (sort_by_offset l).
Proof.
  intros H. unfold sort_by_offset. apply Forall_rev in H.
  induction H as [|b l' Hb Hl IH]; simpl; [constructor|].
  now apply insert_by_offset_Forall.
Qed.

Lemma merge_loop_good (l : list MemoryBlockRef) :
  Forall good_block l -> Forall good_block (merge_loop [] l).
Proof.
  intros H. rewrite merge_loop_nil. destruct H; [constructor|].
  now apply merge_from_good.
Qed.

Lemma merge_loop_Sorted (l : list MemoryBlockRef) : Sorted separated (merge_loop [] l).
Proof.
  rewrite merge_loop_nil. destruct l; [constructor | apply merge_from_Sorted].
Qed.

Lemma wrap_separated (a b : MemoryBlockRef) :
  good_block a -> good_block b -> separated a b -> separated (wrap a) (wrap b).
Proof.
  unfold good_block, separated, wrap. simpl. intros [Ha Hs] [Hb _] H.
  rewrite (ToUint32_id (offset a)), (ToUint32_id (offset b)) by assumption.
  pose proof (ToUint32_le (size a) Hs). lia.
Qed.

Lemma map_wrap_Sorted (l : list MemoryBlockRef) :
  Forall good_block l -> Sorted separated l -> Sorted separated (map wrap l).
Proof.
  intros Hg Hs. induction Hs as [|a l Hs IH Hd]; simpl; [constructor|].
  inversion Hg as [|? ? Ha Hl]; subst.
  constructor; [now apply IH|].
  destruct Hd as [|b l' Hab]; simpl; constructor.
  inversion Hl; subst. now apply wrap_separated.
Qed.

Lemma Sorted_separated_Strongly (l : list MemoryBlockRef) :
  Forall (fun b => 0 <= size b) l -> Sorted separated l -> StronglySorted separated l.
Proof.
  intros Hg Hs. induction Hs as [|a l Hs IH Hd]; [constructor|].
  inversion Hg as [|? ? Ha Hl]; subst. specialize (IH Hl).
  constructor; [assumption|].
  destruct Hd as [|b l' Hab]; [constructor|].
  apply StronglySorted_inv in IH as [_ Hall].
  inversion Hl as [|? ? Hb _]; subst.
  constructor; [assumption|].
  eapply Forall_impl; [exact Hall|]. unfold separated in *. simpl. intros c Hc. lia.
Qed.

Lemma StronglySorted_lookup {A} (R : A -> A -> Prop) (l : list A) :
  StronglySorted R l ->
  forall i j a b, (i < j)%nat -> l !! i = Some a -> l !! j = Some b -> R a b.
Proof.
  induction 1 as [|x l Hs IH Hall]; intros i j a b Hij Hi Hj.
  - discriminate.
  - destruct j as [|j]; [lia|]. simpl in Hj. destruct i as [|i]; simpl in Hi.
    + injection Hi as <-. rewrite Forall_forall in Hall. apply Hall.
      apply list_elem_of_lookup. eauto.
    + apply (IH i j); [lia | assumption..].
Qed.

Lemma coalesced_uint32 (l : list MemoryBlockRef) : Forall uint32_block (coalesced l).
Proof.
  unfold coalesced. induction (merge_loop [] (sort_by_offset l)) as [|b m IH]; simpl.
  - constructor.
  - constructor; [apply wrap_uint32 | exact IH].
Qed.

Lemma coalesced_Sorted (l : list MemoryBlockRef) :
  Forall uint32_block l -> Sorted separated (coalesced l).
Proof.
  intros H. unfold coalesced. apply map_wrap_Sorted.
  - apply merge_loop_good, sort_by_offset_Forall.
    eapply Forall_impl; [exact H | apply uint32_good].
  - apply merge_loop_Sorted.
Qed.

Lemma coalesced_StronglySorted (l : list MemoryBlockRef) :
  Forall uint32_block l -> StronglySorted separated (coalesced l).
Proof.
  intros H. apply Sorted_separated_Strongly; [|now apply coalesced_Sorted].
  eapply Forall_impl; [apply coalesced_uint32|].
  unfold uint32_block, uint32. simpl. intros b Hb. lia.
Qed.

Lemma free_table_uint32 (buf : list byte) (fl : list MemoryBlockRef) :
  free_table buf = Some fl -> Forall uint32_block fl.
Proof.
  unfold free_table. destruct (getUint32 buf 4); [|discriminate].
  apply read_entries_Forall.
Qed.

Lemma table_after_free_uint32 (fl : list MemoryBlockRef) (block : MemoryBlockRef) :
  Forall uint32_block fl ->
  Forall uint32_block (take (Z.to_nat (ToUint32 (Z.of_nat (length fl) + 1)))
                            (fl ++ [wrap block])).
Proof.
  intros H. apply Forall_take, Forall_app. split; [assumption|].
  constructor; [apply wrap_uint32 | constructor].
Qed.

Lemma free_returns (w : World) (block : MemoryBlockRef) (w' : World) :
  free block w = (Ok tt, w') ->
  exists fl,
    free_table (buffer w) = Some fl
    /\ Z.of_nat (length fl) < maxFreeBlocks (allocator w)
    /\ free_table (buffer w') = Some (table_after_free fl block)
    /\ w' = with_buffer (buffer w') w
    /\ byteLength (buffer w') = byteLength (buffer w)
    /\ getUint32 (buffer w') 0 = getUint32 (buffer w) 0
    /\ getUint32 (buffer w') 8 = getUint32 (buffer w) 8.
Proof.
  intros H. destruct (free_inv _ _ _ _ H) as (c & Hc & HM & HL).
  destruct (free_Ok w block c Hc HM HL) as (fl & buf' & Hfl & Hfree & Hlen & Ht & Hf).
  rewrite Hfree in H. injection H as <-. rewrite buffer_with_buffer.
  exists fl. split; [exact Hfl|].
  pose proof (free_table_count _ _ Hfl) as Hc'.
  assert (c = Z.of_nat (length fl)) as -> by congruence.
  pose proof (getUint32_range _ _ _ Hc) as Hr.
  repeat split; try assumption; apply Hf; lia.
Qed.

(** C8: when [free] returns, the live entries of the free table are
    what the coalescing pass merged: each entry ends strictly before the
    next one starts, so that offsets ascend strictly and any two entries
    neither overlap nor touch, and the free-block count of the header is
    the number of merged entries. *)
Theorem free_leaves_table_separated (w : World) (block : MemoryBlockRef) (w' : World) :
  free block w = (Ok tt, w') ->
  exists fl,
    free_table (buffer w) = Some fl
    /\ free_table (buffer w') = Some (table_after_free fl block)
    /\ getUint32 (buffer w') 4 = Some (Z.of_nat (length (table_after_free fl block)))
    /\ Sorted separated (table_after_free fl block)
    /\ (forall i j a b,
          (i < j)%nat ->
          table_after_free fl block !! i = Some a ->
          table_after_free fl block !! j = Some b ->
          offset a < offset b /\ offset a + size a < offset b).
Proof.
  intros H. destruct (free_returns _ _ _ H) as (fl & Hfl & _ & Ht & _).
  exists fl. split; [exact Hfl|]. split; [exact Ht|].
  split; [now apply free_table_count|].
  pose proof (table_after_free_uint32 fl block (free_table_uint32 _ _ Hfl)) as Hu.
  split; [now apply coalesced_Sorted|].
  intros i j a b Hij Hi Hj.
  pose proof (StronglySorted_lookup _ _ (coalesced_StronglySorted _ Hu) i j a b Hij Hi Hj) as Hsep.
  split; [|exact Hsep].
  assert (Ha : uint32_block a).
  { pose proof (coalesced_uint32 (take (Z.to_nat (ToUint32 (Z.of_nat (length fl) + 1)))
                                       (fl ++ [wrap block]))) as Hall.
    rewrite Forall_forall in Hall. apply Hall.
    apply list_elem_of_lookup. eauto. }
  destruct Ha as [_ [Hs _]]. unfold separated in Hsep. lia.
Qed.

Lemma free_leaves_table_separated_witness :
  let block := mkBlock 912 100 in
  let w' := snd (free block arena_one_free) in
  free block arena_one_free = (Ok tt, w')
  /\ free_table (buffer w') = Some [mkBlock 812 200]
  /\ getUint32 (buffer w') 4 = Some 1.
Proof.
  cbv zeta.
  assert (H : free (mkBlock 912 100) arena_one_free
              = (Ok tt, snd (free (mkBlock 912 100) arena_one_free)))
    by (vm_compute; reflexivity).
  split; [exact H|].
  destruct (free_leaves_table_separated _ _ _ H) as (fl & Hfl & Ht & Hc & _).
  assert (E : fl = [mkBlock 812 100]) by (vm_compute in Hfl; congruence).
  subst fl. split; [exact Ht | exact Hc].
Defined.

(** ** [allocate] on the decoded table *)

Lemma expandBuffer_unfold (w : World) : expandBuffer w = restoreStructures (grown w).
Proof.
  unfold expandBuffer, bind, gets, modify, grown. do 2 f_equal.
  unfold ArrayBuffer, byteLength.
  replace (Z.to_nat (Z.of_nat (length (buffer w)) * 2))
    with (length (buffer w) + length (buffer w))%nat by lia.
  rewrite repeat_app, drop_app_length'; auto using repeat_length.
Qed.

Lemma read_entries_insert (buf buf' : list byte) (j : Z) (x : MemoryBlockRef) (n : nat) :
  forall i l,
    read_entries buf i n = Some l ->
    i <= j < i + Z.of_nat n ->
    read_entry buf' j = Some x ->
    (forall j', i <= j' < i + Z.of_nat n -> j' <> j -> read_entry buf' j' = read_entry buf j') ->
    read_entries buf' i n = Some (<[Z.to_nat (j - i) := x]> l).
Proof.
  induction n as [|n IH]; intros i l Hl Hj Hx Hf; [lia|].
  simpl in Hl. destruct (read_entry buf i) as [b|] eqn:Eb; [|discriminate].
  destruct (read_entries buf (i + 1) n) as [l'|] eqn:E; [|discriminate].
  injection Hl as <-. simpl.
  destruct (Z.eq_dec j i) as [->|Hne].
  - rewrite Hx. replace (Z.to_nat (i - i)) with O by lia. simpl.
    rewrite (read_entries_ext buf buf' n (i + 1)), E; [reflexivity|].
    intros j' Hj'. apply Hf; lia.
  - rewrite Hf, Eb by lia.
    rewrite (IH (i + 1) l' E) by (try assumption; try lia; intros; apply Hf; lia).
    replace (Z.to_nat (j - i)) with (S (Z.to_nat (j - (i + 1)))) by lia.
    reflexivity.
Qed.

Lemma free_table_last (buf : list byte) (fl : list MemoryBlockRef) :
  free_table buf = Some fl -> fl <> [] ->
  exists lst, last fl = Some lst
              /\ read_entry buf (Z.of_nat (length fl) - 1) = Some lst
              /\ 12 + Z.of_nat (length fl) * 8 <= byteLength buf.
Proof.
  intros Hfl Hne. unfold free_table in Hfl.
  destruct (getUint32 buf 4) as [c|] eqn:Hc; [|discriminate].
  pose proof (read_entries_length _ _ _ _ Hfl) as Hlen.
  assert (length fl <> 0)%nat by (destruct fl; simpl; congruence).
  destruct (read_entries_lookup _ _ _ _ (length fl - 1) Hfl) as [Hk [b Hb]]; [lia|].
  exists b. rewrite last_lookup.
  replace (Init.Nat.pred (length fl)) with (length fl - 1)%nat by lia.
  split; [exact Hb|]. rewrite Hk in Hb.
  replace (0 + Z.of_nat (length fl - 1)) with (Z.of_nat (length fl) - 1) in Hb by lia.
  split; [exact Hb|].
  apply read_entry_Some in Hb as [_ Hs]. apply getUint32_Some in Hs. lia.
Qed.

Lemma removeFreeBlock_Ok (w : World) (fl : list MemoryBlockRef) (k : nat) :
  free_table (buffer w) = Some fl ->
  (k < length fl)%nat ->
  exists buf',
    removeFreeBlock (Z.of_nat k) w = (Ok tt, with_buffer buf' w)
    /\ byteLength buf' = byteLength (buffer w)
    /\ free_table buf' = Some (swap_remove k fl)
    /\ (forall o, o + 4 <= 4 \/ o = 8 \/ 12 + Z.of_nat (length fl) * 8 <= o ->
                  getUint32 buf' o = getUint32 (buffer w) o).
Proof.
  intros Hfl Hk.
  pose proof (free_table_count _ _ Hfl) as Hc.
  pose proof (getUint32_range _ _ _ Hc) as Hcr.
  destruct (free_table_last _ _ Hfl) as (lst & Hlast & Hlst & HL);
    [destruct fl; simpl in *; [lia | congruence]|].
  set (c := Z.of_nat (length fl)) in *.
  destruct (setUint32_is_Some (buffer w) 4 (c - 1)) as [b1 H1]; [lia..|].
  pose proof (setUint32_byteLength _ _ _ _ H1) as L1.
  assert (Hc1 : getUint32 b1 4 = Some (c - 1)).
  { rewrite (getUint32_setUint32_eq _ _ _ _ H1). f_equal.
    apply ToUint32_id. unfold uint32. lia. }
  assert (Hr1 : read_entries b1 0 (length fl) = Some fl).
  { unfold free_table in Hfl. rewrite Hc in Hfl. unfold c in Hfl.
    rewrite Nat2Z.id in Hfl.
    rewrite <- Hfl. apply read_entries_ext. intros j Hj.
    apply (read_entry_set_ne _ _ _ _ j H1). lia. }
  unfold removeFreeBlock. get_step Hc. fold c. set_step H1.
  unfold swap_remove. rewrite Hlast.
  destruct (Z.of_nat k <? c - 1) eqn:E.
  - apply Z.ltb_lt in E.
    assert (Hlst1 : read_entry b1 (c - 1) = Some lst).
    { rewrite (read_entry_set_ne _ _ _ _ (c - 1) H1) by lia. exact Hlst. }
    apply read_entry_Some in Hlst1 as [Hlo Hls].
    replace (12 + (c - 1) * 8) with (12 + (c - 1) * 8) in * by lia.
    destruct (setUint32_is_Some b1 (12 + Z.of_nat k * 8) (offset lst)) as [b2 H2]; [lia..|].
    pose proof (setUint32_byteLength _ _ _ _ H2) as L2.
    destruct (setUint32_is_Some b2 (12 + Z.of_nat k * 8 + 4) (size lst)) as [b3 H3]; [lia..|].
    pose proof (setUint32_byteLength _ _ _ _ H3) as L3.
    get_step Hlo. set_step H2.
    assert (Hls2 : getUint32 b2 (12 + (c - 1) * 8 + 4) = Some (size lst)).
    { rewrite (getUint32_setUint32_ne _ _ _ _ _ H2) by lia. exact Hls. }
    get_step Hls2.
    rewrite (view_setUint32_Ok (with_buffer b2 w) _ _ b3 H3), with_buffer_with_buffer.
    exists b3. split; [reflexivity|]. split; [lia|]. split.
    + unfold free_table.
      rewrite (getUint32_setUint32_ne _ _ _ _ 4 H3) by lia.
      rewrite (getUint32_setUint32_ne _ _ _ _ 4 H2) by lia.
      rewrite Hc1.
      replace (Z.to_nat (c - 1)) with (length fl - 1)%nat by lia.
      apply (read_entries_take _ (length fl)); [|lia].
      replace k with (Z.to_nat (Z.of_nat k - 0)) at 1 by lia.
      apply (read_entries_insert b1); [exact Hr1 | lia | |].
      * pose proof (read_entry_set_entry _ _ _ _ _ _ H2 H3) as Hw.
        rewrite Hw. f_equal. rewrite wrap_id; [now destruct lst | |].
        -- eapply getUint32_range. exact Hlo.
        -- eapply getUint32_range. exact Hls.
      * intros j' Hj' Hne.
        rewrite (read_entry_set_ne _ _ _ _ j' H3) by lia.
        apply (read_entry_set_ne _ _ _ _ j' H2). lia.
    + intros o Ho.
      rewrite (getUint32_setUint32_ne _ _ _ _ o H3) by lia.
      rewrite (getUint32_setUint32_ne _ _ _ _ o H2) by lia.
      apply (getUint32_setUint32_ne _ _ _ _ o H1). lia.
  - apply Z.ltb_ge in E. unfold ret.
    exists b1. split; [reflexivity|]. split; [lia|]. split.
    + unfold free_table. rewrite Hc1.
      replace (Z.to_nat (c - 1)) with (length fl - 1)%nat by lia.
      rewrite list_insert_id.
      * apply (read_entries_take _ (length fl)); [exact Hr1 | lia].
      * rewrite last_lookup in Hlast. rewrite <- Hlast. f_equal. lia.
    + intros o Ho. apply (getUint32_setUint32_ne _ _ _ _ o H1). lia.
Qed.

Lemma loop_returns {A B} (m : M B) (a : A) (rest : M (option A)) (w : World) :
  bind (m ;;; ret (Some a))
       (fun r => match r with Some a' => ret (Some a') | None => rest end) w
  = (m ;;; ret (Some a)) w.
Proof. unfold bind, ret. destruct (m w) as [[u|e] w1]; reflexivity. Qed.

Lemma allocate_scan (sz : Z) (n : nat) :
  forall i w l,
    read_entries (buffer w) i n = Some l ->
    for_loop n i (allocate_loop_body sz) w
    = match first_fit sz l with
      | None => (Ok None, w)
      | Some (k, e) =>
          ((if 0 <? size e - sz
            then view_setUint32 (12 + (i + Z.of_nat k) * 8) (offset e + sz) ;;;
                 view_setUint32 (12 + (i + Z.of_nat k) * 8 + 4) (size e - sz)
            else removeFreeBlock (i + Z.of_nat k)) ;;;
           ret (Some (mkBlock (offset e) sz))) w
      end.
Proof.
  induction n as [|n IH]; intros i w l Hl; simpl in Hl.
  - injection Hl as <-. reflexivity.
  - destruct (read_entry (buffer w) i) as [b|] eqn:Eb; [|discriminate].
    destruct (read_entries (buffer w) (i + 1) n) as [l'|] eqn:E; [|discriminate].
    injection Hl as <-. apply read_entry_Some in Eb as [Ho Hs].
    simpl for_loop. unfold allocate_loop_body at 1. cbv zeta.
    unfold bind at 1. unfold bind at 1. rewrite (view_getUint32_Ok _ _ _ Ho).
    unfold bind at 1. rewrite (view_getUint32_Ok _ _ _ Hs).
    unfold first_fit. simpl list_find.
    destruct (decide (sz <= size b)) as [Hle|Hgt].
    + rewrite (proj2 (Z.leb_le _ _) Hle).
      replace (i + Z.of_nat 0) with i by lia.
      apply loop_returns.
    + rewrite (proj2 (Z.leb_gt _ _)) by lia. unfold ret at 1.
      rewrite (IH _ _ _ E). unfold first_fit.
      destruct (list_find (fun b0 => sz <= size b0) l') as [[k e]|]; simpl; [|reflexivity].
      replace (i + 1 + Z.of_nat k) with (i + Z.of_nat (S k)) by lia. reflexivity.
Qed.

Lemma first_fit_Some (sz : Z) (fl : list MemoryBlockRef) (k : nat) (e : MemoryBlockRef) :
  first_fit sz fl = Some (k, e) ->
  fl !! k = Some e /\ sz <= size e /\ (k < length fl)%nat.
Proof.
  unfold first_fit. intros H. apply list_find_Some in H as (Hk & Hsz & _).
  repeat split; try assumption. eapply lookup_lt_Some. eassumption.
Qed.

Lemma first_fit_None (sz : Z) (fl : list MemoryBlockRef) :
  first_fit sz fl = None <-> Forall (fun b => size b < sz) fl.
Proof.
  unfold first_fit. rewrite list_find_None.
  split; intros H; eapply Forall_impl; try exact H; simpl; intros; lia.
Qed.

Lemma allocate_fit (w : World) (sz : Z) (fl : list MemoryBlockRef)
      (k : nat) (e : MemoryBlockRef) :
  free_table (buffer w) = Some fl ->
  first_fit sz fl = Some (k, e) ->
  exists buf',
    allocate sz w = (Ok (mkBlock (offset e) sz), with_buffer buf' w)
    /\ byteLength buf' = byteLength (buffer w)
    /\ free_table buf' = Some (table_after_fit sz k e fl)
    /\ (forall o, o + 4 <= 4 \/ o = 8 \/ 12 + Z.of_nat (length fl) * 8 <= o ->
                  getUint32 buf' o = getUint32 (buffer w) o).
Proof.
  intros Hfl Hfit.
  pose proof (free_table_count _ _ Hfl) as Hc.
  destruct (first_fit_Some _ _ _ _ Hfit) as (Hk & Hsz & Hlt).
  destruct (free_table_last _ _ Hfl) as (lst & _ & _ & HL);
    [destruct fl; simpl in *; [lia | congruence]|].
  assert (Hr : read_entries (buffer w) 0 (length fl) = Some fl).
  { unfold free_table in Hfl. rewrite Hc, Nat2Z.id in Hfl. exact Hfl. }
  unfold allocate. get_step Hc. rewrite Nat2Z.id.
  unfold bind at 1. rewrite (allocate_scan sz _ 0 w fl Hr), Hfit.
  unfold table_after_fit. replace (0 + Z.of_nat k) with (Z.of_nat k) by lia.
  destruct (0 <? size e - sz) eqn:E.
  - apply Z.ltb_lt in E.
    destruct (setUint32_is_Some (buffer w) (12 + Z.of_nat k * 8) (offset e + sz))
      as [b1 H1]; [lia..|].
    pose proof (setUint32_byteLength _ _ _ _ H1) as L1.
    destruct (setUint32_is_Some b1 (12 + Z.of_nat k * 8 + 4) (size e - sz))
      as [b2 H2]; [lia..|].
    pose proof (setUint32_byteLength _ _ _ _ H2) as L2.
    unfold bind at 1. unfold bind at 1.
    rewrite (view_setUint32_Ok w _ _ b1 H1).
    rewrite (view_setUint32_Ok (with_buffer b1 w) _ _ b2 H2), with_buffer_with_buffer.
    unfold ret.
    exists b2. split; [reflexivity|]. split; [lia|]. split.
    + unfold free_table.
      rewrite (getUint32_setUint32_ne _ _ _ _ 4 H2) by lia.
      rewrite (getUint32_setUint32_ne _ _ _ _ 4 H1) by lia.
      rewrite Hc, Nat2Z.id.
      replace k with (Z.to_nat (Z.of_nat k - 0)) at 1 by lia.
      apply (read_entries_insert (buffer w)); [exact Hr | lia | |].
      * apply (read_entry_set_entry _ _ _ _ _ _ H1 H2).
      * intros j' Hj' Hne.
        rewrite (read_entry_set_ne _ _ _ _ j' H2) by lia.
        apply (read_entry_set_ne _ _ _ _ j' H1). lia.
    + intros o Ho.
      rewrite (getUint32_setUint32_ne _ _ _ _ o H2) by lia.
      apply (getUint32_setUint32_ne _ _ _ _ o H1). lia.
  - destruct (removeFreeBlock_Ok w fl k Hfl Hlt) as (buf' & Hrm & L' & Ht & Hf).
    rewrite (bind_Ok _ _ _ _ _ Hrm). unfold ret.
    exists buf'. repeat split; assumption.
Qed.

Lemma buffer_restoreStructures (w : World) :
  buffer (snd (restoreStructures w)) = buffer w.
Proof. unfold buffer. now rewrite restoreStructures_same_allocator. Qed.

Lemma allocate_no_fit (w : World) (sz : Z) (fl : list MemoryBlockRef) (bump : Z) :
  free_table (buffer w) = Some fl ->
  first_fit sz fl = None ->
  getUint32 (buffer w) 0 = Some bump ->
  allocate sz w
  = if byteLength (buffer w) <? bump + sz then
      match restoreStructures (grown w) with
      | (Ok _, w1) => (view_setUint32 0 (bump + sz) ;;; ret (mkBlock bump sz)) w1
      | (Throw e, w1) => (Throw e, w1)
      end
    else (view_setUint32 0 (bump + sz) ;;; ret (mkBlock bump sz)) w.
Proof.
  intros Hfl Hfit Hb.
  pose proof (free_table_count _ _ Hfl) as Hc.
  assert (Hr : read_entries (buffer w) 0 (length fl) = Some fl).
  { unfold free_table in Hfl. rewrite Hc, Nat2Z.id in Hfl. exact Hfl. }
  unfold allocate. get_step Hc. rewrite Nat2Z.id.
  unfold bind at 1. rewrite (allocate_scan sz _ 0 w fl Hr), Hfit.
  get_step Hb. unfold gets at 1. unfold bind at 1.
  destruct (byteLength (buffer w) <? bump + sz); [|reflexivity].
  pose proof (buffer_restoreStructures (grown w)) as Hbuf.
  unfold bind at 1. unfold bind at 1. rewrite expandBuffer_unfold.
  destruct (restoreStructures (grown w)) as [[u|e] w1]; [|reflexivity].
  simpl in Hbuf.
  assert (Hb1 : getUint32 (buffer w1) 0 = Some bump).
  { rewrite Hbuf. unfold grown. rewrite buffer_with_buffer. now apply getUint32_app. }
  rewrite (view_getUint32_Ok _ _ _ Hb1). reflexivity.
Qed.

Lemma restoreStructures_grown_none (w : World) :
  getUint32 (buffer w) 8 = Some 0 -> restoreStructures (grown w) = (Ok tt, grown w).
Proof.
  intros H. apply restoreStructures_none. unfold grown.
  rewrite buffer_with_buffer. now apply getUint32_app.
Qed.

Lemma byteLength_grown (w : World) :
  byteLength (buffer (grown w)) = 2 * byteLength (buffer w).
Proof.
  unfold grown. rewrite buffer_with_buffer. unfold byteLength.
  rewrite length_app, repeat_length. lia.
Qed.

(** C6, as the code has it: when no entry of the free table can hold
    [sz] bytes and the bump offset plus [sz] exceeds the byte length of
    the arena (the sum being below 2^53, so that the code computes it
    exactly), [allocate(sz)] leaves an arena of exactly twice the byte
    length, whose words from byte 4 on are as before, whether the
    registry walk that ends the growth returns or throws.  If the walk
    returns, [allocate] returns the block that starts at the bump offset
    found before the growth, whether or not the block fits in the
    doubled arena, and the bump offset has advanced by [sz] (modulo
    2^32); if the walk throws, [allocate] throws the same exception and
    the bump offset is as before. *)
Theorem allocate_grows_once (w : World) (sz : Z) (fl : list MemoryBlockRef)
        (bump : Z) :
  free_table (buffer w) = Some fl ->
  Forall (fun b => size b < sz) fl ->
  getUint32 (buffer w) 0 = Some bump ->
  byteLength (buffer w) < bump + sz ->
  bump + sz < 2 ^ 53 ->
  byteLength (buffer (snd (allocate sz w))) = 2 * byteLength (buffer w)
  /\ (forall o v, 4 <= o -> getUint32 (buffer w) o = Some v ->
                  getUint32 (buffer (snd (allocate sz w))) o = Some v)
  /\ (forall w1, restoreStructures (grown w) = (Ok tt, w1) ->
        exists w',
          allocate sz w = (Ok (mkBlock bump sz), w')
          /\ getUint32 (buffer w') 0 = Some (ToUint32 (bump + sz)))
  /\ (forall e w1, restoreStructures (grown w) = (Throw e, w1) ->
        allocate sz w = (Throw e, w1)
        /\ getUint32 (buffer w1) 0 = Some bump).
Proof.
  intros Hfl Hno Hb Hlen Hexact.
  pose proof (allocate_no_fit w sz fl bump Hfl (proj2 (first_fit_None _ _) Hno) Hb) as Ha.
  rewrite (proj2 (Z.ltb_lt _ _) Hlen) in Ha.
  pose proof (buffer_restoreStructures (grown w)) as Hbuf.
  pose proof (byteLength_grown w) as HL.
  pose proof (getUint32_Some _ _ _ Hb) as [_ H4].
  assert (Hg : forall o v, getUint32 (buffer w) o = Some v ->
                           getUint32 (buffer (grown w)) o = Some v).
  { intros o v Hv. unfold grown. rewrite buffer_with_buffer. now apply getUint32_app. }
  destruct (restoreStructures (grown w)) as [[[]|e] w1] eqn:Hwalk;
    simpl in Hbuf; rewrite <- Hbuf in HL, Hg.
  - destruct (setUint32_is_Some (buffer w1) 0 (bump + sz)) as [b' H']; [lia..|].
    assert (Hrun : allocate sz w = (Ok (mkBlock bump sz), with_buffer b' w1)).
    { rewrite Ha. set_step H'. reflexivity. }
    rewrite Hrun. simpl snd. rewrite buffer_with_buffer.
    split; [rewrite (setUint32_byteLength _ _ _ _ H'); exact HL|].
    split.
    { intros o v Ho Hv. rewrite (getUint32_setUint32_ne _ _ _ _ o H') by lia.
      now apply Hg. }
    split.
    { intros w2 E. injection E as <-. exists (with_buffer b' w1).
      split; [reflexivity|]. apply (getUint32_setUint32_eq _ _ _ _ H'). }
    intros e w2 E. discriminate E.
  - rewrite Ha. simpl snd.
    split; [exact HL|].
    split; [intros o v _ Hv; now apply Hg|].
    split; [intros w2 E; discriminate E|].
    intros e' w2 E. injection E as <- <-. split; [reflexivity | now apply Hg].
Qed.

Lemma allocate_grows_once_witness :
  free_table (buffer arena1024) = Some []
  /\ getUint32 (buffer arena1024) 0 = Some 812
  /\ (exists w', allocate 5000 arena1024 = (Ok (mkBlock 812 5000), w')
                 /\ getUint32 (buffer w') 0 = Some (ToUint32 (812 + 5000)))
  /\ byteLength (buffer (snd (allocate 5000 arena1024)))
     = 2 * byteLength (buffer arena1024)
  /\ free_table (buffer arena_with_array) = Some []
  /\ getUint32 (buffer arena_with_array) 0 = Some 828
  /\ fst (allocate 5000 arena_with_array) = Throw TypeError
  /\ byteLength (buffer (snd (allocate 5000 arena_with_array)))
     = 2 * byteLength (buffer arena_with_array).
Proof.
  assert (Ht : free_table (buffer arena1024) = Some []) by (vm_compute; reflexivity).
  assert (Hb : getUint32 (buffer arena1024) 0 = Some 812) by (vm_compute; reflexivity).
  assert (Ht' : free_table (buffer arena_with_array) = Some [])
    by (vm_compute; reflexivity).
  assert (Hb' : getUint32 (buffer arena_with_array) 0 = Some 828)
    by (vm_compute; reflexivity).
  assert (Hwalk : restoreStructures (grown arena_with_array)
                  = (Throw TypeError, snd (restoreStructures (grown arena_with_array))))
    by (vm_compute; reflexivity).
  destruct (allocate_grows_once arena1024 5000 [] 812 Ht) as (HL & _ & Hok & _).
  { constructor. } { exact Hb. } { vm_compute. reflexivity. } { lia. }
  destruct (allocate_grows_once arena_with_array 5000 [] 828 Ht') as (HL' & _ & _ & Hthrow).
  { constructor. } { exact Hb'. } { vm_compute. reflexivity. } { lia. }
  split; [exact Ht|]. split; [exact Hb|].
  split; [apply (Hok (grown arena1024)), restoreStructures_grown_none;
          vm_compute; reflexivity|].
  split; [exact HL|]. split; [exact Ht'|]. split; [exact Hb'|].
  split; [|exact HL'].
  now rewrite (proj1 (Hthrow _ _ Hwalk)).
Defined.

(** C6, as the claim has it, fails once a structure is registered: the
    first registry entry lies in the block of the array, whose metadata
    have overwritten it, so that the walk looks up the id 1, which no
    structure has, and [allocate] throws after having doubled the
    arena. *)
Lemma allocate_growth_can_throw :
  free_table (buffer arena_with_array) = Some []
  /\ getUint32 (buffer arena_with_array) 0 = Some 828
  /\ byteLength (buffer arena_with_array) < 828 + 5000
  /\ fst (allocate 5000 arena_with_array) = Throw TypeError
  /\ byteLength (buffer (snd (allocate 5000 arena_with_array)))
     = 2 * byteLength (buffer arena_with_array)
  /\ ~ exists b w', allocate 5000 arena_with_array = (Ok b, w').
Proof.
  assert (H : fst (allocate 5000 arena_with_array) = Throw TypeError)
    by (vm_compute; reflexivity).
  split; [vm_compute; reflexivity|].
  split; [vm_compute; reflexivity|].
  split; [vm_compute; reflexivity|].
  split; [exact H|].
  split; [vm_compute; reflexivity|].
  intros (b & w' & E). rewrite E in H. cbn [fst] in H. discriminate H.
Qed.

(** ** The structure registry *)

Lemma registerStructure_inv (w : World) (s : Struct) (id : Z) (w' : World) (i : Z) :
  registerStructure s w = (Ok id, w') ->
  getUint32 (buffer w) 8 = Some i ->
  let addr := 12 + maxFreeBlocks (allocator w) * 8 + i * 8 in
  id = _nextId (allocator w)
  /\ exists bump b1 b2,
       getUint32 (buffer w) 0 = Some bump
       /\ setUint32 (buffer w) addr id = Some b1
       /\ setUint32 b1 (addr + 4) bump = Some b2
       /\ setUint32 b2 8 (i + 1) = Some (buffer w')
       /\ _structures (allocator w') !! id = Some (mkEntry bump s).
Proof.
  unfold registerStructure. intros H Hi. cbv zeta.
  apply bind_inv_Ok in H as (id0 & w1 & Hg & H).
  apply gets_inv in Hg as [-> ->].
  apply bind_inv_Ok in H as (u & w1 & Hm & H).
  apply modify_inv in Hm as ->.
  apply bind_inv_Ok in H as (bump & w1 & Hg & H).
  apply view_getUint32_inv in Hg as [Hb ->].
  apply bind_inv_Ok in H as (u1 & w1 & Hm & H).
  apply modify_inv in Hm as ->.
  apply bind_inv_Ok in H as (i' & w1 & Hg & H).
  apply view_getUint32_inv in Hg as [Hi' ->].
  change (getUint32 (buffer w) 8 = Some i') in Hi'.
  assert (i' = i) by congruence. subst i'.
  apply bind_inv_Ok in H as (M0 & w1 & Hg & H).
  apply gets_inv in Hg as [-> ->].
  apply bind_inv_Ok in H as (u2 & w1 & Hs1 & H).
  apply view_setUint32_inv in Hs1 as (b1 & H1 & ->).
  apply bind_inv_Ok in H as (u3 & w1 & Hs2 & H).
  apply view_setUint32_inv in Hs2 as (b2 & H2 & ->).
  apply bind_inv_Ok in H as (u4 & w1 & Hs3 & H).
  apply view_setUint32_inv in Hs3 as (b3 & H3 & ->).
  apply ret_inv in H as [-> ->].
  split; [reflexivity|].
  exists bump, b1, b2.
  split; [exact Hb|]. split; [exact H1|]. split; [exact H2|].
  split; [exact H3|]. apply lookup_insert_eq.
Qed.


Lemma registerStructure_start (s : Struct) (w : World) (bump : Z) :
  getUint32 (buffer w) 0 = Some bump ->
  registerStructure s w
  = (let* structuresCount := view_getUint32 8 in
     let* maxFree := gets (fun w => maxFreeBlocks (allocator w)) in
     let structOffset := 12 + maxFree * 8 + structuresCount * 8 in
     view_setUint32 structOffset (_nextId (allocator w)) ;;;
     view_setUint32 (structOffset + 4) bump ;;;
     view_setUint32 8 (structuresCount + 1) ;;;
     ret (_nextId (allocator w))) (registered s bump w).
Proof.
  intros Hb. unfold registerStructure.
  unfold gets at 1. unfold bind at 1.
  unfold modify at 1. unfold bind at 1.
  unfold bind at 1. unfold view_getUint32 at 1.
  change (buffer {| allocator := set_nextId (_nextId (allocator w) + 1) (allocator w);
                    heap := heap w |}) with (buffer w).
  rewrite Hb. unfold modify at 1. unfold bind at 1. reflexivity.
Qed.




(** ** Restoring an array from its recorded offset *)

(** C1 does not hold of the code.  [registerStructure] records the bump
    offset at the time of the call, which the constructor of the array
    makes after [allocate]: the recorded offset is the end of the
    array's block, not its start.  On [new Allocator(1024)], an array of
    capacity 2 with 42 and 84 pushed has length 2 and capacity 2 in the
    block at 812; [getStructureOffset] returns 828, and after
    [restore(828)] the array has length 0 and capacity 0, and both
    elements are out of bounds. *)
Theorem restore_at_recorded_offset_loses_array :
  fst (round_trip 2 [42; 84] arena1024)
  = Ok ((2, 2, [Ok 42; Ok 84]),
        828,
        (0, 0, [Throw (Error "Index out of bounds");
                Throw (Error "Index out of bounds")])).
Proof. vm_compute. reflexivity. Qed.

(** The same with no element pushed: only the capacity is lost. *)
Example restore_of_empty_array_loses_capacity :
  fst (round_trip 10 [] arena1024) = Ok ((0, 10, []), 860, (0, 0, [])).
Proof. vm_compute. reflexivity. Qed.

(** ** Releasing blocks *)

Lemma coalesced_singleton (b : MemoryBlockRef) : coalesced [b] = [wrap b].
Proof. reflexivity. Qed.

Lemma table_after_free_nil (block : MemoryBlockRef) :
  table_after_free [] block = [wrap block].
Proof.
  rewrite table_after_free_small by (simpl; lia). simpl.
  rewrite coalesced_singleton. unfold wrap. simpl.
  now rewrite (ToUint32_id (ToUint32 (offset block))),
    (ToUint32_id (ToUint32 (size block))) by apply ToUint32_range.
Qed.




(** C10, as the code has it: [free] looks at nothing but the count.
    Whenever the free-block count is below the configured maximum and
    the arena is long enough to hold one more entry of the free table,
    [free] returns, whatever the offset and size it receives, and the
    table it leaves is the coalesced table of the former entries and the
    new one (its two fields taken modulo 2^32); the bump offset, the
    structure count and the objects are unchanged.  An entry that starts
    at or before the end of the merged entry that precedes it is merged
    into it by adding its size, be it adjacent, overlapping or the same
    range again. *)
Theorem free_accepts_any_block (w : World) (block : MemoryBlockRef) (c : Z) :
  getUint32 (buffer w) 4 = Some c ->
  c < maxFreeBlocks (allocator w) ->
  12 + (c + 1) * 8 <= byteLength (buffer w) ->
  (exists fl w',
      free_table (buffer w) = Some fl
      /\ free block w = (Ok tt, w')
      /\ free_table (buffer w') = Some (table_after_free fl block)
      /\ getUint32 (buffer w') 0 = getUint32 (buffer w) 0
      /\ getUint32 (buffer w') 8 = getUint32 (buffer w) 8
      /\ heap w' = heap w)
  /\ (forall a b rest,
         offset b <= offset a + size a ->
         merge_from a (b :: rest)
         = merge_from (mkBlock (offset a) (size a + size b)) rest).
Proof.
  intros Hc HM HL. split.
  - destruct (free_Ok w block c Hc HM HL) as (fl & buf' & Hfl & Hfree & _ & Ht & Hf).
    exists fl, (with_buffer buf' w). rewrite buffer_with_buffer.
    repeat split; try assumption; apply Hf; lia.
  - intros a b rest Hle. simpl.
    now rewrite (proj2 (Z.ltb_ge (offset a + size a) (offset b))) by lia.
Qed.

Lemma free_accepts_any_block_witness :
  getUint32 (buffer arena_one_free) 4 = Some 1
  /\ exists fl w',
       free_table (buffer arena_one_free) = Some fl
       /\ free (mkBlock 812 100) arena_one_free = (Ok tt, w')
       /\ free_table (buffer w') = Some (table_after_free fl (mkBlock 812 100)).
Proof.
  assert (Hc : getUint32 (buffer arena_one_free) 4 = Some 1)
    by (vm_compute; reflexivity).
  split; [exact Hc|].
  destruct (free_accepts_any_block arena_one_free (mkBlock 812 100) 1 Hc)
    as [(fl & w' & Hfl & Hfree & Ht & _) _].
  - vm_compute. reflexivity.
  - vm_compute. discriminate.
  - exists fl, w'. repeat split; assumption.
Defined.

(** A block that is released twice is accepted twice: the table then
    holds one entry of twice its size. *)
Example double_free_accepted :
  free_table (buffer arena_one_free) = Some [mkBlock 812 100]
  /\ fst (free (mkBlock 812 100) arena_one_free) = Ok tt
  /\ free_table (buffer (snd (free (mkBlock 812 100) arena_one_free)))
     = Some [mkBlock 812 200].
Proof. repeat split; vm_compute; reflexivity. Qed.

(** C10, as the claim has it, fails on an arena that is shorter than its
    free table: on [new Allocator(16)] the count 0 is below the maximum
    100, and [free] throws a [RangeError] when it writes the size of
    entry 0 at byte 16. *)
Lemma free_on_short_arena_throws :
  getUint32 (buffer arena16) 4 = Some 0
  /\ 0 < maxFreeBlocks (allocator arena16)
  /\ fst (free (mkBlock 5 7) arena16) = Throw RangeError
  /\ ~ exists w', free (mkBlock 5 7) arena16 = (Ok tt, w').
Proof.
  assert (H : fst (free (mkBlock 5 7) arena16) = Throw RangeError)
    by (vm_compute; reflexivity).
  split; [vm_compute; reflexivity|].
  split; [vm_compute; reflexivity|].
  split; [exact H|].
  intros (w' & E). rewrite E in H. cbn [fst] in H. discriminate H.
Qed.

(** ** Bytes and the blocks that contain them *)












Lemma disjoint_sym (a b : MemoryBlockRef) : disjoint a b -> disjoint b a.
Proof. unfold disjoint. tauto. Qed.


(** *** Sorting by offset, and merging blocks that are disjoint *)








(** ** The invariant of the arena *)

Lemma read_entry_app (buf ext : list byte) (i : Z) (b : MemoryBlockRef) :
  read_entry buf i = Some b -> read_entry (buf ++ ext) i = Some b.
Proof.
  intros H. apply read_entry_Some in H as [Ho Hs].
  unfold read_entry.
  rewrite (getUint32_app _ ext _ _ Ho), (getUint32_app _ ext _ _ Hs).
  now destruct b.
Qed.

Lemma read_entries_app (buf ext : list byte) (n : nat) :
  forall i l, read_entries buf i n = Some l -> read_entries (buf ++ ext) i n = Some l.
Proof.
  induction n as [|n IH]; intros i l; simpl; [trivial|].
  destruct (read_entry buf i) as [b|] eqn:Eb; [|discriminate].
  destruct (read_entries buf (i + 1) n) as [l'|] eqn:E; [|discriminate].
  intros [= <-]. now rewrite (read_entry_app _ _ _ _ Eb), (IH _ _ E).
Qed.

Lemma free_table_app (buf ext : list byte) (fl : list MemoryBlockRef) :
  free_table buf = Some fl -> free_table (buf ++ ext) = Some fl.
Proof.
  unfold free_table. destruct (getUint32 buf 4) as [c|] eqn:Hc; [|discriminate].
  rewrite (getUint32_app _ ext _ _ Hc). apply read_entries_app.
Qed.

Lemma free_table_set_outside (buf : list byte) (o v : Z) (buf' : list byte)
      (fl : list MemoryBlockRef) :
  setUint32 buf o v = Some buf' ->
  o + 4 <= 4 \/ o = 8 \/ 12 + Z.of_nat (length fl) * 8 <= o ->
  free_table buf = Some fl ->
  free_table buf' = Some fl.
Proof.
  intros Hs Ho Hfl. pose proof (free_table_count _ _ Hfl) as Hc.
  unfold free_table in *.
  rewrite (getUint32_setUint32_ne _ _ _ _ 4 Hs) by lia.
  rewrite Hc in *. rewrite Nat2Z.id in *. rewrite <- Hfl.
  apply read_entries_ext. intros j Hj.
  apply (read_entry_set_ne _ _ _ _ j Hs). lia.
Qed.

Lemma free_Throw_keeps (w : World) (block : MemoryBlockRef) (e : Exn) (w' : World)
      (fl : list MemoryBlockRef) :
  free block w = (Throw e, w') ->
  free_table (buffer w) = Some fl ->
  free_table (buffer w') = Some fl
  /\ getUint32 (buffer w') 0 = getUint32 (buffer w) 0
  /\ byteLength (buffer w') = byteLength (buffer w)
  /\ maxFreeBlocks (allocator w') = maxFreeBlocks (allocator w).
Proof.
  intros H Hfl. pose proof (free_table_count _ _ Hfl) as Hc.
  set (c := Z.of_nat (length fl)) in *.
  destruct (Z_lt_le_dec c (maxFreeBlocks (allocator w))) as [HM|HM].
  - destruct (Z_le_gt_dec (12 + (c + 1) * 8) (byteLength (buffer w))) as [HL|HL].
    + destruct (free_Ok w block c Hc HM HL) as (? & ? & _ & Hok & _).
      rewrite Hok in H. discriminate.
    + unfold free in H. revert H. get_step Hc. unfold gets at 1. unfold bind at 1.
      rewrite (proj2 (Z.leb_gt _ _) HM).
      destruct (setUint32 (buffer w) (12 + c * 8) (offset block)) as [b1|] eqn:H1.
      * set_step H1.
        destruct (setUint32 b1 (12 + c * 8 + 4) (size block)) as [b2|] eqn:H2.
        -- pose proof (setUint32_byteLength _ _ _ _ H1).
           apply setUint32_Some in H2. lia.
        -- rewrite (bind_Throw _ _ _ _ _ (view_setUint32_None (with_buffer b1 w) _ _ H2)).
           intros [= <- <-]. rewrite buffer_with_buffer.
           split; [apply (free_table_set_outside _ _ _ _ _ H1); [unfold c; lia | exact Hfl]|].
           split; [apply (getUint32_setUint32_ne _ _ _ _ 0 H1); lia|].
           split; [apply (setUint32_byteLength _ _ _ _ H1) | reflexivity].
      * rewrite (bind_Throw _ _ _ _ _ (view_setUint32_None w _ _ H1)).
        intros [= <- <-]. repeat split; assumption.
  - unfold free in H. revert H. get_step Hc. unfold bind, gets, throw.
    rewrite (proj2 (Z.leb_le _ _) HM).
    intros [= <- <-]. repeat split; assumption.
Qed.



















(** * Further properties of the allocator *)

(** X1: [allocate] is first fit.  When entry [k] of the free table is
    the first one of at least [sz] bytes, [allocate(sz)] returns the
    lower [sz] bytes of that entry; a larger entry stays at rank [k]
    with its offset advanced by [sz] and its size reduced by [sz], an
    entry of exactly [sz] bytes is removed by moving the last entry of
    the table into its place.  The bump offset, the structure count, the
    byte length of the arena and the objects are unchanged. *)
Theorem allocate_takes_first_fit (w : World) (sz : Z) (fl : list MemoryBlockRef)
        (k : nat) (e : MemoryBlockRef) :
  free_table (buffer w) = Some fl ->
  fl !! k = Some e ->
  sz <= size e ->
  (forall j e', (j < k)%nat -> fl !! j = Some e' -> size e' < sz) ->
  exists w',
    allocate sz w = (Ok (mkBlock (offset e) sz), w')
    /\ free_table (buffer w')
       = Some (if 0 <? size e - sz
               then <[k := wrap (mkBlock (offset e + sz) (size e - sz))]> fl
               else swap_remove k fl)
    /\ getUint32 (buffer w') 0 = getUint32 (buffer w) 0
    /\ getUint32 (buffer w') 8 = getUint32 (buffer w) 8
    /\ byteLength (buffer w') = byteLength (buffer w)
    /\ heap w' = heap w.
Proof.
  intros Hfl Hk Hsz Hfirst.
  assert (Hfit : first_fit sz fl = Some (k, e)).
  { unfold first_fit. apply list_find_Some. split; [exact Hk|]. split; [exact Hsz|].
    intros j e' Hj Hlt Hle. specialize (Hfirst j e' Hlt Hj). lia. }
  destruct (allocate_fit w sz fl k e Hfl Hfit) as (buf' & Ha & HL & Ht & Hf).
  exists (with_buffer buf' w). rewrite buffer_with_buffer.
  split; [exact Ha|]. split; [exact Ht|].
  split; [apply Hf; lia|]. split; [apply Hf; lia|]. split; [exact HL | reflexivity].
Qed.

Lemma allocate_takes_first_fit_witness :
  free_table (buffer arena_one_free) = Some [mkBlock 812 100]
  /\ exists w',
       allocate 50 arena_one_free = (Ok (mkBlock 812 50), w')
       /\ free_table (buffer w') = Some [mkBlock 862 50].
Proof.
  assert (Hfl : free_table (buffer arena_one_free) = Some [mkBlock 812 100])
    by (vm_compute; reflexivity).
  split; [exact Hfl|].
  destruct (allocate_takes_first_fit arena_one_free 50 [mkBlock 812 100] 0
              (mkBlock 812 100) Hfl eq_refl)
    as (w' & Ha & Ht & _).
  - simpl. lia.
  - intros j e' Hj. lia.
  - exists w'. split; [exact Ha | exact Ht].
Defined.

(** X2: when no entry of the free table can hold [sz] bytes and the
    bump offset plus [sz] does not exceed the byte length of the arena,
    [allocate(sz)] returns the block at the bump offset and its only
    effect is to store the bump offset plus [sz] (modulo 2^32) in the
    first word of the arena. *)
Theorem allocate_bumps_in_place (w : World) (sz : Z) (fl : list MemoryBlockRef)
        (bump : Z) :
  free_table (buffer w) = Some fl ->
  Forall (fun b => size b < sz) fl ->
  getUint32 (buffer w) 0 = Some bump ->
  bump + sz <= byteLength (buffer w) ->
  exists buf',
    allocate sz w = (Ok (mkBlock bump sz), with_buffer buf' w)
    /\ setUint32 (buffer w) 0 (bump + sz) = Some buf'
    /\ getUint32 buf' 0 = Some (ToUint32 (bump + sz))
    /\ (forall o, 4 <= o -> getUint32 buf' o = getUint32 (buffer w) o).
Proof.
  intros Hfl Hno Hb Hlen.
  rewrite (allocate_no_fit w sz fl bump Hfl (proj2 (first_fit_None _ _) Hno) Hb).
  rewrite (proj2 (Z.ltb_ge _ _) Hlen).
  pose proof (getUint32_Some _ _ _ Hb) as [_ H4].
  destruct (setUint32_is_Some (buffer w) 0 (bump + sz)) as [b' H']; [lia..|].
  set_step H'. unfold ret. exists b'.
  split; [reflexivity|]. split; [exact H'|].
  split; [apply (getUint32_setUint32_eq _ _ _ _ H')|].
  intros o Ho. apply (getUint32_setUint32_ne _ _ _ _ o H'). lia.
Qed.

Lemma allocate_bumps_in_place_witness :
  free_table (buffer arena1024) = Some []
  /\ getUint32 (buffer arena1024) 0 = Some 812
  /\ exists buf',
       allocate 100 arena1024 = (Ok (mkBlock 812 100), with_buffer buf' arena1024)
       /\ getUint32 buf' 0 = Some (ToUint32 (812 + 100)).
Proof.
  assert (Hfl : free_table (buffer arena1024) = Some []) by (vm_compute; reflexivity).
  assert (Hb : getUint32 (buffer arena1024) 0 = Some 812) by (vm_compute; reflexivity).
  split; [exact Hfl|]. split; [exact Hb|].
  destruct (allocate_bumps_in_place arena1024 100 [] 812 Hfl) as (buf' & Ha & _ & H0 & _).
  - constructor.
  - exact Hb.
  - vm_compute. discriminate.
  - exists buf'. split; [exact Ha | exact H0].
Defined.

(** X3: [removeFreeBlock(k)], for an index [k] inside the table, always
    returns: it decrements the free-block count and, unless [k] is the
    last index, copies the last entry over entry [k]; so the table keeps
    its other entries, in the order they had but for the last one.  The
    bump offset and the structure count are unchanged. *)
Theorem removeFreeBlock_moves_last_entry (w : World) (fl : list MemoryBlockRef) (k : nat) :
  free_table (buffer w) = Some fl ->
  (k < length fl)%nat ->
  exists w',
    removeFreeBlock (Z.of_nat k) w = (Ok tt, w')
    /\ free_table (buffer w') = Some (swap_remove k fl)
    /\ length (swap_remove k fl) = (length fl - 1)%nat
    /\ (forall j, (j < length fl - 1)%nat -> j <> k -> swap_remove k fl !! j = fl !! j)
    /\ ((k < length fl - 1)%nat -> swap_remove k fl !! k = last fl)
    /\ getUint32 (buffer w') 0 = getUint32 (buffer w) 0
    /\ getUint32 (buffer w') 8 = getUint32 (buffer w) 8.
Proof.
  intros Hfl Hk.
  destruct (removeFreeBlock_Ok w fl k Hfl Hk) as (buf' & Hrm & _ & Ht & Hf).
  exists (with_buffer buf' w). rewrite buffer_with_buffer.
  split; [exact Hrm|]. split; [exact Ht|].
  assert (Hlast : exists lst, last fl = Some lst).
  { rewrite last_lookup. apply lookup_lt_is_Some. lia. }
  destruct Hlast as [lst Hlast]. unfold swap_remove. rewrite Hlast.
  split; [rewrite length_take, length_insert; lia|].
  split; [intros j Hj Hne; rewrite lookup_take_lt by lia;
          now rewrite list_lookup_insert_ne by lia|].
  split; [intros Hlt; rewrite lookup_take_lt by lia;
          now rewrite list_lookup_insert_eq by lia|].
  split; apply Hf; lia.
Qed.

Lemma removeFreeBlock_moves_last_entry_witness :
  free_table (buffer arena_three_free)
  = Some [mkBlock 812 10; mkBlock 832 10; mkBlock 852 10]
  /\ exists w',
       removeFreeBlock 0 arena_three_free = (Ok tt, w')
       /\ free_table (buffer w') = Some [mkBlock 852 10; mkBlock 832 10]
       /\ swap_remove 0 [mkBlock 812 10; mkBlock 832 10; mkBlock 852 10] !! 0%nat
          = last [mkBlock 812 10; mkBlock 832 10; mkBlock 852 10].
Proof.
  assert (Hfl : free_table (buffer arena_three_free)
                = Some [mkBlock 812 10; mkBlock 832 10; mkBlock 852 10])
    by (vm_compute; reflexivity).
  split; [exact Hfl|].
  destruct (removeFreeBlock_moves_last_entry arena_three_free _ 0 Hfl)
    as (w' & Hrm & Ht & _ & _ & Hmoved & _).
  - simpl. lia.
  - exists w'. split; [exact Hrm|]. split; [exact Ht|].
    apply Hmoved. simpl. lia.
Defined.

(** ** Construction *)

Lemma lookup_repeat_default (k i : nat) : default x00 (repeat x00 k !! i) = x00.
Proof.
  revert i. induction k as [|k IH]; intros i; simpl; [reflexivity|].
  destruct i as [|i]; simpl; [reflexivity | apply IH].
Qed.

Lemma getUint32_ArrayBuffer (n o : Z) :
  0 <= o -> o + 4 <= n -> getUint32 (ArrayBuffer n) o = Some 0.
Proof.
  intros H0 H4. unfold getUint32.
  rewrite (proj2 (in_view_true _ _))
    by (rewrite ArrayBuffer_byteLength by lia; lia).
  unfold byteAt, ArrayBuffer. now rewrite !lookup_repeat_default.
Qed.

(** X4: for a byte length [n] below 2^31 and a capacity [maxFree]
    whose table end [12 + maxFree * 8] is a safe integer, [new
    Allocator(n, maxFree)] throws a [RangeError] when [n] is below the
    12 bytes of the header; otherwise it returns an allocator over [n]
    bytes whose header holds the bump offset [12 + maxFree * 8] (modulo
    2^32) and the two counts 0, whose other words are 0, with no
    structure registered and 0 as next id.  It never checks that the
    arena is long enough for its free table. *)
Theorem Allocator_new_header (n maxFree : Z) :
  - 2 ^ 53 < n < 2 ^ 31 ->
  - 2 ^ 53 < 12 + maxFree * 8 < 2 ^ 53 ->
  (n < 12 /\ Allocator_new n maxFree = Throw RangeError)
  \/ (12 <= n
      /\ exists buf,
           Allocator_new n maxFree = Ok (mkAllocator buf ∅ 0 n maxFree)
           /\ byteLength buf = n
           /\ getUint32 buf 0 = Some (ToUint32 (12 + maxFree * 8))
           /\ getUint32 buf 4 = Some 0
           /\ getUint32 buf 8 = Some 0
           /\ (forall o, 12 <= o -> o + 4 <= n -> getUint32 buf o = Some 0)).
Proof.
  intros _ _.
  destruct (Z_lt_le_dec n 12) as [Hlt|Hge].
  - left. split; [exact Hlt|].
    destruct (Allocator_new n maxFree) as [a|e] eqn:E.
    + apply Allocator_new_inv in E. lia.
    + unfold Allocator_new in E.
      destruct (n <? 0); [congruence|].
      match type of E with
      | match ?run with _ => _ end = _ => destruct run as [[u|e'] w] eqn:Er
      end; [discriminate|].
      injection E as <-.
      unfold bind, view_setUint32 in Er.
      repeat match type of Er with
             | context [match setUint32 ?b ?o ?v with _ => _ end] =>
                 destruct (setUint32 b o v)
             end; congruence.
  - right. split; [exact Hge|].
    unfold Allocator_new.
    destruct (n <? 0) eqn:E0; [apply Z.ltb_lt in E0; lia|].
    pose proof (ArrayBuffer_byteLength n ltac:(lia)) as HL.
    set (a := mkAllocator (ArrayBuffer n) ∅ 0 n maxFree).
    destruct (setUint32_is_Some (ArrayBuffer n) 0 (12 + maxFree * 8)) as [b1 H1]; [lia..|].
    pose proof (setUint32_byteLength _ _ _ _ H1) as L1.
    destruct (setUint32_is_Some b1 4 0) as [b2 H2]; [lia..|].
    pose proof (setUint32_byteLength _ _ _ _ H2) as L2.
    destruct (setUint32_is_Some b2 8 0) as [b3 H3]; [lia..|].
    pose proof (setUint32_byteLength _ _ _ _ H3) as L3.
    exists b3. set_step H1. set_step H2.
    rewrite (view_setUint32_Ok (with_buffer b2 (mkWorld a [])) 8 0 b3 H3).
    split; [reflexivity|]. split; [lia|].
    split.
    { rewrite (getUint32_setUint32_ne _ _ _ _ 0 H3) by lia.
      rewrite (getUint32_setUint32_ne _ _ _ _ 0 H2) by lia.
      apply (getUint32_setUint32_eq _ _ _ _ H1). }
    split.
    { rewrite (getUint32_setUint32_ne _ _ _ _ 4 H3) by lia.
      apply (getUint32_setUint32_eq _ _ _ _ H2). }
    split; [apply (getUint32_setUint32_eq _ _ _ _ H3)|].
    intros o Ho Hon.
    rewrite (getUint32_setUint32_ne _ _ _ _ o H3) by lia.
    rewrite (getUint32_setUint32_ne _ _ _ _ o H2) by lia.
    rewrite (getUint32_setUint32_ne _ _ _ _ o H1) by lia.
    apply getUint32_ArrayBuffer; lia.
Qed.

Lemma Allocator_new_header_witness :
  Allocator_new 8 100 = Throw RangeError
  /\ exists buf,
       Allocator_new 1024 100 = Ok (mkAllocator buf ∅ 0 1024 100)
       /\ byteLength buf = 1024
       /\ getUint32 buf 0 = Some (ToUint32 (12 + 100 * 8))
       /\ getUint32 buf 4 = Some 0
       /\ getUint32 buf 8 = Some 0
       /\ getUint32 buf 1020 = Some 0.
Proof.
  split.
  - destruct (Allocator_new_header 8 100) as [[_ H]|[H _]]; [lia | lia | exact H | lia].
  - destruct (Allocator_new_header 1024 100)
      as [[H _]|(_ & buf & Hnew & HL & H0 & H4 & H8 & Hz)]; [lia | lia | lia |].
    exists buf. split; [exact Hnew|]. split; [exact HL|]. split; [exact H0|].
    split; [exact H4|]. split; [exact H8|]. apply Hz; lia.
Defined.

(** ** Registration of structures *)

Lemma registerStructure_state (w : World) (s : Struct) (id : Z) (w' : World) :
  registerStructure s w = (Ok id, w') ->
  exists bump,
    getUint32 (buffer w) 0 = Some bump
    /\ id = _nextId (allocator w)
    /\ w' = with_buffer (buffer w') (registered s bump w).
Proof.
  intros H.
  destruct (getUint32 (buffer w) 0) as [bump|] eqn:Hb.
  - exists bump. split; [reflexivity|].
    rewrite (registerStructure_start s w bump Hb) in H.
    apply bind_inv_Ok in H as (i & w1 & Hg & H).
    apply view_getUint32_inv in Hg as [Hi ->].
    apply bind_inv_Ok in H as (M0 & w1 & Hg & H).
    apply gets_inv in Hg as [-> ->].
    apply bind_inv_Ok in H as (u2 & w1 & Hs1 & H).
    apply view_setUint32_inv in Hs1 as (b1 & H1 & ->).
    apply bind_inv_Ok in H as (u3 & w1 & Hs2 & H).
    apply view_setUint32_inv in Hs2 as (b2 & H2 & ->).
    apply bind_inv_Ok in H as (u4 & w1 & Hs3 & H).
    apply view_setUint32_inv in Hs3 as (b3 & H3 & ->).
    apply ret_inv in H as [-> ->].
    split; reflexivity.
  - unfold registerStructure in H.
    unfold gets at 1 in H. unfold bind at 1 in H.
    unfold modify at 1 in H. unfold bind at 1 in H.
    unfold bind at 1 in H. unfold view_getUint32 at 1 in H.
    change (buffer {| allocator := set_nextId (_nextId (allocator w) + 1) (allocator w);
                      heap := heap w |}) with (buffer w) in H.
    rewrite Hb in H. discriminate H.
Qed.

(** X5: a call of [registerStructure] that returns gives the id that
    was next, and the next id is one more; from then on
    [getStructureOffset] of that id returns the bump offset that the
    arena had at the call, without changing anything; the entries of the
    other ids and the objects are as before, and the structure count in
    the header is one more (modulo 2^32). *)
Theorem registerStructure_then_getStructureOffset
        (w : World) (s : Struct) (id : Z) (w' : World) :
  registerStructure s w = (Ok id, w') ->
  id = _nextId (allocator w)
  /\ _nextId (allocator w') = id + 1
  /\ (exists bump,
         getUint32 (buffer w) 0 = Some bump
         /\ getStructureOffset id w' = (Ok bump, w'))
  /\ (forall id', id' <> id ->
                  _structures (allocator w') !! id' = _structures (allocator w) !! id')
  /\ (exists i, getUint32 (buffer w) 8 = Some i
                /\ getUint32 (buffer w') 8 = Some (ToUint32 (i + 1)))
  /\ heap w' = heap w.
Proof.
  intros H. destruct (registerStructure_state _ _ _ _ H) as (bump & Hb & Hid & Hw).
  split; [exact Hid|]. split; [rewrite Hw; simpl; lia|].
  split.
  { exists bump. split; [exact Hb|].
    assert (Hl : _structures (allocator w') !! id = Some (mkEntry bump s)).
    { rewrite Hw. simpl. rewrite Hid. apply lookup_insert_eq. }
    unfold getStructureOffset, gets, bind. now rewrite Hl. }
  split.
  { intros id' Hne. rewrite Hw. simpl. rewrite lookup_insert_ne; [reflexivity | lia]. }
  split; [|rewrite Hw; reflexivity].
  destruct (getUint32 (buffer w) 8) as [i|] eqn:Hi.
  - exists i. split; [reflexivity|].
    destruct (registerStructure_inv w s id w' i H Hi) as (_ & ? & b1 & b2 & _ & _ & _ & H3 & _).
    apply (getUint32_setUint32_eq _ _ _ _ H3).
  - exfalso. rewrite (registerStructure_start s w bump Hb) in H.
    apply bind_inv_Ok in H as (i & w1 & Hg & _).
    apply view_getUint32_inv in Hg as [Hi' _].
    change (getUint32 (buffer w) 8 = Some i) in Hi'. congruence.
Qed.

Lemma registerStructure_then_getStructureOffset_witness :
  registerStructure StubStruct arena1024
  = (Ok 0, snd (registerStructure StubStruct arena1024))
  /\ getStructureOffset 0 (snd (registerStructure StubStruct arena1024))
     = (Ok 812, snd (registerStructure StubStruct arena1024)).
Proof.
  assert (H : registerStructure StubStruct arena1024
              = (Ok 0, snd (registerStructure StubStruct arena1024)))
    by (vm_compute; reflexivity).
  split; [exact H|].
  destruct (registerStructure_then_getStructureOffset _ _ _ _ H)
    as (_ & _ & (bump & Hb & Hget) & _).
  assert (bump = 812) as -> by (vm_compute in Hb; congruence).
  exact Hget.
Defined.

(** X6: when the registry entry that [registerStructure] has to write
    does not lie inside the arena, the call throws a [RangeError], but
    only after it has taken the id and put the structure in the map: the
    next id is one more, [getStructureOffset] of the id that was taken
    returns the bump offset, and the structure count and the bump offset
    in the header are unchanged. *)
Theorem registerStructure_outside_arena (w : World) (s : Struct) (bump i : Z) :
  getUint32 (buffer w) 0 = Some bump ->
  getUint32 (buffer w) 8 = Some i ->
  0 <= maxFreeBlocks (allocator w) ->
  byteLength (buffer w) < 12 + maxFreeBlocks (allocator w) * 8 + i * 8 + 8 ->
  exists w',
    registerStructure s w = (Throw RangeError, w')
    /\ _nextId (allocator w') = _nextId (allocator w) + 1
    /\ getStructureOffset (_nextId (allocator w)) w' = (Ok bump, w')
    /\ getUint32 (buffer w') 8 = Some i
    /\ getUint32 (buffer w') 0 = Some bump
    /\ heap w' = heap w.
Proof.
  intros Hb Hi HM HL. pose proof (getUint32_range _ _ _ Hi) as Hir.
  rewrite (registerStructure_start s w bump Hb).
  set (w0 := registered s bump w).
  assert (Hi0 : getUint32 (buffer w0) 8 = Some i) by exact Hi.
  get_step Hi0. unfold gets at 1. unfold bind at 1.
  change (maxFreeBlocks (allocator w0)) with (maxFreeBlocks (allocator w)).
  set (addr := 12 + maxFreeBlocks (allocator w) * 8 + i * 8) in *.
  assert (Hget : forall buf, getStructureOffset (_nextId (allocator w)) (with_buffer buf w0)
                             = (Ok bump, with_buffer buf w0)).
  { intros buf. unfold getStructureOffset, gets, bind. simpl.
    now rewrite lookup_insert_eq. }
  destruct (setUint32 (buffer w0) addr (_nextId (allocator w))) as [b1|] eqn:H1.
  - set_step H1.
    assert (H2 : setUint32 b1 (addr + 4) bump = None).
    { destruct (setUint32 b1 (addr + 4) bump) as [b2|] eqn:H2; [|reflexivity].
      pose proof (setUint32_byteLength _ _ _ _ H1) as L1.
      apply setUint32_Some in H2. change (buffer w0) with (buffer w) in L1. lia. }
    rewrite (bind_Throw _ _ _ _ _ (view_setUint32_None (with_buffer b1 w0) _ _ H2)).
    exists (with_buffer b1 w0). rewrite buffer_with_buffer.
    split; [reflexivity|]. split; [reflexivity|]. split; [apply Hget|].
    split; [rewrite (getUint32_setUint32_ne _ _ _ _ 8 H1) by (unfold addr; lia); exact Hi|].
    split; [rewrite (getUint32_setUint32_ne _ _ _ _ 0 H1) by (unfold addr; lia); exact Hb|].
    reflexivity.
  - rewrite (bind_Throw _ _ _ _ _ (view_setUint32_None w0 _ _ H1)).
    exists w0.
    split; [reflexivity|]. split; [reflexivity|].
    split; [rewrite <- (with_buffer_id w0); apply Hget|].
    split; [exact Hi|]. split; [exact Hb | reflexivity].
Qed.

Lemma registerStructure_outside_arena_witness :
  getUint32 (buffer arena16) 0 = Some 812
  /\ getUint32 (buffer arena16) 8 = Some 0
  /\ exists w',
       registerStructure StubStruct arena16 = (Throw RangeError, w')
       /\ _nextId (allocator w') = _nextId (allocator arena16) + 1
       /\ getStructureOffset (_nextId (allocator arena16)) w' = (Ok 812, w').
Proof.
  assert (Hb : getUint32 (buffer arena16) 0 = Some 812) by (vm_compute; reflexivity).
  assert (Hi : getUint32 (buffer arena16) 8 = Some 0) by (vm_compute; reflexivity).
  split; [exact Hb|]. split; [exact Hi|].
  destruct (registerStructure_outside_arena arena16 StubStruct 812 0 Hb Hi)
    as (w' & Hr & Hn & Hg & _).
  - vm_compute. discriminate.
  - vm_compute. reflexivity.
  - exists w'. split; [exact Hr|]. split; [exact Hn | exact Hg].
Defined.

(** ** Loading an arena and allocating from it *)

Lemma allocate_without_structures (w : World) (sz : Z) (fl : list MemoryBlockRef)
      (bump : Z) :
  free_table (buffer w) = Some fl ->
  Forall (fun b => size b < sz) fl ->
  getUint32 (buffer w) 0 = Some bump ->
  getUint32 (buffer w) 8 = Some 0 ->
  exists w', allocate sz w = (Ok (mkBlock bump sz), w')
             /\ getUint32 (buffer w') 0 = Some (ToUint32 (bump + sz)).
Proof.
  intros Hfl Hno Hb H8.
  rewrite (allocate_no_fit w sz fl bump Hfl (proj2 (first_fit_None _ _) Hno) Hb).
  pose proof (getUint32_Some _ _ _ Hb) as [_ H4].
  destruct (byteLength (buffer w) <? bump + sz).
  - rewrite restoreStructures_grown_none by exact H8.
    destruct (setUint32_is_Some (buffer (grown w)) 0 (bump + sz)) as [b' H'];
      [lia | rewrite byteLength_grown; lia |].
    set_step H'. unfold ret. exists (with_buffer b' (grown w)).
    split; [reflexivity|]. apply (getUint32_setUint32_eq _ _ _ _ H').
  - destruct (setUint32_is_Some (buffer w) 0 (bump + sz)) as [b' H']; [lia..|].
    set_step H'. unfold ret. exists (with_buffer b' w).
    split; [reflexivity|]. apply (getUint32_setUint32_eq _ _ _ _ H').
Qed.

(** X7: [Allocator.fromBuffer] on bytes that record no structure returns
    an allocator over a copy of the bytes, with the default free-list
    capacity 100 whatever capacity the bytes were written with, no
    structure and 0 as next id; allocation resumes where the bytes left
    it: when no entry of the recorded free table can hold [sz] bytes,
    [allocate(sz)] returns the block at the recorded bump offset. *)
Theorem fromBuffer_resumes_allocation (buf : list byte) (objs : list ResizableArray)
        (sz bump : Z) (fl : list MemoryBlockRef) :
  getUint32 buf 8 = Some 0 ->
  getUint32 buf 0 = Some bump ->
  free_table buf = Some fl ->
  Forall (fun b => size b < sz) fl ->
  exists a w',
    fromBuffer buf objs = (Ok a, objs)
    /\ a = mkAllocator buf ∅ 0 (byteLength buf) 100
    /\ allocate sz (mkWorld a objs) = (Ok (mkBlock bump sz), w').
Proof.
  intros H8 Hb Hfl Hno. pose proof (getUint32_Some _ _ _ H8) as [_ HL].
  destruct (Allocator_new_Ok (byteLength buf) 100) as (b0 & Hnew & _); [lia|].
  set (a := mkAllocator buf ∅ 0 (byteLength buf) 100).
  destruct (allocate_without_structures (mkWorld a objs) sz fl bump Hfl Hno Hb H8)
    as (w' & Ha & _).
  exists a, w'. split; [|split; [reflexivity | exact Ha]].
  unfold fromBuffer. rewrite Hnew.
  now rewrite (restoreStructures_none
                 (mkWorld (set_buffer buf (mkAllocator b0 ∅ 0 (byteLength buf) 100)) objs) H8).
Qed.

Lemma fromBuffer_resumes_allocation_witness :
  getUint32 (buffer arena_two_blocks) 8 = Some 0
  /\ getUint32 (buffer arena_two_blocks) 0 = Some 1012
  /\ exists a w',
       fromBuffer (buffer arena_two_blocks) [] = (Ok a, [])
       /\ allocate 50 (mkWorld a []) = (Ok (mkBlock 1012 50), w').
Proof.
  assert (H8 : getUint32 (buffer arena_two_blocks) 8 = Some 0)
    by (vm_compute; reflexivity).
  assert (Hb : getUint32 (buffer arena_two_blocks) 0 = Some 1012)
    by (vm_compute; reflexivity).
  assert (Hfl : free_table (buffer arena_two_blocks) = Some [])
    by (vm_compute; reflexivity).
  split; [exact H8|]. split; [exact Hb|].
  destruct (fromBuffer_resumes_allocation (buffer arena_two_blocks) [] 50 1012 []
              H8 Hb Hfl (List.Forall_nil _))
    as (a & w' & Hf & _ & Ha).
  exists a, w'. split; [exact Hf | exact Ha].
Defined.

(** ** The size of the free table *)

Lemma swap_remove_length (k : nat) (fl : list MemoryBlockRef) :
  (length (swap_remove k fl) <= length fl)%nat.
Proof.
  unfold swap_remove. destruct (last fl); [|lia].
  rewrite length_take, length_insert. lia.
Qed.

Lemma table_after_fit_length (sz : Z) (k : nat) (e : MemoryBlockRef)
      (fl : list MemoryBlockRef) :
  (length (table_after_fit sz k e fl) <= length fl)%nat.
Proof.
  unfold table_after_fit. destruct (0 <? size e - sz).
  - now rewrite length_insert.
  - apply swap_remove_length.
Qed.

Lemma table_after_free_length (fl : list MemoryBlockRef) (block : MemoryBlockRef) :
  (length (table_after_free fl block) <= length fl + 1)%nat.
Proof.
  unfold table_after_free.
  etransitivity; [apply coalesced_length|].
  rewrite length_take, length_app. simpl. lia.
Qed.

Lemma table_ok_allocate (w : World) (sz : Z) :
  table_ok w -> table_ok (snd (allocate sz w)).
Proof.
  intros (H12 & fl & Hfl & Hlen).
  destruct (first_fit sz fl) as [[k e]|] eqn:Hfit.
  - destruct (allocate_fit w sz fl k e Hfl Hfit) as (buf' & Ha & HL & Ht & _).
    rewrite Ha. simpl. split; [rewrite buffer_with_buffer; lia|].
    exists (table_after_fit sz k e fl). rewrite buffer_with_buffer.
    split; [exact Ht|]. pose proof (table_after_fit_length sz k e fl).
    change (maxFreeBlocks (allocator (with_buffer buf' w)))
      with (maxFreeBlocks (allocator w)). lia.
  - destruct (getUint32_is_Some (buffer w) 0) as [bump Hb]; [lia..|].
    rewrite (allocate_no_fit w sz fl bump Hfl Hfit Hb).
    assert (Hset : forall w0,
               12 <= byteLength (buffer w0) ->
               free_table (buffer w0) = Some fl ->
               maxFreeBlocks (allocator w0) = maxFreeBlocks (allocator w) ->
               table_ok (snd ((view_setUint32 0 (bump + sz) ;;; ret (mkBlock bump sz)) w0))).
    { intros w0 HL0 Ht0 HM0.
      destruct (setUint32_is_Some (buffer w0) 0 (bump + sz)) as [b' H']; [lia..|].
      set_step H'. unfold ret. simpl. split.
      - rewrite buffer_with_buffer, (setUint32_byteLength _ _ _ _ H'). exact HL0.
      - exists fl. rewrite buffer_with_buffer.
        split; [apply (free_table_set_outside _ _ _ _ _ H'); [lia | exact Ht0]|].
        change (maxFreeBlocks (allocator (with_buffer b' w0)))
          with (maxFreeBlocks (allocator w0)). lia. }
    destruct (byteLength (buffer w) <? bump + sz); [|now apply Hset].
    pose proof (restoreStructures_same_allocator (grown w)) as Hsame.
    assert (Hgrown : forall w1,
               allocator w1 = allocator (grown w) ->
               12 <= byteLength (buffer w1)
               /\ free_table (buffer w1) = Some fl
               /\ maxFreeBlocks (allocator w1) = maxFreeBlocks (allocator w)).
    { intros w1 Ha.
      assert (Hbuf : buffer w1 = buffer w ++ repeat x00 (length (buffer w)))
        by (unfold buffer at 1; now rewrite Ha).
      rewrite Hbuf, Ha. split; [|split; [now apply free_table_app | reflexivity]].
      unfold byteLength in *. rewrite length_app. lia. }
    destruct (restoreStructures (grown w)) as [[u|e] w1]; simpl in Hsame;
      destruct (Hgrown w1 Hsame) as (HL1 & Ht1 & HM1).
    + now apply Hset.
    + simpl. split; [exact HL1|]. exists fl. split; [exact Ht1 | lia].
Qed.

Lemma table_ok_free (w : World) (block : MemoryBlockRef) :
  table_ok w -> table_ok (snd (free block w)).
Proof.
  intros (H12 & fl & Hfl & Hlen).
  destruct (free block w) as [[[]|e] w'] eqn:Hfree; simpl.
  - destruct (free_returns _ _ _ Hfree) as (fl0 & Hfl0 & Hlt & Ht & Hw & HL & _).
    assert (fl0 = fl) by congruence. subst fl0.
    split; [lia|]. exists (table_after_free fl block). split; [exact Ht|].
    pose proof (table_after_free_length fl block).
    rewrite Hw. change (maxFreeBlocks (allocator (with_buffer (buffer w') w)))
      with (maxFreeBlocks (allocator w)). lia.
  - destruct (free_Throw_keeps _ _ _ _ fl Hfree Hfl) as (Ht & _ & HL & HM).
    split; [lia|]. exists fl. split; [exact Ht | lia].
Qed.

(** X8: the free table never outgrows its capacity.  In a state in
    which the table is readable and holds at most [maxFreeBlocks]
    entries, which is the state a constructor with a capacity of at
    least 0 leaves, every call of [allocate] and every call of [free],
    with any argument, whether it returns or throws, leaves such a
    state; so does every run of a client. *)
Theorem free_table_within_capacity (w : World) :
  table_ok w ->
  (forall sz, table_ok (snd (allocate sz w)))
  /\ (forall block, table_ok (snd (free block w)))
  /\ (forall ops live, table_ok (fst (run ops w live))).
Proof.
  intros Hok. split; [intros sz; now apply table_ok_allocate|].
  split; [intros block; now apply table_ok_free|].
  intros ops. revert w Hok.
  induction ops as [|op ops IH]; intros w Hok live; simpl; [exact Hok|].
  destruct op as [sz|k].
  - pose proof (table_ok_allocate w sz Hok) as H.
    destruct (allocate sz w) as [[b|e] w']; simpl in H; now apply IH.
  - destruct (live !! k) as [b|]; [|now apply IH].
    pose proof (table_ok_free w b Hok) as H.
    destruct (free b w) as [[u|e] w']; simpl in H; now apply IH.
Qed.

Lemma table_ok_new (n maxFree : Z) (a : Allocator) :
  Allocator_new n maxFree = Ok a -> 0 <= maxFree -> table_ok (mkWorld a []).
Proof.
  intros Hnew HM. pose proof (Allocator_new_inv _ _ _ Hnew) as Hn.
  destruct (Allocator_new_Ok n maxFree Hn) as (buf & Hnew' & HL & _ & H4 & _).
  rewrite Hnew in Hnew'. injection Hnew' as ->.
  split; [change (12 <= byteLength buf); lia|].
  exists []. split; [now apply free_table_empty|].
  change (0 <= maxFree). exact HM.
Qed.

Lemma free_table_within_capacity_witness :
  Allocator_new 1024 100 = Ok (allocator arena1024)
  /\ table_ok arena1024
  /\ table_ok (fst (run client_reuse arena1024 [])).
Proof.
  assert (Hnew : Allocator_new 1024 100 = Ok (allocator arena1024))
    by (vm_compute; reflexivity).
  assert (Hok : table_ok arena1024).
  { apply (table_ok_new 1024 100 (allocator arena1024) Hnew). lia. }
  split; [exact Hnew|]. split; [exact Hok|].
  exact (proj2 (proj2 (free_table_within_capacity arena1024 Hok)) client_reuse []).
Defined.

(** * Properties of the growable array *)

Lemma this_Ok (w : World) (ref : nat) (t : ResizableArray) :
  heap w !! ref = Some t -> this ref w = (Ok t, w).
Proof. unfold this. now intros ->. Qed.

Lemma heap_with_buffer (buf : list byte) (w : World) : heap (with_buffer buf w) = heap w.
Proof. reflexivity. Qed.

Ltac this_step H :=
  match goal with
  | |- context [bind (this ?ref) ?k ?w] =>
      rewrite (bind_Ok (this ref) k w _ _ (this_Ok w ref _ H)); cbv beta
  end.

Lemma saveMetadata_Ok (w : World) (ref : nat) (t : ResizableArray) :
  heap w !! ref = Some t ->
  0 <= offset (_block t) ->
  offset (_block t) + 8 <= byteLength (buffer w) ->
  exists b1 b2,
    setUint32 (buffer w) (offset (_block t)) (_length t) = Some b1
    /\ setUint32 b1 (offset (_block t) + 4) (_capacity t) = Some b2
    /\ saveMetadata ref w = (Ok tt, with_buffer b2 w).
Proof.
  intros Ht H0 HL.
  destruct (setUint32_is_Some (buffer w) (offset (_block t)) (_length t)) as [b1 H1]; [lia..|].
  pose proof (setUint32_byteLength _ _ _ _ H1) as L1.
  destruct (setUint32_is_Some b1 (offset (_block t) + 4) (_capacity t)) as [b2 H2]; [lia..|].
  exists b1, b2. split; [exact H1|]. split; [exact H2|].
  unfold saveMetadata. this_step Ht. set_step H1.
  apply (view_setUint32_Ok (with_buffer b1 w) _ _ b2 H2).
Qed.

(** X9: [push] on an array that is not full, whose block lies inside
    the arena, stores the value (modulo 2^32) after the elements, so
    that [get] of the former length returns it; the length is one more,
    capacity and block are unchanged, [get] of every index below the
    former length returns what it returned before, and the byte length
    of the arena is unchanged. *)
Theorem push_then_get (w : World) (ref : nat) (t : ResizableArray) (value : Z) :
  heap w !! ref = Some t ->
  0 <= _length t < _capacity t ->
  0 <= offset (_block t) ->
  offset (_block t) + 8 + (_length t + 1) * 4 <= byteLength (buffer w) ->
  exists w',
    push ref value w = (Ok tt, w')
    /\ heap w' !! ref = Some (set_length (_length t + 1) t)
    /\ get ref (_length t) w' = (Ok (ToUint32 value), w')
    /\ (forall i, 0 <= i < _length t -> fst (get ref i w') = fst (get ref i w))
    /\ byteLength (buffer w') = byteLength (buffer w).
Proof.
  intros Ht Hlen H0 HL.
  set (off := offset (_block t)) in *.
  set (t1 := set_length (_length t + 1) t).
  destruct (setUint32_is_Some (buffer w) (off + 8 + _length t * 4) value) as [b1 H1]; [lia..|].
  pose proof (setUint32_byteLength _ _ _ _ H1) as L1.
  set (w1 := mkWorld (allocator (with_buffer b1 w))
                     (alter (fun t => set_length (_length t + 1) t) ref (heap w))).
  assert (Ht1 : heap w1 !! ref = Some t1).
  { unfold w1. simpl. rewrite list_lookup_alter_eq, Ht. reflexivity. }
  destruct (saveMetadata_Ok w1 ref t1 Ht1) as (b2 & b3 & H2 & H3 & Hsave);
    [exact H0 | change (buffer w1) with b1; unfold t1; simpl; fold off; lia |].
  change (buffer w1) with b1 in H2. change (offset (_block t1)) with off in *.
  change (_length t1) with (_length t + 1) in *.
  change (_capacity t1) with (_capacity t) in *.
  pose proof (setUint32_byteLength _ _ _ _ H2) as L2.
  pose proof (setUint32_byteLength _ _ _ _ H3) as L3.
  exists (with_buffer b3 w1).
  assert (Hpush : push ref value w = (Ok tt, with_buffer b3 w1)).
  { unfold push. this_step Ht.
    rewrite (proj2 (Z.leb_gt _ _)) by lia.
    unfold ret at 1. unfold bind at 1.
    this_step Ht. fold off. set_step H1.
    unfold update_this, modify. unfold bind at 1. exact Hsave. }
  assert (Hheap : heap (with_buffer b3 w1) !! ref = Some t1) by exact Ht1.
  split; [exact Hpush|]. split; [exact Hheap|].
  split; [|split].
  - unfold get. this_step Hheap.
    change (_length t1) with (_length t + 1).
    rewrite (proj2 (Z.leb_gt _ _)) by lia.
    change (offset (_block t1)) with off.
    apply view_getUint32_Ok. rewrite buffer_with_buffer.
    rewrite (getUint32_setUint32_ne _ _ _ _ _ H3) by lia.
    rewrite (getUint32_setUint32_ne _ _ _ _ _ H2) by lia.
    apply (getUint32_setUint32_eq _ _ _ _ H1).
  - intros i Hi. unfold get. this_step Hheap. this_step Ht.
    change (_length t1) with (_length t + 1).
    rewrite !(proj2 (Z.leb_gt _ _)) by lia.
    change (offset (_block t1)) with off. fold off.
    unfold view_getUint32. rewrite buffer_with_buffer.
    rewrite (getUint32_setUint32_ne _ _ _ _ _ H3) by lia.
    rewrite (getUint32_setUint32_ne _ _ _ _ _ H2) by lia.
    rewrite (getUint32_setUint32_ne _ _ _ _ _ H1) by lia.
    destruct (getUint32 (buffer w) (off + 8 + i * 4)); reflexivity.
  - rewrite buffer_with_buffer. lia.
Qed.

Lemma push_then_get_witness :
  heap arena_empty_array !! 0%nat
  = Some (mkArray 0 2 (mkBlock 812 16) (Some 0) 2)
  /\ exists w',
       push 0 42 arena_empty_array = (Ok tt, w')
       /\ get 0 0 w' = (Ok (ToUint32 42), w').
Proof.
  assert (Ht : heap arena_empty_array !! 0%nat
               = Some (mkArray 0 2 (mkBlock 812 16) (Some 0) 2))
    by (vm_compute; reflexivity).
  split; [exact Ht|].
  destruct (push_then_get arena_empty_array 0 _ 42 Ht) as (w' & Hp & _ & Hg & _).
  - simpl. lia.
  - simpl. lia.
  - vm_compute. discriminate.
  - exists w'. split; [exact Hp | exact Hg].
Defined.

Lemma alter_fixed {A} (f : A -> A) (l : list A) (i : nat) (x : A) :
  l !! i = Some x -> f x = x -> alter f i l = l.
Proof.
  revert i. induction l as [|y l IH]; intros i Hi Hf; [reflexivity|].
  destruct i as [|i]; simpl in *.
  - injection Hi as ->. now rewrite Hf.
  - f_equal. now apply IH.
Qed.

(** X10: [get] only checks its index against the length.  Once the
    metadata of an array are saved, [get(-1)] returns the stored
    capacity and [get(-2)] the stored length, instead of failing, and
    [get] of an index at or above the length throws "Index out of
    bounds"; none of them changes the state. *)
Theorem get_checks_upper_bound_only (w : World) (ref : nat) (t : ResizableArray)
        (w1 : World) :
  heap w !! ref = Some t ->
  0 <= _length t ->
  saveMetadata ref w = (Ok tt, w1) ->
  get ref (-1) w1 = (Ok (ToUint32 (_capacity t)), w1)
  /\ get ref (-2) w1 = (Ok (ToUint32 (_length t)), w1)
  /\ (forall index, _length t <= index ->
                    get ref index w1 = (Throw (Error "Index out of bounds"), w1)).
Proof.
  intros Ht Hlen Hsave. unfold saveMetadata in Hsave. revert Hsave. this_step Ht.
  intros Hsave.
  apply bind_inv_Ok in Hsave as (u1 & w0 & Hs1 & Hs2).
  apply view_setUint32_inv in Hs1 as (b1 & H1 & ->).
  apply view_setUint32_inv in Hs2 as (b2 & H2 & ->).
  rewrite buffer_with_buffer in H2. rewrite with_buffer_with_buffer.
  assert (Ht1 : heap (with_buffer b2 w) !! ref = Some t) by exact Ht.
  split; [|split].
  - unfold get. this_step Ht1. rewrite (proj2 (Z.leb_gt _ _)) by lia.
    apply view_getUint32_Ok. rewrite buffer_with_buffer.
    replace (offset (_block t) + 8 + -1 * 4) with (offset (_block t) + 4) by lia.
    apply (getUint32_setUint32_eq _ _ _ _ H2).
  - unfold get. this_step Ht1. rewrite (proj2 (Z.leb_gt _ _)) by lia.
    apply view_getUint32_Ok. rewrite buffer_with_buffer.
    replace (offset (_block t) + 8 + -2 * 4) with (offset (_block t)) by lia.
    rewrite (getUint32_setUint32_ne _ _ _ _ _ H2) by lia.
    apply (getUint32_setUint32_eq _ _ _ _ H1).
  - intros index Hi. unfold get. this_step Ht1.
    now rewrite (proj2 (Z.leb_le _ _)) by lia.
Qed.

Lemma get_checks_upper_bound_only_witness :
  heap arena_with_array !! 0%nat = Some (mkArray 1 2 (mkBlock 812 16) (Some 0) 2)
  /\ get 0 (-1) (snd (saveMetadata 0 arena_with_array))
     = (Ok (ToUint32 2), snd (saveMetadata 0 arena_with_array))
  /\ get 0 (-2) (snd (saveMetadata 0 arena_with_array))
     = (Ok (ToUint32 1), snd (saveMetadata 0 arena_with_array)).
Proof.
  assert (Ht : heap arena_with_array !! 0%nat
               = Some (mkArray 1 2 (mkBlock 812 16) (Some 0) 2))
    by (vm_compute; reflexivity).
  assert (Hs : saveMetadata 0 arena_with_array
               = (Ok tt, snd (saveMetadata 0 arena_with_array)))
    by (vm_compute; reflexivity).
  split; [exact Ht|].
  destruct (get_checks_upper_bound_only arena_with_array 0 _ _ Ht ltac:(simpl; lia) Hs)
    as (H1 & H2 & _).
  split; [exact H1 | exact H2].
Defined.

(** X11: [restore] at the offset of the array's own block undoes
    nothing and loses nothing: once the metadata are saved, for a length
    and a capacity that fit in 32 bits and a block of the size the class
    gives it ([capacity * 4 + 8]), [restore(this._block.offset)] returns
    and leaves the array, the allocator and the bytes exactly as they
    were. *)
Theorem restore_at_block_offset_is_identity (w : World) (ref : nat) (t : ResizableArray)
        (w1 : World) :
  heap w !! ref = Some t ->
  uint32 (_length t) -> uint32 (_capacity t) ->
  size (_block t) = _capacity t * 4 + 8 ->
  saveMetadata ref w = (Ok tt, w1) ->
  restore ref (offset (_block t)) w1 = (Ok tt, w1).
Proof.
  intros Ht Hl Hc Hsize Hsave. unfold saveMetadata in Hsave. revert Hsave.
  this_step Ht. intros Hsave.
  apply bind_inv_Ok in Hsave as (u1 & w0 & Hs1 & Hs2).
  apply view_setUint32_inv in Hs1 as (b1 & H1 & ->).
  apply view_setUint32_inv in Hs2 as (b2 & H2 & ->).
  rewrite buffer_with_buffer in H2. rewrite with_buffer_with_buffer.
  set (w2 := with_buffer b2 w).
  assert (Ht2 : heap w2 !! ref = Some t) by exact Ht.
  assert (Hblock : set_block (mkBlock (offset (_block t)) (_capacity t * 4 + 8)) t = t).
  { rewrite <- Hsize. destruct t as [l c [o s] i ic]. reflexivity. }
  assert (Hlen : getUint32 (buffer w2) (offset (_block t)) = Some (_length t)).
  { unfold w2. rewrite buffer_with_buffer.
    rewrite (getUint32_setUint32_ne _ _ _ _ _ H2) by lia.
    rewrite (getUint32_setUint32_eq _ _ _ _ H1). f_equal. now apply ToUint32_id. }
  assert (Hcap : getUint32 (buffer w2) (offset (_block t) + 4) = Some (_capacity t)).
  { unfold w2. rewrite buffer_with_buffer.
    rewrite (getUint32_setUint32_eq _ _ _ _ H2). f_equal. now apply ToUint32_id. }
  assert (Hid : forall f, f t = t ->
                          update_this ref f w2 = (Ok tt, w2)).
  { intros f Hf. unfold update_this, modify.
    rewrite (alter_fixed f (heap w2) ref t Ht2 Hf). now destruct w2. }
  unfold restore. this_step Ht2.
  rewrite (bind_Ok _ _ _ _ _ (Hid _ Hblock)). cbv beta.
  unfold loadMetadata. this_step Ht2. get_step Hlen.
  rewrite (bind_Ok _ _ _ _ _ (Hid (set_length (_length t)) ltac:(now destruct t))).
  cbv beta. get_step Hcap.
  apply Hid. now destruct t.
Qed.

Lemma restore_at_block_offset_is_identity_witness :
  heap arena_with_array !! 0%nat = Some (mkArray 1 2 (mkBlock 812 16) (Some 0) 2)
  /\ restore 0 812 (snd (saveMetadata 0 arena_with_array))
     = (Ok tt, snd (saveMetadata 0 arena_with_array)).
Proof.
  assert (Ht : heap arena_with_array !! 0%nat
               = Some (mkArray 1 2 (mkBlock 812 16) (Some 0) 2))
    by (vm_compute; reflexivity).
  assert (Hs : saveMetadata 0 arena_with_array
               = (Ok tt, snd (saveMetadata 0 arena_with_array)))
    by (vm_compute; reflexivity).
  split; [exact Ht|].
  apply (restore_at_block_offset_is_identity arena_with_array 0 _ _ Ht);
    [unfold uint32; simpl; lia | unfold uint32; simpl; lia | reflexivity | exact Hs].
Defined.

(** ** Reuse of a released block *)

(** X12: from an empty free table, once a block (a range of the 32-bit
    address space) has been released, [allocate] of a positive size that
    the block can hold returns the block that starts at the same
    offset. *)
Theorem released_block_is_reused (w : World) (block : MemoryBlockRef) (sz : Z)
        (w1 : World) :
  getUint32 (buffer w) 4 = Some 0 ->
  uint32 (offset block) -> uint32 (size block) ->
  0 < sz <= size block ->
  free block w = (Ok tt, w1) ->
  exists w2, allocate sz w1 = (Ok (mkBlock (offset block) sz), w2).
Proof.
  intros H0 Ho Hs Hsz Hfree.
  destruct (free_returns _ _ _ Hfree) as (fl0 & Hfl0 & _ & Ht & _).
  rewrite (free_table_empty _ H0) in Hfl0. injection Hfl0 as <-.
  rewrite table_after_free_nil, wrap_id in Ht by assumption.
  destruct (allocate_fit w1 sz [block] 0 block Ht) as (buf' & Ha & _).
  - unfold first_fit. simpl. destruct (decide (sz <= size block)); [reflexivity | lia].
  - eauto.
Qed.

Lemma released_block_is_reused_witness :
  getUint32 (buffer arena_two_blocks) 4 = Some 0
  /\ free (mkBlock 812 100) arena_two_blocks
     = (Ok tt, snd (free (mkBlock 812 100) arena_two_blocks))
  /\ exists w2,
       allocate 50 (snd (free (mkBlock 812 100) arena_two_blocks))
       = (Ok (mkBlock 812 50), w2).
Proof.
  assert (H0 : getUint32 (buffer arena_two_blocks) 4 = Some 0)
    by (vm_compute; reflexivity).
  assert (Hf : free (mkBlock 812 100) arena_two_blocks
               = (Ok tt, snd (free (mkBlock 812 100) arena_two_blocks)))
    by (vm_compute; reflexivity).
  split; [exact H0|]. split; [exact Hf|].
  apply (released_block_is_reused arena_two_blocks (mkBlock 812 100) 50 _ H0);
    [unfold uint32; simpl; lia | unfold uint32; simpl; lia | simpl; lia | exact Hf].
Defined.

(** ** The constructor of an array *)

Lemma lookup_snoc_last {A} (l : list A) (x : A) : (l ++ [x]) !! length l = Some x.
Proof. induction l as [|y l IH]; [reflexivity | exact IH]. Qed.

Lemma alter_snoc_last {A} (f : A -> A) (l : list A) (x : A) :
  alter f (length l) (l ++ [x]) = l ++ [f x].
Proof. induction l as [|y l IH]; [reflexivity | simpl; f_equal; exact IH]. Qed.

(** X13: the constructor of an array records the end of its block.  On
    an arena whose free table has no entry of [8 + cap * 4] bytes and
    whose bump offset [bump] leaves room for them, [new
    ResizableArray(allocator, cap)] returns a new object of length 0 and
    capacity [cap] whose block starts at [bump]; it takes the next id,
    and [getStructureOffset] of that id returns [bump + 8 + cap * 4],
    the bump offset after the allocation, whereas the length and the
    capacity are stored at [bump].  The structure count is one more; and
    when the registry entry of the array starts at [bump], as it does in
    a new allocator, its two words hold the length and the capacity of
    the array, not its id and offset. *)
Theorem ResizableArray_new_records_end_of_block
        (w : World) (cap bump c : Z) (fl : list MemoryBlockRef) :
  free_table (buffer w) = Some fl ->
  Forall (fun b => size b < 8 + cap * 4) fl ->
  getUint32 (buffer w) 0 = Some bump ->
  getUint32 (buffer w) 8 = Some c ->
  0 <= cap ->
  0 <= maxFreeBlocks (allocator w) ->
  12 + maxFreeBlocks (allocator w) * 8 + c * 8 <= bump ->
  bump + 8 + cap * 4 <= byteLength (buffer w) ->
  bump + 8 + cap * 4 < 2 ^ 32 ->
  exists w',
    ResizableArray_new cap w = (Ok (length (heap w)), w')
    /\ heap w'
       = heap w ++ [mkArray 0 cap (mkBlock bump (8 + cap * 4))
                            (Some (_nextId (allocator w))) cap]
    /\ getStructureOffset (_nextId (allocator w)) w' = (Ok (bump + 8 + cap * 4), w')
    /\ getUint32 (buffer w') bump = Some 0
    /\ getUint32 (buffer w') (bump + 4) = Some cap
    /\ getUint32 (buffer w') 0 = Some (bump + 8 + cap * 4)
    /\ getUint32 (buffer w') 8 = Some (ToUint32 (c + 1))
    /\ (12 + maxFreeBlocks (allocator w) * 8 + c * 8 = bump ->
        read_entry (buffer w') (maxFreeBlocks (allocator w) + c)
        = Some (mkBlock 0 cap)).
Proof.
  intros Hfl Hsmall Hbump Hc Hcap Hmax Hso HL H32.
  assert (Esz : bump + 8 + cap * 4 = bump + (8 + cap * 4)) by lia.
  rewrite !Esz in HL, H32 |- *. clear Esz.
  set (sz := 8 + cap * 4) in *.
  set (maxFree := maxFreeBlocks (allocator w)) in *.
  set (id := _nextId (allocator w)).
  set (so := 12 + maxFree * 8 + c * 8) in *.
  pose proof (getUint32_range _ _ _ Hc) as Rc.
  pose proof (getUint32_range _ _ _ Hbump) as Rb.
  (* [allocate] *)
  destruct (setUint32_is_Some (buffer w) 0 (bump + sz)) as [b1 H1]; [lia..|].
  pose proof (setUint32_byteLength _ _ _ _ H1) as L1.
  assert (Halloc : allocate sz w = (Ok (mkBlock bump sz), with_buffer b1 w)).
  { rewrite (allocate_no_fit w sz fl bump Hfl (proj2 (first_fit_None _ _) Hsmall) Hbump).
    rewrite (proj2 (Z.ltb_ge _ _)) by lia.
    set_step H1. reflexivity. }
  (* the object enters the heap *)
  set (t0 := mkArray 0 cap (mkBlock bump sz) None cap).
  set (w2 := mkWorld (allocator (with_buffer b1 w)) (heap w ++ [t0])).
  assert (Hb2 : getUint32 (buffer w2) 0 = Some (bump + sz)).
  { change (buffer w2) with b1. rewrite (getUint32_setUint32_eq _ _ _ _ H1).
    f_equal. apply ToUint32_id. split; lia. }
  (* [registerStructure] *)
  set (w3 := registered (ArrayStruct (length (heap w))) (bump + sz) w2).
  assert (Hc3 : getUint32 (buffer w3) 8 = Some c).
  { change (buffer w3) with b1.
    rewrite (getUint32_setUint32_ne _ _ _ _ _ H1) by lia. exact Hc. }
  destruct (setUint32_is_Some b1 so id) as [b2 H2]; [lia..|].
  pose proof (setUint32_byteLength _ _ _ _ H2) as L2.
  destruct (setUint32_is_Some b2 (so + 4) (bump + sz)) as [b3 H3]; [lia..|].
  pose proof (setUint32_byteLength _ _ _ _ H3) as L3.
  destruct (setUint32_is_Some b3 8 (c + 1)) as [b4 H4]; [lia..|].
  pose proof (setUint32_byteLength _ _ _ _ H4) as L4.
  assert (Hreg : registerStructure (ArrayStruct (length (heap w))) w2
                 = (Ok id, with_buffer b4 w3)).
  { rewrite (registerStructure_start _ w2 _ Hb2). fold w3.
    get_step Hc3.
    unfold gets at 1. unfold bind at 1.
    change (maxFreeBlocks (allocator w3)) with maxFree. fold so.
    change (_nextId (allocator w2)) with id.
    set_step H2. set_step H3. set_step H4. reflexivity. }
  (* the id is stored in the object, and the metadata written *)
  set (t1 := mkArray 0 cap (mkBlock bump sz) (Some id) cap).
  set (w5 := mkWorld (allocator (with_buffer b4 w3)) (heap w ++ [t1])).
  assert (Ht1 : heap w5 !! length (heap w) = Some t1) by apply lookup_snoc_last.
  destruct (saveMetadata_Ok w5 _ t1 Ht1) as (b5 & b6 & H5 & H6 & Hsave);
    [simpl; lia | change (buffer w5) with b4; simpl; lia |].
  change (buffer w5) with b4 in H5.
  change (offset (_block t1)) with bump in *.
  change (_length t1) with 0 in *. change (_capacity t1) with cap in *.
  exists (with_buffer b6 w5).
  split.
  { unfold ResizableArray_new. fold sz. step_with Halloc.
    unfold gets at 1. unfold bind at 1.
    unfold modify at 1. unfold bind at 1.
    change (heap (with_buffer b1 w)) with (heap w). fold t0. fold w2.
    step_with Hreg.
    unfold update_this, modify. unfold bind at 1.
    change (heap (with_buffer b4 w3)) with (heap w ++ [t0]).
    rewrite alter_snoc_last. change (set_ID id t0) with t1. fold w5.
    step_with Hsave. reflexivity. }
  split; [reflexivity|].
  split.
  { unfold getStructureOffset, gets. unfold bind.
    change (_structures (allocator (with_buffer b6 w5)))
      with (<[id := mkEntry (bump + sz) (ArrayStruct (length (heap w)))]>
              (_structures (allocator w))).
    rewrite lookup_insert_eq. reflexivity. }
  assert (G0 : getUint32 b6 bump = Some 0).
  { rewrite (getUint32_setUint32_ne _ _ _ _ _ H6) by lia.
    rewrite (getUint32_setUint32_eq _ _ _ _ H5). reflexivity. }
  assert (G4 : getUint32 b6 (bump + 4) = Some cap).
  { rewrite (getUint32_setUint32_eq _ _ _ _ H6).
    f_equal. apply ToUint32_id. split; lia. }
  split; [exact G0|]. split; [exact G4|].
  split.
  { rewrite buffer_with_buffer.
    rewrite (getUint32_setUint32_ne _ _ _ _ _ H6) by lia.
    rewrite (getUint32_setUint32_ne _ _ _ _ _ H5) by lia.
    rewrite (getUint32_setUint32_ne _ _ _ _ _ H4) by lia.
    rewrite (getUint32_setUint32_ne _ _ _ _ _ H3) by lia.
    rewrite (getUint32_setUint32_ne _ _ _ _ _ H2) by lia.
    exact Hb2. }
  split.
  { rewrite buffer_with_buffer.
    rewrite (getUint32_setUint32_ne _ _ _ _ _ H6) by lia.
    rewrite (getUint32_setUint32_ne _ _ _ _ _ H5) by lia.
    apply (getUint32_setUint32_eq _ _ _ _ H4). }
  intros E. rewrite buffer_with_buffer.
  apply read_entry_words.
  - replace (12 + (maxFree + c) * 8) with bump by lia. exact G0.
  - replace (12 + (maxFree + c) * 8 + 4) with (bump + 4) by lia. exact G4.
Qed.

Lemma ResizableArray_new_records_end_of_block_witness :
  exists w',
    ResizableArray_new 2 arena1024 = (Ok 0%nat, w')
    /\ getStructureOffset 0 w' = (Ok 828, w')
    /\ read_entry (buffer w') 100 = Some (mkBlock 0 2).
Proof.
  destruct (ResizableArray_new_records_end_of_block arena1024 2 812 0 [])
    as (w' & Hnew & _ & Hoff & _ & _ & _ & _ & Hentry).
  - vm_compute. reflexivity.
  - constructor.
  - vm_compute. reflexivity.
  - vm_compute. reflexivity.
  - lia.
  - vm_compute. discriminate.
  - vm_compute. discriminate.
  - vm_compute. discriminate.
  - vm_compute. reflexivity.
  - exists w'. split; [exact Hnew|]. split; [exact Hoff|].
    apply Hentry. vm_compute. reflexivity.
Defined.

(** ** Coalescing a table that is already coalesced *)

Lemma byte_of_Z_of_byte (b : byte) : byte_of_Z (Z_of_byte b) = b.
Proof. destruct b; reflexivity. Qed.

Lemma byte_of_Z_mod (z : Z) : byte_of_Z (z mod 256) = byte_of_Z z.
Proof. unfold byte_of_Z. now rewrite Z.mod_mod by lia. Qed.

Lemma byte_of_Z_digit (z : Z) (b : byte) : z mod 256 = Z_of_byte b -> byte_of_Z z = b.
Proof. intros E. rewrite <- byte_of_Z_mod, E. apply byte_of_Z_of_byte. Qed.

(** Writing the word that is already there changes no byte. *)
Lemma setUint32_same (buf : list byte) (o v : Z) :
  getUint32 buf o = Some v -> setUint32 buf o v = Some buf.
Proof.
  intros H. pose proof (getUint32_range _ _ _ H) as Hr.
  pose proof (getUint32_Some _ _ _ H) as [H0 HL].
  unfold getUint32 in H. unfold setUint32.
  rewrite (proj2 (in_view_true buf o)) in H by lia.
  rewrite (proj2 (in_view_true buf o)) by lia.
  injection H as H. unfold ToUint32. rewrite (Z.mod_small v) by lia.
  unfold byteLength in HL.
  set (n := Z.to_nat o) in *.
  assert (Hb : forall k, (k < 4)%nat -> buf !! (n + k)%nat
                                       = Some (default x00 (buf !! (n + k)%nat))).
  { intros k Hk. destruct (lookup_lt_is_Some_2 buf (n + k)) as [x Hx]; [lia|].
    now rewrite Hx. }
  unfold byteAt in H.
  pose proof (Hb 0%nat ltac:(lia)) as B0. rewrite Nat.add_0_r in B0.
  pose proof (Hb 1%nat ltac:(lia)) as B1.
  pose proof (Hb 2%nat ltac:(lia)) as B2.
  pose proof (Hb 3%nat ltac:(lia)) as B3.
  set (x0 := default x00 (buf !! n)) in *.
  set (x1 := default x00 (buf !! (n + 1)%nat)) in *.
  set (x2 := default x00 (buf !! (n + 2)%nat)) in *.
  set (x3 := default x00 (buf !! (n + 3)%nat)) in *.
  pose proof (Z_of_byte_range x0). pose proof (Z_of_byte_range x1).
  pose proof (Z_of_byte_range x2). pose proof (Z_of_byte_range x3).
  assert (E0 : byte_of_Z (v / 2 ^ 24) = x0)
    by (apply byte_of_Z_digit; change (2 ^ 24) with 16777216 in *;
        change (2 ^ 16) with 65536 in *; change (2 ^ 8) with 256 in *;
        Z.div_mod_to_equations; lia).
  assert (E1 : byte_of_Z (v / 2 ^ 16) = x1)
    by (apply byte_of_Z_digit; change (2 ^ 24) with 16777216 in *;
        change (2 ^ 16) with 65536 in *; change (2 ^ 8) with 256 in *;
        Z.div_mod_to_equations; lia).
  assert (E2 : byte_of_Z (v / 2 ^ 8) = x2)
    by (apply byte_of_Z_digit; change (2 ^ 24) with 16777216 in *;
        change (2 ^ 16) with 65536 in *; change (2 ^ 8) with 256 in *;
        Z.div_mod_to_equations; lia).
  assert (E3 : byte_of_Z v = x3)
    by (apply byte_of_Z_digit; change (2 ^ 24) with 16777216 in *;
        change (2 ^ 16) with 65536 in *; change (2 ^ 8) with 256 in *;
        Z.div_mod_to_equations; lia).
  rewrite E0, E1, E2, E3.
  rewrite (list_insert_id buf n x0 B0).
  rewrite (list_insert_id buf _ x1 B1).
  rewrite (list_insert_id buf _ x2 B2).
  rewrite (list_insert_id buf _ x3 B3).
  reflexivity.
Qed.

Lemma save_blocks_same (l : list MemoryBlockRef) :
  forall i w,
    read_entries (buffer w) i (length l) = Some l ->
    save_blocks i l w = (Ok tt, w).
Proof.
  induction l as [|b l IH]; intros i w H; [reflexivity|].
  simpl in H.
  destruct (read_entry (buffer w) i) as [b'|] eqn:Hb; [|discriminate].
  destruct (read_entries (buffer w) (i + 1) (length l)) as [l'|] eqn:Hl; [|discriminate].
  injection H as -> ->.
  apply read_entry_Some in Hb as [Ho Hs].
  simpl.
  set_step (setUint32_same _ _ _ Ho). rewrite with_buffer_id.
  set_step (setUint32_same _ _ _ Hs). rewrite with_buffer_id.
  apply IH, Hl.
Qed.

Lemma insert_by_offset_last (b : MemoryBlockRef) (l : list MemoryBlockRef) :
  Forall (fun c => offset c <= offset b) l -> insert_by_offset b l = l ++ [b].
Proof.
  induction 1 as [|c l Hc _ IH]; [reflexivity|].
  simpl. rewrite (proj2 (Z.leb_le _ _)) by lia. now rewrite IH.
Qed.

Lemma foldr_insert_sorted (l : list MemoryBlockRef) :
  forall acc,
    StronglySorted le_offset l ->
    Forall (fun c => Forall (fun b => offset c <= offset b) l) acc ->
    foldr insert_by_offset acc (rev l) = acc ++ l.
Proof.
  induction l as [|b l IH]; intros acc Hs Hacc.
  - simpl. now rewrite app_nil_r.
  - apply StronglySorted_inv in Hs as [Hs Hb].
    simpl rev. rewrite foldr_app. simpl foldr at 2.
    rewrite insert_by_offset_last.
    + rewrite IH; [now rewrite <- app_assoc | exact Hs |].
      apply Forall_app. split.
      * eapply Forall_impl; [exact Hacc|]. intros c Hc. now inversion Hc.
      * constructor; [exact Hb | constructor].
    + eapply Forall_impl; [exact Hacc|]. intros c Hc. now inversion Hc.
Qed.

Lemma sort_by_offset_sorted (l : list MemoryBlockRef) :
  StronglySorted le_offset l -> sort_by_offset l = l.
Proof.
  intros Hs. unfold sort_by_offset.
  now rewrite (foldr_insert_sorted l [] Hs) by constructor.
Qed.

Lemma merge_from_separated (l : list MemoryBlockRef) :
  forall a, Sorted separated (a :: l) -> merge_from a l = a :: l.
Proof.
  induction l as [|b l IH]; intros a Hs; [reflexivity|].
  apply Sorted_inv in Hs as [Hs Hd]. apply HdRel_inv in Hd.
  simpl. unfold separated in Hd. rewrite (proj2 (Z.ltb_lt _ _)) by exact Hd.
  now rewrite IH.
Qed.

Lemma merge_sort_separated (l : list MemoryBlockRef) :
  Forall uint32_block l -> Sorted separated l ->
  merge_loop [] (sort_by_offset l) = l.
Proof.
  intros Hu Hs.
  assert (H0 : Forall (fun b => 0 <= size b) l).
  { eapply Forall_impl; [exact Hu|]. intros b [_ [? _]]. assumption. }
  rewrite sort_by_offset_sorted.
  - rewrite merge_loop_nil. destruct l as [|a l]; [reflexivity|].
    now apply merge_from_separated.
  - pose proof (Sorted_separated_Strongly l H0 Hs) as Hss.
    clear Hs. induction Hss as [|a l Hss IH Ha]; [constructor|].
    inversion Hu as [|? ? [_ [? _]] Hu']; subst.
    inversion H0 as [|? ? _ H0']; subst.
    constructor; [now apply IH|].
    eapply Forall_impl; [exact Ha|]. unfold separated, le_offset. intros; lia.
Qed.

(** X14: [coalesceFreeBlocks] changes nothing when the free table is
    already sorted by offset with a gap between each entry and the next
    one, which is the state every [free] leaves: the pass returns and
    every byte of the arena is as before.  In particular a second pass
    right after a first one is the identity. *)
Theorem coalesceFreeBlocks_fixes_separated_table (w : World) (fl : list MemoryBlockRef) :
  free_table (buffer w) = Some fl ->
  Sorted separated fl ->
  coalesceFreeBlocks w = (Ok tt, w).
Proof.
  intros Hfl Hs.
  pose proof (free_table_uint32 _ _ Hfl) as Hu.
  pose proof (free_table_count _ _ Hfl) as Hc.
  unfold free_table in Hfl. rewrite Hc, Nat2Z.id in Hfl.
  unfold coalesceFreeBlocks. get_step Hc. rewrite Nat2Z.id.
  rewrite (bind_Ok _ _ _ _ _ (read_loop _ 0 [] w fl Hfl)). cbv beta. simpl app.
  rewrite (merge_sort_separated fl Hu Hs).
  rewrite (bind_Ok _ _ _ _ _ (save_blocks_same fl 0 w Hfl)). cbv beta.
  rewrite (view_setUint32_Ok w 4 _ _ (setUint32_same _ _ _ Hc)).
  now rewrite with_buffer_id.
Qed.

Lemma coalesceFreeBlocks_fixes_separated_table_witness :
  free_table (buffer arena_three_free)
  = Some [mkBlock 812 10; mkBlock 832 10; mkBlock 852 10]
  /\ coalesceFreeBlocks arena_three_free = (Ok tt, arena_three_free).
Proof.
  assert (Hfl : free_table (buffer arena_three_free)
                = Some [mkBlock 812 10; mkBlock 832 10; mkBlock 852 10])
    by (vm_compute; reflexivity).
  split; [exact Hfl|].
  apply (coalesceFreeBlocks_fixes_separated_table _ _ Hfl).
  assert (S1 : separated (mkBlock 812 10) (mkBlock 832 10))
    by (unfold separated; simpl; lia).
  assert (S2 : separated (mkBlock 832 10) (mkBlock 852 10))
    by (unfold separated; simpl; lia).
  apply Sorted_cons; [apply Sorted_cons; [apply Sorted_cons; [apply Sorted_nil|]|]|].
  - apply HdRel_nil.
  - apply HdRel_cons. exact S2.
  - apply HdRel_cons. exact S1.
Defined.

(** ** Growing an array *)

(** Two words read the same when their four bytes are the same. *)
Lemma getUint32_bytes (buf buf' : list byte) (o o' : Z) :
  0 <= o -> o + 4 <= byteLength buf ->
  0 <= o' -> o' + 4 <= byteLength buf' ->
  (forall k, (k < 4)%nat -> buf' !! (Z.to_nat o' + k)%nat = buf !! (Z.to_nat o + k)%nat) ->
  getUint32 buf' o' = getUint32 buf o.
Proof.
  intros H0 H4 H0' H4' Hk. unfold getUint32.
  rewrite (proj2 (in_view_true buf o)), (proj2 (in_view_true buf' o')) by lia.
  unfold byteAt.
  pose proof (Hk 0%nat ltac:(lia)) as K0. rewrite !Nat.add_0_r in K0.
  rewrite K0, (Hk 1%nat), (Hk 2%nat), (Hk 3%nat) by lia. reflexivity.
Qed.

Lemma copied_length (buf : list byte) (a s n : nat) :
  (s + n <= length buf)%nat -> (a + n <= length buf)%nat ->
  length (copied buf a s n) = length buf.
Proof.
  intros Hs Ha. unfold copied.
  rewrite !length_app, !length_take, !length_drop. lia.
Qed.

Lemma copied_lookup_inside (buf : list byte) (a s n j : nat) :
  (s + n <= length buf)%nat -> (a + n <= length buf)%nat ->
  (j < n)%nat ->
  copied buf a s n !! (a + j)%nat = buf !! (s + j)%nat.
Proof.
  intros Hs Ha Hj. unfold copied.
  rewrite lookup_app_r by (rewrite length_take; lia).
  rewrite length_take, Nat.min_l by lia.
  replace (a + j - a)%nat with j by lia.
  rewrite lookup_app_l by (rewrite length_take, length_drop; lia).
  rewrite lookup_take_lt by lia. apply lookup_drop.
Qed.

Lemma copied_lookup_outside (buf : list byte) (a s n j : nat) :
  (s + n <= length buf)%nat -> (a + n <= length buf)%nat ->
  (j < a \/ a + n <= j)%nat ->
  copied buf a s n !! j = buf !! j.
Proof.
  intros Hs Ha Hj. unfold copied.
  assert (Hn : length (take n (drop s buf)) = n)
    by (rewrite length_take, length_drop; lia).
  rewrite Hn.
  destruct Hj as [Hj|Hj].
  - rewrite lookup_app_l by (rewrite length_take; lia).
    apply lookup_take_lt. lia.
  - rewrite lookup_app_r by (rewrite length_take; lia).
    rewrite length_take, Nat.min_l by lia.
    rewrite lookup_app_r by lia. rewrite Hn, lookup_drop.
    f_equal. lia.
Qed.

Lemma getUint32_copied_inside (buf : list byte) (a s n k : Z) :
  0 <= a -> 0 <= s -> 0 <= n ->
  s + n <= byteLength buf -> a + n <= byteLength buf ->
  0 <= k -> k + 4 <= n ->
  getUint32 (copied buf (Z.to_nat a) (Z.to_nat s) (Z.to_nat n)) (a + k)
  = getUint32 buf (s + k).
Proof.
  intros Ha Hs Hn HsL HaL Hk Hk4. unfold byteLength in *.
  apply getUint32_bytes; unfold byteLength; try lia.
  - rewrite copied_length; lia.
  - intros j Hj.
    replace (Z.to_nat (a + k) + j)%nat with (Z.to_nat a + (Z.to_nat k + j))%nat by lia.
    replace (Z.to_nat (s + k) + j)%nat with (Z.to_nat s + (Z.to_nat k + j))%nat by lia.
    apply copied_lookup_inside; lia.
Qed.

Lemma getUint32_copied_outside (buf : list byte) (a s n o : Z) :
  0 <= a -> 0 <= s -> 0 <= n ->
  s + n <= byteLength buf -> a + n <= byteLength buf ->
  o + 4 <= a \/ a + n <= o ->
  getUint32 (copied buf (Z.to_nat a) (Z.to_nat s) (Z.to_nat n)) o = getUint32 buf o.
Proof.
  intros Ha Hs Hn HsL HaL Ho.
  assert (HL : byteLength (copied buf (Z.to_nat a) (Z.to_nat s) (Z.to_nat n))
               = byteLength buf)
    by (unfold byteLength in *; rewrite copied_length; lia).
  destruct (Z.le_gt_cases 0 o) as [H0|H0];
    [destruct (Z.le_gt_cases (o + 4) (byteLength buf)) as [H4|H4]|].
  - apply getUint32_bytes; try lia.
    intros j Hj. unfold byteLength in *. apply copied_lookup_outside; lia.
  - unfold getUint32.
    rewrite (proj2 (in_view_false buf o)) by lia.
    now rewrite (proj2 (in_view_false _ o)) by lia.
  - unfold getUint32.
    rewrite (proj2 (in_view_false buf o)) by lia.
    now rewrite (proj2 (in_view_false _ o)) by lia.
Qed.

Lemma Uint8Array_Ok (w : World) (byteOffset len : Z) :
  0 <= byteOffset -> 0 <= len -> byteOffset + len <= byteLength (buffer w) ->
  Uint8Array byteOffset len w = (Ok (byteOffset, len), w).
Proof.
  intros H0 Hl HL. unfold Uint8Array, gets. unfold bind.
  rewrite (proj2 (Z.ltb_ge byteOffset 0)), (proj2 (Z.ltb_ge len 0)) by lia.
  rewrite (proj2 (Z.ltb_ge _ _)) by lia. reflexivity.
Qed.

Lemma Uint8Array_set_Ok (w : World) (a s n m : Z) :
  n <= m ->
  Uint8Array_set (a, m) (s, n) w
  = (Ok tt, with_buffer (copied (buffer w) (Z.to_nat a) (Z.to_nat s) (Z.to_nat n)) w).
Proof.
  intros Hnm. unfold Uint8Array_set. cbn [fst snd].
  rewrite (proj2 (Z.ltb_ge m n)) by lia. reflexivity.
Qed.

Lemma free_table_ext (buf buf' : list byte) (fl : list MemoryBlockRef) :
  free_table buf = Some fl ->
  (forall o, 4 <= o -> o + 4 <= 12 + Z.of_nat (length fl) * 8 ->
             getUint32 buf' o = getUint32 buf o) ->
  free_table buf' = Some fl.
Proof.
  intros Hfl Hsame.
  pose proof (free_table_count _ _ Hfl) as Hc.
  unfold free_table in *. rewrite Hsame, Hc by lia. rewrite Hc in Hfl.
  rewrite Nat2Z.id in *. rewrite <- Hfl.
  apply read_entries_ext. intros j Hj.
  unfold read_entry. rewrite !Hsame by lia. reflexivity.
Qed.

(** [resize] when the new block is taken at the bump offset [bump],
    inside the arena: the elements are copied there, the former block
    is released and the new metadata are saved. *)
Lemma resize_bumps (w : World) (ref : nat) (t : ResizableArray)
        (fl : list MemoryBlockRef) (bump : Z) :
  heap w !! ref = Some t ->
  0 <= _capacity t ->
  free_table (buffer w) = Some fl ->
  Forall (fun b => size b < 8 + _capacity t * 2 * 4) fl ->
  Z.of_nat (length fl) < maxFreeBlocks (allocator w) ->
  getUint32 (buffer w) 0 = Some bump ->
  12 + maxFreeBlocks (allocator w) * 8 <= offset (_block t) ->
  offset (_block t) + 8 + _capacity t * 4 <= bump ->
  bump + (8 + _capacity t * 2 * 4) <= byteLength (buffer w) ->
  bump + (8 + _capacity t * 2 * 4) < 2 ^ 32 ->
  exists w',
    resize ref w = (Ok tt, w')
    /\ heap w' !! ref
       = Some (mkArray (_length t) (_capacity t * 2)
                       (mkBlock bump (8 + _capacity t * 2 * 4))
                       (__ID t) (_initialCapacity t))
    /\ (forall i, 0 <= i < _capacity t -> fst (get ref i w') = fst (get ref i w))
    /\ free_table (buffer w') = Some (table_after_free fl (_block t))
    /\ getUint32 (buffer w') 0 = Some (bump + (8 + _capacity t * 2 * 4))
    /\ getUint32 (buffer w') bump = Some (ToUint32 (_length t))
    /\ getUint32 (buffer w') (bump + 4) = Some (_capacity t * 2)
    /\ byteLength (buffer w') = byteLength (buffer w).
Proof.
  intros Ht Hcap Hfl Hsmall Hroom Hbump Hoff Hbelow HL H32.
  set (cap := _capacity t) in *. set (off := offset (_block t)) in *.
  set (sz := 8 + cap * 2 * 4) in *.
  set (maxFree := maxFreeBlocks (allocator w)) in *.
  pose proof (getUint32_range _ _ _ Hbump) as Rb.
  pose proof (free_table_count _ _ Hfl) as Hc.
  (* [allocate] *)
  destruct (setUint32_is_Some (buffer w) 0 (bump + sz)) as [b1 H1]; [lia..|].
  pose proof (setUint32_byteLength _ _ _ _ H1) as L1.
  assert (Halloc : allocate sz w = (Ok (mkBlock bump sz), with_buffer b1 w)).
  { rewrite (allocate_no_fit w sz fl bump Hfl (proj2 (first_fit_None _ _) Hsmall) Hbump).
    rewrite (proj2 (Z.ltb_ge _ _)) by lia.
    set_step H1. reflexivity. }
  (* the copy *)
  set (b2 := copied b1 (Z.to_nat (bump + 8)) (Z.to_nat (off + 8)) (Z.to_nat (cap * 4))).
  assert (L2 : byteLength b2 = byteLength b1).
  { unfold byteLength in *. unfold b2. rewrite copied_length; lia. }
  assert (Hout : forall o, 4 <= o -> o + 4 <= bump + 8 ->
                           getUint32 b2 o = getUint32 (buffer w) o).
  { intros o Ho4 Ho. unfold b2. rewrite getUint32_copied_outside by lia.
    apply (getUint32_setUint32_ne _ _ _ _ _ H1). lia. }
  assert (Hbump2 : getUint32 b2 0 = Some (bump + sz)).
  { unfold b2. rewrite getUint32_copied_outside by lia.
    rewrite (getUint32_setUint32_eq _ _ _ _ H1).
    f_equal. apply ToUint32_id. split; lia. }
  assert (Hin : forall k, 0 <= k -> k + 4 <= cap * 4 ->
                          getUint32 b2 (bump + 8 + k) = getUint32 (buffer w) (off + 8 + k)).
  { intros k Hk Hk4. unfold b2. rewrite getUint32_copied_inside by lia.
    apply (getUint32_setUint32_ne _ _ _ _ _ H1). lia. }
  (* [free] *)
  set (w2 := with_buffer b2 w).
  assert (Hfl2 : free_table b2 = Some fl).
  { apply (free_table_ext (buffer w)); [exact Hfl|].
    intros o Ho4 Ho. apply Hout; lia. }
  destruct (free_Ok w2 (_block t) (Z.of_nat (length fl)))
    as (fl' & b3 & Hfl' & Hfree & L3 & Htab & Hframe).
  { change (buffer w2) with b2. rewrite Hout by lia. exact Hc. }
  { exact Hroom. }
  { change (buffer w2) with b2. lia. }
  change (buffer w2) with b2 in *.
  rewrite Hfl2 in Hfl'. injection Hfl' as <-.
  (* the object and its metadata *)
  set (t' := mkArray (_length t) (cap * 2) (mkBlock bump sz) (__ID t) (_initialCapacity t)).
  set (w4 := mkWorld (allocator (with_buffer b3 w2))
                     (alter (set_block (mkBlock bump sz)) ref
                            (alter (set_capacity (cap * 2)) ref (heap w)))).
  assert (Ht' : heap w4 !! ref = Some t').
  { unfold w4. simpl heap. rewrite !list_lookup_alter_eq, Ht. reflexivity. }
  destruct (saveMetadata_Ok w4 ref t' Ht') as (b5 & b6 & H5 & H6 & Hsave);
    [simpl; lia | change (buffer w4) with b3; simpl; lia |].
  change (buffer w4) with b3 in H5.
  change (offset (_block t')) with bump in *.
  change (_length t') with (_length t) in *.
  change (_capacity t') with (cap * 2) in *.
  pose proof (setUint32_byteLength _ _ _ _ H5) as L5.
  pose proof (setUint32_byteLength _ _ _ _ H6) as L6.
  exists (with_buffer b6 w4).
  assert (Helem : forall i, 0 <= i < cap ->
                            getUint32 b6 (bump + 8 + i * 4)
                            = getUint32 (buffer w) (off + 8 + i * 4)).
  { intros i Hi.
    rewrite (getUint32_setUint32_ne _ _ _ _ _ H6) by lia.
    rewrite (getUint32_setUint32_ne _ _ _ _ _ H5) by lia.
    rewrite Hframe by lia.
    rewrite <- !Z.add_assoc. rewrite !Z.add_assoc. apply Hin; lia. }
  split.
  { unfold resize. this_step Ht. fold cap. change (8 + cap * 2 * 4) with sz.
    step_with Halloc. this_step Ht. fold cap. fold off. simpl offset.
    assert (V1 : off + 8 + cap * 4 <= byteLength (buffer (with_buffer b1 w)))
      by (rewrite buffer_with_buffer; lia).
    assert (V2 : bump + 8 + cap * 2 * 4 <= byteLength (buffer (with_buffer b1 w)))
      by (rewrite buffer_with_buffer; lia).
    rewrite (bind_Ok _ _ _ _ _ (Uint8Array_Ok (with_buffer b1 w) (off + 8) (cap * 4)
                                  ltac:(lia) ltac:(lia) V1)).
    cbv beta.
    rewrite (bind_Ok _ _ _ _ _ (Uint8Array_Ok (with_buffer b1 w) (bump + 8) (cap * 2 * 4)
                                  ltac:(lia) ltac:(lia) V2)).
    cbv beta.
    rewrite (bind_Ok _ _ _ _ _ (Uint8Array_set_Ok (with_buffer b1 w) (bump + 8) (off + 8)
                                  (cap * 4) (cap * 2 * 4) ltac:(lia))).
    cbv beta. rewrite buffer_with_buffer, with_buffer_with_buffer.
    fold b2. fold w2. this_step Ht.
    step_with Hfree.
    unfold update_this, modify. unfold bind at 1. unfold bind at 1.
    exact Hsave. }
  split; [exact Ht'|].
  split.
  { intros i Hi. unfold get.
    rewrite (bind_Ok _ _ _ _ _ (this_Ok (with_buffer b6 w4) ref t' Ht')).
    this_step Ht. cbv beta.
    change (_length t') with (_length t).
    destruct (_length t <=? i); [reflexivity|].
    change (offset (_block t')) with bump. fold off.
    unfold view_getUint32. rewrite buffer_with_buffer, (Helem i Hi).
    destruct (getUint32 (buffer w) (off + 8 + i * 4)); reflexivity. }
  split.
  { rewrite buffer_with_buffer.
    apply (free_table_set_outside _ _ _ _ _ H6); [|
      apply (free_table_set_outside _ _ _ _ _ H5); [|exact Htab]].
    - right; right. pose proof (table_after_free_length fl (_block t)). lia.
    - right; right. pose proof (table_after_free_length fl (_block t)). lia. }
  split.
  { rewrite buffer_with_buffer.
    rewrite (getUint32_setUint32_ne _ _ _ _ _ H6) by lia.
    rewrite (getUint32_setUint32_ne _ _ _ _ _ H5) by lia.
    rewrite Hframe by lia. exact Hbump2. }
  split.
  { rewrite buffer_with_buffer.
    rewrite (getUint32_setUint32_ne _ _ _ _ _ H6) by lia.
    apply (getUint32_setUint32_eq _ _ _ _ H5). }
  split.
  { rewrite buffer_with_buffer.
    rewrite (getUint32_setUint32_eq _ _ _ _ H6).
    f_equal. apply ToUint32_id. split; lia. }
  rewrite buffer_with_buffer. lia.
Qed.

(** What [push] does once the array has room: the value is stored after
    the elements, the length incremented and the metadata saved. *)
Lemma push_store (w : World) (ref : nat) (t : ResizableArray) (value : Z) :
  heap w !! ref = Some t ->
  0 <= offset (_block t) ->
  0 <= _length t ->
  offset (_block t) + 8 + (_length t + 1) * 4 <= byteLength (buffer w) ->
  exists w',
    (let* t := this ref in
     view_setUint32 (offset (_block t) + 8 + _length t * 4) value ;;;
     update_this ref (fun t => set_length (_length t + 1) t) ;;;
     saveMetadata ref) w = (Ok tt, w')
    /\ heap w' !! ref = Some (set_length (_length t + 1) t)
    /\ getUint32 (buffer w') (offset (_block t) + 8 + _length t * 4)
       = Some (ToUint32 value)
    /\ (forall o, o + 4 <= offset (_block t) \/ offset (_block t) + 8 <= o ->
                  o + 4 <= offset (_block t) + 8 + _length t * 4
                  \/ offset (_block t) + 8 + _length t * 4 + 4 <= o ->
                  getUint32 (buffer w') o = getUint32 (buffer w) o)
    /\ byteLength (buffer w') = byteLength (buffer w).
Proof.
  intros Ht H0 Hlen HL.
  set (off := offset (_block t)) in *.
  set (t1 := set_length (_length t + 1) t).
  destruct (setUint32_is_Some (buffer w) (off + 8 + _length t * 4) value) as [b1 H1]; [lia..|].
  pose proof (setUint32_byteLength _ _ _ _ H1) as L1.
  set (w1 := mkWorld (allocator (with_buffer b1 w))
                     (alter (fun t => set_length (_length t + 1) t) ref (heap w))).
  assert (Ht1 : heap w1 !! ref = Some t1).
  { unfold w1. simpl. rewrite list_lookup_alter_eq, Ht. reflexivity. }
  destruct (saveMetadata_Ok w1 ref t1 Ht1) as (b2 & b3 & H2 & H3 & Hsave);
    [exact H0 | change (buffer w1) with b1; unfold t1; simpl; fold off; lia |].
  change (buffer w1) with b1 in H2. change (offset (_block t1)) with off in *.
  pose proof (setUint32_byteLength _ _ _ _ H2) as L2.
  pose proof (setUint32_byteLength _ _ _ _ H3) as L3.
  exists (with_buffer b3 w1).
  split.
  { this_step Ht. fold off. set_step H1.
    unfold update_this, modify. unfold bind at 1. exact Hsave. }
  split; [exact Ht1|].
  split.
  { rewrite buffer_with_buffer.
    rewrite (getUint32_setUint32_ne _ _ _ _ _ H3) by lia.
    rewrite (getUint32_setUint32_ne _ _ _ _ _ H2) by lia.
    apply (getUint32_setUint32_eq _ _ _ _ H1). }
  split.
  { intros o Ho1 Ho2. rewrite buffer_with_buffer.
    rewrite (getUint32_setUint32_ne _ _ _ _ _ H3) by lia.
    rewrite (getUint32_setUint32_ne _ _ _ _ _ H2) by lia.
    apply (getUint32_setUint32_ne _ _ _ _ _ H1). lia. }
  rewrite buffer_with_buffer. lia.
Qed.

(** X15: [push] on a full array grows it.  On an arena whose free table
    has room for one more entry and no entry of [8 + 2 * cap * 4] bytes,
    whose bump offset [bump] leaves room for that many bytes, for a full
    array of capacity [cap > 0] whose block lies between the free table
    and [bump]: [push(value)] returns; the array has capacity [2 * cap],
    one more element, and the block of [8 + 2 * cap * 4] bytes at
    [bump]; [get] of the former length returns the value (modulo 2^32),
    [get] of every index below it returns what it returned before, and
    the former block is in the free table, coalesced. *)
Theorem push_on_full_array_doubles_capacity
        (w : World) (ref : nat) (t : ResizableArray)
        (fl : list MemoryBlockRef) (bump value : Z) :
  heap w !! ref = Some t ->
  0 < _capacity t ->
  _length t = _capacity t ->
  free_table (buffer w) = Some fl ->
  Forall (fun b => size b < 8 + _capacity t * 2 * 4) fl ->
  Z.of_nat (length fl) < maxFreeBlocks (allocator w) ->
  getUint32 (buffer w) 0 = Some bump ->
  12 + maxFreeBlocks (allocator w) * 8 <= offset (_block t) ->
  offset (_block t) + 8 + _capacity t * 4 <= bump ->
  bump + (8 + _capacity t * 2 * 4) <= byteLength (buffer w) ->
  bump + (8 + _capacity t * 2 * 4) < 2 ^ 32 ->
  exists w',
    push ref value w = (Ok tt, w')
    /\ heap w' !! ref
       = Some (mkArray (_length t + 1) (_capacity t * 2)
                       (mkBlock bump (8 + _capacity t * 2 * 4))
                       (__ID t) (_initialCapacity t))
    /\ get ref (_length t) w' = (Ok (ToUint32 value), w')
    /\ (forall i, 0 <= i < _length t -> fst (get ref i w') = fst (get ref i w))
    /\ free_table (buffer w') = Some (table_after_free fl (_block t)).
Proof.
  intros Ht Hcap Hfull Hfl Hsmall Hroom Hbump Hoff Hbelow HL H32.
  destruct (resize_bumps w ref t fl bump Ht ltac:(lia) Hfl Hsmall Hroom Hbump
                         Hoff Hbelow HL H32)
    as (w1 & Hresize & Ht1 & Hget & Htab & _ & _ & _ & L1).
  set (t1 := mkArray (_length t) (_capacity t * 2)
                     (mkBlock bump (8 + _capacity t * 2 * 4))
                     (__ID t) (_initialCapacity t)) in *.
  pose proof (getUint32_range _ _ _ Hbump) as Rb.
  destruct (push_store w1 ref t1 value Ht1) as (w' & Htail & Ht' & Hv & Hframe & L');
    [simpl; lia | simpl; lia | simpl; lia |].
  change (offset (_block t1)) with bump in *.
  change (_length t1) with (_length t) in *.
  exists w'.
  split.
  { unfold push. this_step Ht.
    rewrite (proj2 (Z.leb_le _ _)) by lia.
    step_with Hresize. exact Htail. }
  split; [exact Ht'|].
  split.
  { unfold get. this_step Ht'.
    change (_length (set_length (_length t + 1) t1)) with (_length t + 1).
    change (offset (_block (set_length (_length t + 1) t1))) with bump.
    rewrite (proj2 (Z.leb_gt _ _)) by lia.
    apply view_getUint32_Ok. exact Hv. }
  split.
  { intros i Hi. rewrite <- (Hget i) by lia.
    unfold get. this_step Ht'. this_step Ht1.
    change (_length (set_length (_length t + 1) t1)) with (_length t + 1).
    change (offset (_block (set_length (_length t + 1) t1))) with bump.
    change (_length t1) with (_length t). change (offset (_block t1)) with bump.
    rewrite (proj2 (Z.leb_gt (_length t + 1) i)) by lia.
    rewrite (proj2 (Z.leb_gt (_length t) i)) by lia.
    unfold view_getUint32.
    rewrite Hframe by lia.
    destruct (getUint32 (buffer w1) (bump + 8 + i * 4)); reflexivity. }
  pose proof (table_after_free_length fl (_block t)) as Hlen.
  apply (free_table_ext (buffer w1)); [exact Htab|].
  intros o Ho4 Ho. apply Hframe; lia.
Qed.

Lemma push_on_full_array_doubles_capacity_witness :
  heap arena_full_array !! 0%nat = Some (mkArray 2 2 (mkBlock 812 16) (Some 0) 2)
  /\ exists w',
       push 0 7 arena_full_array = (Ok tt, w')
       /\ heap w' !! 0%nat = Some (mkArray 3 4 (mkBlock 828 24) (Some 0) 2)
       /\ get 0 2 w' = (Ok (ToUint32 7), w').
Proof.
  assert (Ht : heap arena_full_array !! 0%nat
               = Some (mkArray 2 2 (mkBlock 812 16) (Some 0) 2))
    by (vm_compute; reflexivity).
  split; [exact Ht|].
  destruct (push_on_full_array_doubles_capacity arena_full_array 0 _ [] 828 7 Ht)
    as (w' & Hpush & Ht' & Hget & _).
  - simpl. lia.
  - reflexivity.
  - vm_compute. reflexivity.
  - constructor.
  - vm_compute. reflexivity.
  - vm_compute. reflexivity.
  - vm_compute. discriminate.
  - vm_compute. discriminate.
  - vm_compute. discriminate.
  - vm_compute. reflexivity.
  - exists w'. split; [exact Hpush|]. split; [exact Ht' | exact Hget].
Defined.

(** X16: an array of capacity 0 never grows, and stores its elements
    outside its block.  Under the conditions of the growth above, for an
    empty array of capacity 0: [push(value)] returns, the array has
    length 1 and still capacity 0, its block is the 8 bytes at [bump],
    and the value is stored in the word at [bump + 8], where the block
    ends and where the bump offset of the arena now points: the word
    belongs to the next block that [allocate] takes there, although
    [get(0)] returns the value. *)
Theorem push_on_capacity_zero_stores_outside_block
        (w : World) (ref : nat) (t : ResizableArray)
        (fl : list MemoryBlockRef) (bump value : Z) :
  heap w !! ref = Some t ->
  _capacity t = 0 ->
  _length t = 0 ->
  free_table (buffer w) = Some fl ->
  Forall (fun b => size b < 8) fl ->
  Z.of_nat (length fl) < maxFreeBlocks (allocator w) ->
  getUint32 (buffer w) 0 = Some bump ->
  12 + maxFreeBlocks (allocator w) * 8 <= offset (_block t) ->
  offset (_block t) + 8 <= bump ->
  bump + 12 <= byteLength (buffer w) ->
  bump + 12 < 2 ^ 32 ->
  exists w',
    push ref value w = (Ok tt, w')
    /\ heap w' !! ref
       = Some (mkArray 1 0 (mkBlock bump 8) (__ID t) (_initialCapacity t))
    /\ getUint32 (buffer w') 0 = Some (bump + 8)
    /\ getUint32 (buffer w') (bump + 8) = Some (ToUint32 value)
    /\ get ref 0 w' = (Ok (ToUint32 value), w').
Proof.
  intros Ht Hcap Hlen Hfl Hsmall Hroom Hbump Hoff Hbelow HL H32.
  destruct (resize_bumps w ref t fl bump Ht) as (w1 & Hresize & Ht1 & _ & _ & Hb1 & _ & _ & L1);
    rewrite ?Hcap; try assumption; try lia.
  rewrite Hcap, Hlen in Ht1. simpl in Ht1. rewrite Hcap in Hb1. simpl in Hb1.
  set (t1 := mkArray 0 0 (mkBlock bump 8) (__ID t) (_initialCapacity t)) in *.
  pose proof (getUint32_range _ _ _ Hbump) as Rb.
  destruct (push_store w1 ref t1 value Ht1) as (w' & Htail & Ht' & Hv & Hframe & L');
    [simpl; lia | simpl; lia | simpl; lia |].
  change (offset (_block t1)) with bump in *.
  change (_length t1) with 0 in *.
  replace (bump + 8 + 0 * 4) with (bump + 8) in * by lia.
  exists w'.
  split.
  { unfold push. this_step Ht.
    rewrite (proj2 (Z.leb_le _ _)) by lia.
    step_with Hresize. exact Htail. }
  split; [exact Ht'|].
  split; [rewrite Hframe by lia; exact Hb1|].
  split; [exact Hv|].
  unfold get. this_step Ht'.
  change (offset (_block (set_length (0 + 1) t1)) + 8 + 0 * 4) with (bump + 8 + 0).
  rewrite Z.add_0_r.
  apply view_getUint32_Ok. exact Hv.
Qed.

Lemma push_on_capacity_zero_stores_outside_block_witness :
  heap arena_capacity_zero !! 0%nat = Some (mkArray 0 0 (mkBlock 812 8) (Some 0) 0)
  /\ exists w',
       push 0 7 arena_capacity_zero = (Ok tt, w')
       /\ heap w' !! 0%nat = Some (mkArray 1 0 (mkBlock 820 8) (Some 0) 0)
       /\ getUint32 (buffer w') 0 = Some 828
       /\ getUint32 (buffer w') 828 = Some (ToUint32 7).
Proof.
  assert (Ht : heap arena_capacity_zero !! 0%nat
               = Some (mkArray 0 0 (mkBlock 812 8) (Some 0) 0))
    by (vm_compute; reflexivity).
  split; [exact Ht|].
  destruct (push_on_capacity_zero_stores_outside_block
              arena_capacity_zero 0 _ [] 820 7 Ht)
    as (w' & Hpush & Ht' & Hb & Hv & _).
  - reflexivity.
  - reflexivity.
  - vm_compute. reflexivity.
  - constructor.
  - vm_compute. reflexivity.
  - vm_compute. reflexivity.
  - vm_compute. discriminate.
  - vm_compute. discriminate.
  - vm_compute. discriminate.
  - vm_compute. reflexivity.
  - exists w'. split; [exact Hpush|]. split; [exact Ht'|]. split; [exact Hb | exact Hv].
Defined.

(** ** Growth of the arena with a registered array *)

Lemma list_alter_insert {A} (f : A -> A) (l : list A) (i : nat) (x : A) :
  l !! i = Some x -> alter f i l = <[i := f x]> l.
Proof.
  revert i. induction l as [|y l IH]; intros i Hi; [discriminate|].
  destruct i as [|i]; simpl in *.
  - now injection Hi as ->.
  - f_equal. now apply IH.
Qed.

(** [restore(off)] when the two words at [off] are in the arena: the
    block of the array becomes [off], with the size of the capacity the
    array had, and its length and capacity are read there. *)
Lemma restore_Ok (w : World) (ref : nat) (t : ResizableArray) (off len cap : Z) :
  heap w !! ref = Some t ->
  getUint32 (buffer w) off = Some len ->
  getUint32 (buffer w) (off + 4) = Some cap ->
  restore ref off w
  = (Ok tt,
     mkWorld (allocator w)
             (<[ref := mkArray len cap (mkBlock off (_capacity t * 4 + 8))
                               (__ID t) (_initialCapacity t)]> (heap w))).
Proof.
  intros Ht Hlen Hcap.
  assert (Hlt : (ref < length (heap w))%nat) by (apply lookup_lt_is_Some; eauto).
  set (blk := mkBlock off (_capacity t * 4 + 8)).
  unfold restore. this_step Ht. fold blk.
  unfold update_this at 1, modify. unfold bind at 1.
  rewrite (list_alter_insert _ _ _ _ Ht).
  set (t1 := set_block blk t).
  set (w1 := mkWorld (allocator w) (<[ref := t1]> (heap w))).
  assert (Ht1 : heap w1 !! ref = Some t1) by (apply list_lookup_insert_eq; exact Hlt).
  unfold loadMetadata. this_step Ht1.
  change (offset (_block t1)) with off.
  rewrite (bind_Ok _ _ _ _ _ (view_getUint32_Ok w1 off len Hlen)). cbv beta.
  unfold update_this at 1, modify. unfold bind at 1.
  rewrite (list_alter_insert _ _ _ _ Ht1).
  change (heap w1) with (<[ref := t1]> (heap w)). rewrite list_insert_insert_eq.
  set (t2 := set_length len t1).
  set (w2 := mkWorld (allocator w1) (<[ref := t2]> (heap w))).
  assert (Ht2 : heap w2 !! ref = Some t2) by (apply list_lookup_insert_eq; exact Hlt).
  rewrite (bind_Ok _ _ _ _ _ (view_getUint32_Ok w2 (off + 4) cap Hcap)). cbv beta.
  unfold update_this, modify.
  rewrite (list_alter_insert _ _ _ _ Ht2).
  change (heap w2) with (<[ref := t2]> (heap w)). rewrite list_insert_insert_eq.
  reflexivity.
Qed.

(** X17: growth re-reads a registered array at the offset of its
    registry entry.  When the registry of the arena holds one entry
    [(id, off)], the structure of id [id] is the array at [ref], and the
    two words at [off] read [len] and [cap], [expandBuffer] returns; the
    arena is followed by as many zero bytes as it had bytes, and the
    array now has length [len], capacity [cap] and the block at [off],
    of the size of the capacity it had before; nothing else changes. *)
Theorem expandBuffer_restores_registered_array
        (w : World) (ref : nat) (t : ResizableArray) (e : StructEntry)
        (id off len cap : Z) :
  getUint32 (buffer w) 8 = Some 1 ->
  getUint32 (buffer w) (12 + maxFreeBlocks (allocator w) * 8) = Some id ->
  getUint32 (buffer w) (12 + maxFreeBlocks (allocator w) * 8 + 4) = Some off ->
  _structures (allocator w) !! id = Some e ->
  entry_struct e = ArrayStruct ref ->
  heap w !! ref = Some t ->
  getUint32 (buffer w) off = Some len ->
  getUint32 (buffer w) (off + 4) = Some cap ->
  expandBuffer w
  = (Ok tt,
     mkWorld (allocator (grown w))
             (<[ref := mkArray len cap (mkBlock off (_capacity t * 4 + 8))
                               (__ID t) (_initialCapacity t)]> (heap w))).
Proof.
  intros Hc Hid Hoff He Hs Ht Hlen Hcap.
  rewrite expandBuffer_unfold.
  set (g := grown w).
  assert (G : forall o v, getUint32 (buffer w) o = Some v -> getUint32 (buffer g) o = Some v).
  { intros o v H. unfold g, grown. rewrite buffer_with_buffer. now apply getUint32_app. }
  unfold restoreStructures. get_step (G _ _ Hc).
  unfold gets at 1. unfold bind at 1.
  change (maxFreeBlocks (allocator g)) with (maxFreeBlocks (allocator w)).
  change (Z.to_nat 1) with 1%nat. simpl for_loop.
  replace (12 + maxFreeBlocks (allocator w) * 8 + 0 * 8)
    with (12 + maxFreeBlocks (allocator w) * 8) by lia.
  unfold bind at 1. unfold bind at 1.
  get_step (G _ _ Hid). get_step (G _ _ Hoff).
  unfold gets at 1. unfold bind at 1.
  change (_structures (allocator g)) with (_structures (allocator w)).
  rewrite He, Hs. simpl Struct_restore.
  rewrite (bind_Ok _ _ _ _ _ (restore_Ok g ref t off len cap Ht (G _ _ Hlen) (G _ _ Hcap))).
  reflexivity.
Qed.

Lemma expandBuffer_restores_registered_array_witness :
  heap arena_padded_array !! 0%nat = Some (mkArray 1 2 (mkBlock 912 16) (Some 0) 2)
  /\ fst (get 0 0 arena_padded_array) = Ok 42
  /\ expandBuffer arena_padded_array
     = (Ok tt,
        mkWorld (allocator (grown arena_padded_array))
                [mkArray 0 0 (mkBlock 928 16) (Some 0) 2]).
Proof.
  assert (Ht : heap arena_padded_array !! 0%nat
               = Some (mkArray 1 2 (mkBlock 912 16) (Some 0) 2))
    by (vm_compute; reflexivity).
  split; [exact Ht|]. split; [vm_compute; reflexivity|].
  assert (Hc : getUint32 (buffer arena_padded_array) 8 = Some 1)
    by (vm_compute; reflexivity).
  assert (Hid : getUint32 (buffer arena_padded_array)
                          (12 + maxFreeBlocks (allocator arena_padded_array) * 8)
                = Some 0) by (vm_compute; reflexivity).
  assert (Hoff : getUint32 (buffer arena_padded_array)
                           (12 + maxFreeBlocks (allocator arena_padded_array) * 8 + 4)
                 = Some 928) by (vm_compute; reflexivity).
  assert (He : _structures (allocator arena_padded_array) !! 0
               = Some (mkEntry 928 (ArrayStruct 0))) by (vm_compute; reflexivity).
  assert (Hlen : getUint32 (buffer arena_padded_array) 928 = Some 0)
    by (vm_compute; reflexivity).
  assert (Hcap : getUint32 (buffer arena_padded_array) (928 + 4) = Some 0)
    by (vm_compute; reflexivity).
  refine (eq_trans (expandBuffer_restores_registered_array
                      arena_padded_array 0 _ _ 0 928 0 0
                      Hc Hid Hoff He eq_refl Ht Hlen Hcap) _).
  apply (f_equal (fun h => (Ok tt, mkWorld (allocator (grown arena_padded_array)) h))).
  vm_compute. reflexivity.
Defined.
